(** * Action Replay code system: parser, code store and interpreter

    A shallow embedding of [Source/Core/Core/ActionReplay.cpp] and the
    properties of its code parser ([LoadCodes], [SaveCodes]), of its
    process-wide code store ([ApplyCodes], [AddCode], [RunAllActive]) and of
    the per-code interpreter ([RunCodeLocked] and the code types it
    dispatches to).

    Machine integers are [Z] with the wrap-around written out; the globals of
    the translation unit are the fields of one [World] record threaded through
    a small state monad; the C++ unordered set of enabled names is a [gset],
    an ini file a [gmap] from section names to lines. *)

From Stdlib Require Import ZArith Lia List Bool Ascii String.
From Stdlib Require Floats.SpecFloat.
From stdpp Require Import base option list gmap sets strings.

Local Open Scope Z_scope.

(** ** Fixed-width integers *)

Definition u8 (z : Z) : Z := z mod 2 ^ 8.
Definition u16 (z : Z) : Z := z mod 2 ^ 16.
Definition u32 (z : Z) : Z := z mod 2 ^ 32.

(** [static_cast] of an unsigned word to the signed type of the same width. *)
Definition s8 (z : Z) : Z := if u8 z <? 2 ^ 7 then u8 z else u8 z - 2 ^ 8.
Definition s16 (z : Z) : Z := if u16 z <? 2 ^ 15 then u16 z else u16 z - 2 ^ 16.
Definition s32 (z : Z) : Z := if u32 z <? 2 ^ 31 then u32 z else u32 z - 2 ^ 32.

(** ** Code types (the anonymous enum of the source) *)

Abbreviation ZCODE_END := (0x00) (only parsing).
Abbreviation ZCODE_NORM := (0x02) (only parsing).
Abbreviation ZCODE_ROW := (0x03) (only parsing).
Abbreviation ZCODE_04 := (0x04) (only parsing).

Abbreviation CONDTIONAL_EQUAL := (0x01) (only parsing).
Abbreviation CONDTIONAL_NOT_EQUAL := (0x02) (only parsing).
Abbreviation CONDTIONAL_LESS_THAN_SIGNED := (0x03) (only parsing).
Abbreviation CONDTIONAL_GREATER_THAN_SIGNED := (0x04) (only parsing).
Abbreviation CONDTIONAL_LESS_THAN_UNSIGNED := (0x05) (only parsing).
Abbreviation CONDTIONAL_GREATER_THAN_UNSIGNED := (0x06) (only parsing).
Abbreviation CONDTIONAL_AND := (0x07) (only parsing).

Abbreviation CONDTIONAL_ONE_LINE := (0x00) (only parsing).
Abbreviation CONDTIONAL_TWO_LINES := (0x01) (only parsing).
Abbreviation CONDTIONAL_ALL_LINES_UNTIL := (0x02) (only parsing).
Abbreviation CONDTIONAL_ALL_LINES := (0x03) (only parsing).

Abbreviation DATATYPE_8BIT := (0x00) (only parsing).
Abbreviation DATATYPE_16BIT := (0x01) (only parsing).
Abbreviation DATATYPE_32BIT := (0x02) (only parsing).
Abbreviation DATATYPE_32BIT_FLOAT := (0x03) (only parsing).

Abbreviation SUB_RAM_WRITE := (0x00) (only parsing).
Abbreviation SUB_WRITE_POINTER := (0x01) (only parsing).
Abbreviation SUB_ADD_CODE := (0x02) (only parsing).
Abbreviation SUB_MASTER_CODE := (0x03) (only parsing).

(** ** Instructions and codes *)

Record AREntry : Type := mkAREntry { cmd_addr : Z; value : Z }.

Record ARCode : Type := mkARCode {
  name : string;
  ops : list AREntry;
  active : bool;
  user_defined : bool
}.

(** An entry as the C++ type has it: both words are unsigned 32-bit. *)
Definition entry_in_range (e : AREntry) : Prop :=
  0 <= cmd_addr e < 2 ^ 32 /\ 0 <= value e < 2 ^ 32.

(** ** [struct ARAddr]: the command word and its bit fields

    The union overlays the raw word [address] with the bit fields
    [gcaddr : 25], [size : 2], [type : 3], [subtype : 2], lowest bits first.
    Conversion to [u32] ([operator u32]) gives back the raw word, so a
    comparison of an [ARAddr] with an integer compares the whole word. *)
Module ARAddr.
Definition gcaddr (address : Z) : Z := Z.land address 0x1FFFFFF.
Definition size (address : Z) : Z := Z.land (Z.shiftr address 25) 0x3.
Definition type (address : Z) : Z := Z.land (Z.shiftr address 27) 0x7.
Definition subtype (address : Z) : Z := Z.land (Z.shiftr address 30) 0x3.
Definition GCAddress (address : Z) : Z := Z.lor (gcaddr address) 0x80000000.
End ARAddr.

(** ** Guest memory *)

(** Modelled from the spec: the guest memory adapter ([PowerPC::HostRead_U8],
    [HostWrite_U8] and their 16- and 32-bit forms) is declared outside the
    sources.  Following the spec it is a flat space of bytes addressed by
    32-bit guest addresses, wider accesses are big-endian, and no access
    faults.  The first argument of a write is the value, as in the source;
    it is truncated to the width of the access by the parameter type. *)
Definition Memory : Type := Z -> Z.

Definition mem_read_u8 (m : Memory) (address : Z) : Z := u8 (m (u32 address)).

Definition mem_write_u8 (m : Memory) (var address : Z) : Memory :=
  fun a => if a =? u32 address then u8 var else m a.

Definition mem_read_u16 (m : Memory) (address : Z) : Z :=
  Z.lor (Z.shiftl (mem_read_u8 m address) 8) (mem_read_u8 m (address + 1)).

Definition mem_write_u16 (m : Memory) (var address : Z) : Memory :=
  mem_write_u8 (mem_write_u8 m (Z.shiftr (u16 var) 8) address) var (address + 1).

Definition mem_read_u32 (m : Memory) (address : Z) : Z :=
  Z.lor (Z.shiftl (mem_read_u16 m address) 16) (mem_read_u16 m (address + 2)).

Definition mem_write_u32 (m : Memory) (var address : Z) : Memory :=
  mem_write_u16 (mem_write_u16 m (Z.shiftr (u32 var) 16) address) var (address + 2).

(** ** Log lines and alerts *)

(** An argument of a printf-style call. *)
Inductive FmtArg : Type :=
| ArgZ (z : Z)
| ArgS (s : string).

(** A formatted text is kept as the format and its arguments: the formatter
    ([StringFromFormatV]) is outside the sources. *)
Record Text : Type := mkText { text_format : string; text_args : list FmtArg }.

(** ** The state of the translation unit *)

Record World : Type := mkWorld {
  memory : Memory;
  (** [SConfig::GetInstance().bEnableCheats] *)
  bEnableCheats : bool;
  s_active_codes : list ARCode;
  s_internal_log : list Text;
  s_use_internal_log : bool;
  s_current_code : option ARCode;
  s_disable_logging : bool;
  (** what went to [INFO_LOG] *)
  info_log : list Text;
  (** what went to [PanicAlertT] *)
  panic_alerts : list Text
}.

Definition with_memory (m : Memory) (w : World) : World :=
  mkWorld m (bEnableCheats w) (s_active_codes w) (s_internal_log w)
    (s_use_internal_log w) (s_current_code w) (s_disable_logging w)
    (info_log w) (panic_alerts w).

Definition with_active_codes (l : list ARCode) (w : World) : World :=
  mkWorld (memory w) (bEnableCheats w) l (s_internal_log w)
    (s_use_internal_log w) (s_current_code w) (s_disable_logging w)
    (info_log w) (panic_alerts w).

Definition with_internal_log (l : list Text) (w : World) : World :=
  mkWorld (memory w) (bEnableCheats w) (s_active_codes w) l
    (s_use_internal_log w) (s_current_code w) (s_disable_logging w)
    (info_log w) (panic_alerts w).

Definition with_use_internal_log (b : bool) (w : World) : World :=
  mkWorld (memory w) (bEnableCheats w) (s_active_codes w) (s_internal_log w)
    b (s_current_code w) (s_disable_logging w)
    (info_log w) (panic_alerts w).

Definition with_current_code (c : option ARCode) (w : World) : World :=
  mkWorld (memory w) (bEnableCheats w) (s_active_codes w) (s_internal_log w)
    (s_use_internal_log w) c (s_disable_logging w)
    (info_log w) (panic_alerts w).

Definition with_disable_logging (b : bool) (w : World) : World :=
  mkWorld (memory w) (bEnableCheats w) (s_active_codes w) (s_internal_log w)
    (s_use_internal_log w) (s_current_code w) b
    (info_log w) (panic_alerts w).

Definition with_info_log (l : list Text) (w : World) : World :=
  mkWorld (memory w) (bEnableCheats w) (s_active_codes w) (s_internal_log w)
    (s_use_internal_log w) (s_current_code w) (s_disable_logging w)
    l (panic_alerts w).

Definition with_panic_alerts (l : list Text) (w : World) : World :=
  mkWorld (memory w) (bEnableCheats w) (s_active_codes w) (s_internal_log w)
    (s_use_internal_log w) (s_current_code w) (s_disable_logging w)
    (info_log w) l.

(** ** The state monad of the translation unit *)

Definition M (A : Type) : Type := World -> A * World.

Definition ret {A : Type} (a : A) : M A := fun w => (a, w).

Definition bind {A B : Type} (c : M A) (k : A -> M B) : M B :=
  fun w => let r := c w in k (fst r) (snd r).

Notation "x <- c ;; k" := (bind c (fun x => k))
  (at level 100, c at next level, right associativity).
Notation "c ;; k" := (bind c (fun _ => k))
  (at level 100, right associativity).

(** A counted loop [for (i = start; n iterations; ++i) body(i)]. *)
Fixpoint for_loop (n : nat) (i : Z) (body : Z -> M unit) : M unit :=
  match n with
  | O => ret tt
  | S n' => body i ;; for_loop n' (i + 1) body
  end.

Definition HostRead_U8 (address : Z) : M Z :=
  fun w => (mem_read_u8 (memory w) address, w).
Definition HostRead_U16 (address : Z) : M Z :=
  fun w => (mem_read_u16 (memory w) address, w).
Definition HostRead_U32 (address : Z) : M Z :=
  fun w => (mem_read_u32 (memory w) address, w).

Definition HostWrite_U8 (var address : Z) : M unit :=
  fun w => (tt, with_memory (mem_write_u8 (memory w) var address) w).
Definition HostWrite_U16 (var address : Z) : M unit :=
  fun w => (tt, with_memory (mem_write_u16 (memory w) var address) w).
Definition HostWrite_U32 (var address : Z) : M unit :=
  fun w => (tt, with_memory (mem_write_u32 (memory w) var address) w).

(** [PanicAlertT]: the user-visible message dialog. *)
Definition PanicAlertT (format : string) (args : list FmtArg) : M unit :=
  fun w => (tt, with_panic_alerts (panic_alerts w ++ [mkText format args]) w).

(** The name of the code being run, for the messages that include it. *)
Definition current_code_name : M string :=
  fun w => (match s_current_code w with Some c => name c | None => EmptyString end, w).

(** ** The interpreter *)

Section Interpreter.

(** Compile-time log level constants ([MAX_LOGLEVEL], [LogTypes::LINFO]),
    declared outside the sources. *)
Variables MAX_LOGLEVEL LINFO : Z.

(** The 32-bit floating Add: [float_add read data] is the bit pattern of
    [reinterpret_cast<float>(read) + static_cast<float>(data)]. *)
Variable float_add : Z -> Z -> Z.

(** [LogInfo].  The line kept in the internal log is the text with a
    newline appended; the [Text] stands for both. *)
Definition LogInfo (format : string) (args : list FmtArg) : M unit :=
  fun w =>
    if s_disable_logging w then (tt, w)
    else
      let use_internal_log := s_use_internal_log w in
      if (MAX_LOGLEVEL <? LINFO) && negb use_internal_log then (tt, w)
      else
        let text := mkText format args in
        let w1 := with_info_log (info_log w ++ [text]) w in
        if use_internal_log
        then (tt, with_internal_log (s_internal_log w1 ++ [text]) w1)
        else (tt, w1).

(** *** Code functions *)

Definition Subtype_RamWriteAndFill (addr data : Z) : M bool :=
  let new_addr := ARAddr.GCAddress addr in
  LogInfo "Hardware Address: %08x" [ArgZ new_addr] ;;
  LogInfo "Size: %08x" [ArgZ (ARAddr.size addr)] ;;
  match ARAddr.size addr with
  | DATATYPE_8BIT =>
      LogInfo "8-bit Write" [] ;;
      LogInfo "--------" [] ;;
      let repeat := Z.shiftr data 8 in
      for_loop (Z.to_nat (repeat + 1)) 0 (fun i =>
        HostWrite_U8 (Z.land data 0xFF) (u32 (new_addr + i)) ;;
        LogInfo "Wrote %08x to address %08x"
          [ArgZ (Z.land data 0xFF); ArgZ (u32 (new_addr + i))]) ;;
      LogInfo "--------" [] ;;
      ret true
  | DATATYPE_16BIT =>
      LogInfo "16-bit Write" [] ;;
      LogInfo "--------" [] ;;
      let repeat := Z.shiftr data 16 in
      for_loop (Z.to_nat (repeat + 1)) 0 (fun i =>
        HostWrite_U16 (Z.land data 0xFFFF) (u32 (new_addr + i * 2)) ;;
        LogInfo "Wrote %08x to address %08x"
          [ArgZ (Z.land data 0xFFFF); ArgZ (u32 (new_addr + i * 2))]) ;;
      LogInfo "--------" [] ;;
      ret true
  | DATATYPE_32BIT_FLOAT
  | DATATYPE_32BIT =>
      LogInfo "32-bit Write" [] ;;
      LogInfo "--------" [] ;;
      HostWrite_U32 data new_addr ;;
      LogInfo "Wrote %08x to address %08x" [ArgZ data; ArgZ new_addr] ;;
      LogInfo "--------" [] ;;
      ret true
  | _ =>
      LogInfo "Bad Size" [] ;;
      code_name <- current_code_name ;;
      PanicAlertT
        "Action Replay Error: Invalid size (%08x : address = %08x) in Ram Write And Fill (%s)"
        [ArgZ (ARAddr.size addr); ArgZ (ARAddr.gcaddr addr); ArgS code_name] ;;
      ret false
  end.

Definition Subtype_WriteToPointer (addr data : Z) : M bool :=
  let new_addr := ARAddr.GCAddress addr in
  ptr <- HostRead_U32 new_addr ;;
  LogInfo "Hardware Address: %08x" [ArgZ new_addr] ;;
  LogInfo "Size: %08x" [ArgZ (ARAddr.size addr)] ;;
  match ARAddr.size addr with
  | DATATYPE_8BIT =>
      LogInfo "Write 8-bit to pointer" [] ;;
      LogInfo "--------" [] ;;
      let thebyte := u8 (Z.land data 0xFF) in
      let offset := Z.shiftr data 8 in
      LogInfo "Pointer: %08x" [ArgZ ptr] ;;
      LogInfo "Byte: %08x" [ArgZ thebyte] ;;
      LogInfo "Offset: %08x" [ArgZ offset] ;;
      HostWrite_U8 thebyte (u32 (ptr + offset)) ;;
      LogInfo "Wrote %08x to address %08x" [ArgZ thebyte; ArgZ (u32 (ptr + offset))] ;;
      LogInfo "--------" [] ;;
      ret true
  | DATATYPE_16BIT =>
      LogInfo "Write 16-bit to pointer" [] ;;
      LogInfo "--------" [] ;;
      let theshort := u16 (Z.land data 0xFFFF) in
      let offset := u32 (Z.shiftl (Z.shiftr data 16) 1) in
      LogInfo "Pointer: %08x" [ArgZ ptr] ;;
      LogInfo "Byte: %08x" [ArgZ theshort] ;;
      LogInfo "Offset: %08x" [ArgZ offset] ;;
      HostWrite_U16 theshort (u32 (ptr + offset)) ;;
      LogInfo "Wrote %08x to address %08x" [ArgZ theshort; ArgZ (u32 (ptr + offset))] ;;
      LogInfo "--------" [] ;;
      ret true
  | DATATYPE_32BIT_FLOAT
  | DATATYPE_32BIT =>
      LogInfo "Write 32-bit to pointer" [] ;;
      LogInfo "--------" [] ;;
      HostWrite_U32 data ptr ;;
      LogInfo "Wrote %08x to address %08x" [ArgZ data; ArgZ ptr] ;;
      LogInfo "--------" [] ;;
      ret true
  | _ =>
      LogInfo "Bad Size" [] ;;
      code_name <- current_code_name ;;
      PanicAlertT
        "Action Replay Error: Invalid size (%08x : address = %08x) in Write To Pointer (%s)"
        [ArgZ (ARAddr.size addr); ArgZ (ARAddr.gcaddr addr); ArgS code_name] ;;
      ret false
  end.

(** Used to increment/decrement a value in memory. *)
Definition Subtype_AddCode (addr data : Z) : M bool :=
  let new_addr := ARAddr.GCAddress addr in
  LogInfo "Hardware Address: %08x" [ArgZ new_addr] ;;
  LogInfo "Size: %08x" [ArgZ (ARAddr.size addr)] ;;
  match ARAddr.size addr with
  | DATATYPE_8BIT =>
      LogInfo "8-bit Add" [] ;;
      LogInfo "--------" [] ;;
      old <- HostRead_U8 new_addr ;;
      HostWrite_U8 (u32 (old + data)) new_addr ;;
      now <- HostRead_U8 new_addr ;;
      LogInfo "Wrote %02x to address %08x" [ArgZ now; ArgZ new_addr] ;;
      LogInfo "--------" [] ;;
      ret true
  | DATATYPE_16BIT =>
      LogInfo "16-bit Add" [] ;;
      LogInfo "--------" [] ;;
      old <- HostRead_U16 new_addr ;;
      HostWrite_U16 (u32 (old + data)) new_addr ;;
      now <- HostRead_U16 new_addr ;;
      LogInfo "Wrote %04x to address %08x" [ArgZ now; ArgZ new_addr] ;;
      LogInfo "--------" [] ;;
      ret true
  | DATATYPE_32BIT =>
      LogInfo "32-bit Add" [] ;;
      LogInfo "--------" [] ;;
      old <- HostRead_U32 new_addr ;;
      HostWrite_U32 (u32 (old + data)) new_addr ;;
      now <- HostRead_U32 new_addr ;;
      LogInfo "Wrote %08x to address %08x" [ArgZ now; ArgZ new_addr] ;;
      LogInfo "--------" [] ;;
      ret true
  | DATATYPE_32BIT_FLOAT =>
      LogInfo "32-bit floating Add" [] ;;
      LogInfo "--------" [] ;;
      read <- HostRead_U32 new_addr ;;
      let newval := float_add read data in
      HostWrite_U32 newval new_addr ;;
      LogInfo "Old Value %08x" [ArgZ read] ;;
      LogInfo "Increment %08x" [ArgZ data] ;;
      LogInfo "New value %08x" [ArgZ newval] ;;
      LogInfo "--------" [] ;;
      ret true
  | _ =>
      LogInfo "Bad Size" [] ;;
      code_name <- current_code_name ;;
      PanicAlertT
        "Action Replay Error: Invalid size (%08x : address = %08x) in Add Code (%s)"
        [ArgZ (ARAddr.size addr); ArgZ (ARAddr.gcaddr addr); ArgS code_name] ;;
      ret false
  end.

(** Code not yet implemented in the source. *)
Definition Subtype_MasterCodeAndWriteToCCXXXXXX (addr data : Z) : M bool :=
  code_name <- current_code_name ;;
  PanicAlertT
    "Action Replay Error: Master Code and Write To CCXXXXXX not implemented (%s)\nMaster codes are not needed. Do not use master codes."
    [ArgS code_name] ;;
  ret false.

(** The three loops of Fill and Slide; [val] and [curr_addr] are the
    mutable locals of the source. *)
Fixpoint FillAndSlide_loop8 (n : nat) (addr_incr val_incr val curr_addr : Z) : M unit :=
  match n with
  | O => ret tt
  | S n' =>
      HostWrite_U8 (Z.land val 0xFF) curr_addr ;;
      let curr_addr := u32 (curr_addr + addr_incr) in
      let val := u32 (val + val_incr) in
      LogInfo "Write %08x to address %08x" [ArgZ (Z.land val 0xFF); ArgZ curr_addr] ;;
      LogInfo "Value Update: %08x" [ArgZ val] ;;
      LogInfo "Current Hardware Address Update: %08x" [ArgZ curr_addr] ;;
      FillAndSlide_loop8 n' addr_incr val_incr val curr_addr
  end.

Fixpoint FillAndSlide_loop16 (n : nat) (addr_incr val_incr val curr_addr : Z) : M unit :=
  match n with
  | O => ret tt
  | S n' =>
      HostWrite_U16 (Z.land val 0xFFFF) curr_addr ;;
      LogInfo "Write %08x to address %08x" [ArgZ (Z.land val 0xFFFF); ArgZ curr_addr] ;;
      let curr_addr := u32 (curr_addr + addr_incr * 2) in
      let val := u32 (val + val_incr) in
      LogInfo "Value Update: %08x" [ArgZ val] ;;
      LogInfo "Current Hardware Address Update: %08x" [ArgZ curr_addr] ;;
      FillAndSlide_loop16 n' addr_incr val_incr val curr_addr
  end.

Fixpoint FillAndSlide_loop32 (n : nat) (addr_incr val_incr val curr_addr : Z) : M unit :=
  match n with
  | O => ret tt
  | S n' =>
      HostWrite_U32 val curr_addr ;;
      LogInfo "Write %08x to address %08x" [ArgZ val; ArgZ curr_addr] ;;
      let curr_addr := u32 (curr_addr + addr_incr * 4) in
      let val := u32 (val + val_incr) in
      LogInfo "Value Update: %08x" [ArgZ val] ;;
      LogInfo "Current Hardware Address Update: %08x" [ArgZ curr_addr] ;;
      FillAndSlide_loop32 n' addr_incr val_incr val curr_addr
  end.

Definition ZeroCode_FillAndSlide (val_last addr data : Z) : M bool :=
  let new_addr := ARAddr.GCAddress val_last in
  let size := u8 (ARAddr.size val_last) in
  let addr_incr := s16 (Z.land data 0xFFFF) in
  let val_incr := s8 (Z.shiftr data 24) in
  let write_num := u8 (Z.shiftr (Z.land data 0xFF0000) 16) in
  let val := addr in
  let curr_addr := new_addr in
  LogInfo "Current Hardware Address: %08x" [ArgZ new_addr] ;;
  LogInfo "Size: %08x" [ArgZ (ARAddr.size addr)] ;;
  LogInfo "Write Num: %08x" [ArgZ write_num] ;;
  LogInfo "Address Increment: %i" [ArgZ addr_incr] ;;
  LogInfo "Value Increment: %i" [ArgZ val_incr] ;;
  match size with
  | DATATYPE_8BIT =>
      LogInfo "8-bit Write" [] ;;
      LogInfo "--------" [] ;;
      FillAndSlide_loop8 (Z.to_nat write_num) addr_incr val_incr val curr_addr ;;
      LogInfo "--------" [] ;;
      ret true
  | DATATYPE_16BIT =>
      LogInfo "16-bit Write" [] ;;
      LogInfo "--------" [] ;;
      FillAndSlide_loop16 (Z.to_nat write_num) addr_incr val_incr val curr_addr ;;
      LogInfo "--------" [] ;;
      ret true
  | DATATYPE_32BIT =>
      LogInfo "32-bit Write" [] ;;
      LogInfo "--------" [] ;;
      FillAndSlide_loop32 (Z.to_nat write_num) addr_incr val_incr val curr_addr ;;
      LogInfo "--------" [] ;;
      ret true
  | _ =>
      LogInfo "Bad Size" [] ;;
      code_name <- current_code_name ;;
      PanicAlertT
        "Action Replay Error: Invalid size (%08x : address = %08x) in Fill and Slide (%s)"
        [ArgZ size; ArgZ new_addr; ArgS code_name] ;;
      ret false
  end.

(** The byte-by-byte copy loop shared by both branches of Memory Copy:
    [for (int i = 0; i < num_bytes; ++i)]. *)
Definition MemoryCopy_loop (num_bytes src dest : Z) : M unit :=
  for_loop (Z.to_nat num_bytes) 0 (fun i =>
    b <- HostRead_U8 (u32 (src + i)) ;;
    HostWrite_U8 b (u32 (dest + i)) ;;
    b' <- HostRead_U8 (u32 (src + i)) ;;
    LogInfo "Wrote %08x to address %08x" [ArgZ b'; ArgZ (u32 (dest + i))]).

(** kenobi's "memory copy" Z-code. *)
Definition ZeroCode_MemoryCopy (val_last addr data : Z) : M bool :=
  let addr_dest := Z.land val_last (Z.lnot 0x06000000) in
  let addr_src := ARAddr.GCAddress addr in
  let num_bytes := u8 (Z.land data 0x7FFF) in
  LogInfo "Dest Address: %08x" [ArgZ addr_dest] ;;
  LogInfo "Src Address: %08x" [ArgZ addr_src] ;;
  LogInfo "Size: %08x" [ArgZ num_bytes] ;;
  if Z.land data 0xFF0000 =? 0 then
    if negb (Z.shiftr data 24 =? 0x0) then
      LogInfo "Memory Copy With Pointers Support" [] ;;
      LogInfo "--------" [] ;;
      ptr_dest <- HostRead_U32 addr_dest ;;
      LogInfo "Resolved Dest Address to: %08x" [ArgZ ptr_dest] ;;
      ptr_src <- HostRead_U32 addr_src ;;
      LogInfo "Resolved Src Address to: %08x" [ArgZ ptr_src] ;;
      MemoryCopy_loop num_bytes ptr_src ptr_dest ;;
      LogInfo "--------" [] ;;
      ret true
    else
      LogInfo "Memory Copy Without Pointers Support" [] ;;
      LogInfo "--------" [] ;;
      MemoryCopy_loop num_bytes addr_src addr_dest ;;
      LogInfo "--------" [] ;;
      ret true
  else
    LogInfo "Bad Value" [] ;;
    code_name <- current_code_name ;;
    PanicAlertT "Action Replay Error: Invalid value (%08x) in Memory Copy (%s)"
      [ArgZ (Z.land data (Z.lnot 0x7FFF)); ArgS code_name] ;;
    ret false.

(** Each case of the source returns [false] when the subtype's function
    does and [true] otherwise: it returns what that function returns. *)
Definition NormalCode (addr data : Z) : M bool :=
  match ARAddr.subtype addr with
  | SUB_RAM_WRITE =>
      LogInfo "Doing Ram Write And Fill" [] ;;
      Subtype_RamWriteAndFill addr data
  | SUB_WRITE_POINTER =>
      LogInfo "Doing Write To Pointer" [] ;;
      Subtype_WriteToPointer addr data
  | SUB_ADD_CODE =>
      LogInfo "Doing Add Code" [] ;;
      Subtype_AddCode addr data
  | SUB_MASTER_CODE =>
      LogInfo "Doing Master Code And Write to CCXXXXXX (ncode not supported)" [] ;;
      Subtype_MasterCodeAndWriteToCCXXXXXX addr data
  | _ =>
      LogInfo "Bad Subtype" [] ;;
      code_name <- current_code_name ;;
      PanicAlertT "Action Replay: Normal Code 0: Invalid Subtype %08x (%s)"
        [ArgZ (ARAddr.subtype addr); ArgS code_name] ;;
      ret false
  end.

Definition CompareValues (val1 val2 type : Z) : M bool :=
  match type with
  | CONDTIONAL_EQUAL =>
      LogInfo "Type 1: If Equal" [] ;;
      ret (val1 =? val2)
  | CONDTIONAL_NOT_EQUAL =>
      LogInfo "Type 2: If Not Equal" [] ;;
      ret (negb (val1 =? val2))
  | CONDTIONAL_LESS_THAN_SIGNED =>
      LogInfo "Type 3: If Less Than (Signed)" [] ;;
      ret (s32 val1 <? s32 val2)
  | CONDTIONAL_GREATER_THAN_SIGNED =>
      LogInfo "Type 4: If Greater Than (Signed)" [] ;;
      ret (s32 val1 >? s32 val2)
  | CONDTIONAL_LESS_THAN_UNSIGNED =>
      LogInfo "Type 5: If Less Than (Unsigned)" [] ;;
      ret (val1 <? val2)
  | CONDTIONAL_GREATER_THAN_UNSIGNED =>
      LogInfo "Type 6: If Greater Than (Unsigned)" [] ;;
      ret (val1 >? val2)
  | CONDTIONAL_AND =>
      LogInfo "Type 7: If And" [] ;;
      ret (negb (Z.land val1 val2 =? 0))
  | _ =>
      LogInfo "Unknown Compare type" [] ;;
      code_name <- current_code_name ;;
      PanicAlertT "Action Replay: Invalid Normal Code Type %08x (%s)"
        [ArgZ type; ArgS code_name] ;;
      ret false
  end.

(** The first switch of [ConditionalCode]: the comparison of the operand
    read at the width [addr.size] selects with the data masked to that
    width; [None] stands for the [default] label. *)
Definition ConditionalCode_compare (addr data : Z) : option (M bool) :=
  let new_addr := ARAddr.GCAddress addr in
  match ARAddr.size addr with
  | DATATYPE_8BIT =>
      Some (v <- HostRead_U8 new_addr ;;
            CompareValues v (Z.land data 0xFF) (ARAddr.type addr))
  | DATATYPE_16BIT =>
      Some (v <- HostRead_U16 new_addr ;;
            CompareValues v (Z.land data 0xFFFF) (ARAddr.type addr))
  | DATATYPE_32BIT_FLOAT
  | DATATYPE_32BIT =>
      Some (v <- HostRead_U32 new_addr ;;
            CompareValues v data (ARAddr.type addr))
  | _ => None
  end.

(** [ConditionalCode] takes the skip count by pointer; here it takes its
    value and returns, with the success flag, the value it leaves there. *)
Definition ConditionalCode (addr data : Z) (pSkipCount : Z) : M (bool * Z) :=
  let new_addr := ARAddr.GCAddress addr in
  LogInfo "Size: %08x" [ArgZ (ARAddr.size addr)] ;;
  LogInfo "Hardware Address: %08x" [ArgZ new_addr] ;;
  match ConditionalCode_compare addr data with
  | None =>
      LogInfo "Bad Size" [] ;;
      code_name <- current_code_name ;;
      PanicAlertT "Action Replay: Conditional Code: Invalid Size %08x (%s)"
        [ArgZ (ARAddr.size addr); ArgS code_name] ;;
      ret (false, pSkipCount)
  | Some cmp =>
      result <- cmp ;;
      (* if the comparison failed we need to skip some lines *)
      if negb result then
        match ARAddr.subtype addr with
        | CONDTIONAL_ONE_LINE
        | CONDTIONAL_TWO_LINES =>
            (* Skip 1 or 2 lines *)
            ret (true, ARAddr.subtype addr + 1)
        | CONDTIONAL_ALL_LINES
        | CONDTIONAL_ALL_LINES_UNTIL =>
            (* Skip all lines, or skip until a "00000000 40000000" line *)
            ret (true, - ARAddr.subtype addr)
        | _ =>
            LogInfo "Bad Subtype" [] ;;
            code_name <- current_code_name ;;
            PanicAlertT "Action Replay: Normal Code %i: Invalid subtype %08x (%s)"
              [ArgZ 1; ArgZ (ARAddr.subtype addr); ArgS code_name] ;;
            ret (false, pSkipCount)
        end
      else ret (true, pSkipCount)
  end.

(** *** [RunCodeLocked] *)

(** The locals of [RunCodeLocked] that live across loop iterations. *)
Record Locals : Type := mkLocals {
  do_fill_and_slide : bool;
  do_memory_copy : bool;
  (** used for conditional codes *)
  skip_count : Z;
  val_last : Z
}.

Definition with_skip_count (n : Z) (l : Locals) : Locals :=
  mkLocals (do_fill_and_slide l) (do_memory_copy l) n (val_last l).

(** How one iteration of the loop over [arcode.ops] ends: with [continue]
    (or by reaching the end of the body), or with [return]. *)
Inductive Flow : Type :=
| Continue (l : Locals)
| Return (b : bool).

(** The body of the loop [for (const AREntry& entry : arcode.ops)]. *)
Definition RunCodeLocked_entry (l : Locals) (entry : AREntry) : M Flow :=
  let addr := cmd_addr entry in
  let data := value entry in
  (* after a conditional code, skip lines if needed *)
  if negb (skip_count l =? 0) then
    if skip_count l >? 0 then
      (* skip x lines *)
      LogInfo "Line skipped" [] ;;
      ret (Continue (with_skip_count (skip_count l - 1) l))
    else if - CONDTIONAL_ALL_LINES =? skip_count l then
      (* skip all lines *)
      LogInfo "All Lines skipped" [] ;;
      ret (Return true)
    else if - CONDTIONAL_ALL_LINES_UNTIL =? skip_count l then
      (* skip until a "00000000 40000000" line is reached *)
      LogInfo "Line skipped" [] ;;
      if (addr =? 0) && (0x40000000 =? data)
      then ret (Continue (with_skip_count 0 l))
      else ret (Continue l)
    else ret (Continue l)
  else
    LogInfo "--- Running Code: %08x %08x ---" [ArgZ addr; ArgZ data] ;;
    if do_fill_and_slide l then
      (* Do Fill & Slide *)
      let l := mkLocals false (do_memory_copy l) (skip_count l) (val_last l) in
      LogInfo "Doing Fill And Slide" [] ;;
      ok <- ZeroCode_FillAndSlide (val_last l) addr data ;;
      if negb ok then ret (Return false) else ret (Continue l)
    else if do_memory_copy l then
      (* Memory Copy *)
      let l := mkLocals (do_fill_and_slide l) false (skip_count l) (val_last l) in
      LogInfo "Doing Memory Copy" [] ;;
      ok <- ZeroCode_MemoryCopy (val_last l) addr data ;;
      if negb ok then ret (Return false) else ret (Continue l)
    else if (0x00002000 <=? addr) && (addr <? 0x00003000) then
      (* ActionReplay program self modification codes *)
      LogInfo
        "This action replay simulator does not support codes that modify Action Replay itself."
        [] ;;
      PanicAlertT
        "This action replay simulator does not support codes that modify Action Replay itself."
        [] ;;
      ret (Return false)
    else if 0x0 =? addr then
      (* Zero codes *)
      let zcode := u8 (Z.shiftr data 29) in
      LogInfo "Doing Zero Code %08x" [ArgZ zcode] ;;
      match zcode with
      | ZCODE_END =>
          LogInfo "ZCode: End Of Codes" [] ;;
          ret (Return true)
      | ZCODE_NORM =>
          LogInfo
            "ZCode: Normal execution of codes, set register 1BB4 to 0 (zcode not supported)"
            [] ;;
          ret (Continue l)
      | ZCODE_ROW =>
          LogInfo
            "ZCode: Executes all codes in the same row, Set register 1BB4 to 1 (zcode not supported)"
            [] ;;
          PanicAlertT "Zero 3 code not supported" [] ;;
          ret (Return false)
      | ZCODE_04 =>
          (* Fill & Slide or Memory Copy *)
          if 0x3 =? Z.land (Z.shiftr data 25) 0x03 then
            LogInfo "ZCode: Memory Copy" [] ;;
            ret (Continue (mkLocals (do_fill_and_slide l) true (skip_count l) data))
          else
            LogInfo "ZCode: Fill And Slide" [] ;;
            ret (Continue (mkLocals true (do_memory_copy l) (skip_count l) data))
      | _ =>
          LogInfo "ZCode: Unknown" [] ;;
          PanicAlertT "Zero code unknown to Dolphin: %08x" [ArgZ zcode] ;;
          ret (Return false)
      end
    else
      (* Normal codes *)
      LogInfo "Doing Normal Code %08x" [ArgZ (ARAddr.type addr)] ;;
      LogInfo "Subtype: %08x" [ArgZ (ARAddr.subtype addr)] ;;
      match ARAddr.type addr with
      | 0x00 =>
          ok <- NormalCode addr data ;;
          if negb ok then ret (Return false) else ret (Continue l)
      | _ =>
          LogInfo "This Normal Code is a Conditional Code" [] ;;
          r <- ConditionalCode addr data (skip_count l) ;;
          if negb (fst r) then ret (Return false)
          else ret (Continue (with_skip_count (snd r) l))
      end.

(** The loop over [arcode.ops], and the [return true] after it. *)
Fixpoint RunCodeLocked_loop (l : Locals) (entries : list AREntry) : M bool :=
  match entries with
  | [] => ret true
  | entry :: rest =>
      flow <- RunCodeLocked_entry l entry ;;
      match flow with
      | Continue l' => RunCodeLocked_loop l' rest
      | Return b => ret b
      end
  end.

Definition RunCodeLocked (arcode : ARCode) : M bool :=
  let l := mkLocals false false 0 0 in
  (fun w => (tt, with_current_code (Some arcode) w)) ;;
  LogInfo "Code Name: %s" [ArgS (name arcode)] ;;
  LogInfo "Number of codes: %zu" [ArgZ (Z.of_nat (length (ops arcode)))] ;;
  RunCodeLocked_loop l (ops arcode).

(** The world in which the loop of [RunCodeLocked] starts. *)
Definition loop_start (arcode : ARCode) (w : World) : World :=
  snd (LogInfo "Number of codes: %zu" [ArgZ (Z.of_nat (length (ops arcode)))]
         (snd (LogInfo "Code Name: %s" [ArgS (name arcode)]
                 (with_current_code (Some arcode) w)))).

(** *** The code store *)

Definition ApplyCodes (codes : list ARCode) : M unit :=
  fun w =>
    if negb (bEnableCheats w) then (tt, w)
    else
      let w := with_disable_logging false w in
      let w := with_active_codes [] w in
      (tt, with_active_codes (s_active_codes w ++ filter (fun code => active code = true) codes) w).

Definition AddCode (code : ARCode) : M unit :=
  fun w =>
    if negb (bEnableCheats w) then (tt, w)
    else if active code then
      let w := with_disable_logging false w in
      (tt, with_active_codes (s_active_codes w ++ [code]) w)
    else (tt, w).

(** [std::remove_if] over the active codes with the lambda of
    [RunAllActive]: every code is run once, in order, and is dropped when
    its run fails. *)
Fixpoint RunAllActive_remove_if (codes : list ARCode) : M (list ARCode) :=
  match codes with
  | [] => ret []
  | code :: rest =>
      success <- RunCodeLocked code ;;
      LogInfo "\n" [] ;;
      kept <- RunAllActive_remove_if rest ;;
      ret (if negb success then kept else code :: kept)
  end.

(** [RunAllActive]: the cheat gate and the locked pass over the active
    codes.  The title-specific part between the two (signature detection
    and the camera and cursor patches driven by the mouse) is outside the
    core the specification covers and is not embedded; on a change of
    title that part calls [ActivateARCodesFor], which replaces the store
    and re-arms logging before the pass. *)
Definition RunAllActive : M unit :=
  fun w =>
    if negb (bEnableCheats w) then (tt, w)
    else
      let r := RunAllActive_remove_if (s_active_codes w) w in
      let w := with_active_codes (fst r) (snd r) in
      (tt, with_disable_logging true w).

End Interpreter.

(** *** Codes built into the program *)

Definition beamChangeCode_mp1 (code_vec : list ARCode) (base_offset : Z) : list ARCode :=
  code_vec ++
  [mkARCode EmptyString
     [mkAREntry (u32 (base_offset + 0x00)) 0x3c80804a;
      mkAREntry (u32 (base_offset + 0x04)) 0x388479f0;
      mkAREntry (u32 (base_offset + 0x08)) 0x80640000;
      mkAREntry (u32 (base_offset + 0x0c)) 0x2c030000;
      mkAREntry (u32 (base_offset + 0x10)) 0x41820058;
      mkAREntry (u32 (base_offset + 0x14)) 0x83440004;
      mkAREntry (u32 (base_offset + 0x18)) 0x7f59d378;
      mkAREntry (u32 (base_offset + 0x1c)) 0x38600000;
      mkAREntry (u32 (base_offset + 0x20)) 0x90640000;
      mkAREntry (u32 (base_offset + 0x24)) 0x48000044]
     true true].

Definition beamChangeCode_mp2 (code_vec : list ARCode) (base_offset : Z) : list ARCode :=
  code_vec ++
  [mkARCode EmptyString
     [mkAREntry (u32 (base_offset + 0x00)) 0x3c80804d;
      mkAREntry (u32 (base_offset + 0x04)) 0x3884d250;
      mkAREntry (u32 (base_offset + 0x08)) 0x80640000;
      mkAREntry (u32 (base_offset + 0x0c)) 0x2c030000;
      mkAREntry (u32 (base_offset + 0x10)) 0x4182005c;
      mkAREntry (u32 (base_offset + 0x14)) 0x83e40004;
      mkAREntry (u32 (base_offset + 0x18)) 0x7ffefb78;
      mkAREntry (u32 (base_offset + 0x1c)) 0x38600000;
      mkAREntry (u32 (base_offset + 0x20)) 0x90640000;
      mkAREntry (u32 (base_offset + 0x24)) 0x48000048]
     true true].

Definition controlStateHook_mp3 (code_vec : list ARCode) (base_offset : Z) (ntsc : bool) : list ARCode :=
  code_vec ++
  [mkARCode EmptyString
     ((if ntsc then
         [mkAREntry (u32 (base_offset + 0x00)) 0x3C60805C;
          mkAREntry (u32 (base_offset + 0x04)) 0x38636C40]
       else
         [mkAREntry (u32 (base_offset + 0x00)) 0x3C60805D;
          mkAREntry (u32 (base_offset + 0x04)) 0x3863A0C0]) ++
      [mkAREntry (u32 (base_offset + 0x08)) 0x8063002C;
       mkAREntry (u32 (base_offset + 0x0c)) 0x80630004;
       mkAREntry (u32 (base_offset + 0x10)) 0x80632184;
       mkAREntry (u32 (base_offset + 0x14)) 0x7C03F800;
       mkAREntry (u32 (base_offset + 0x18)) 0x4D820020;
       mkAREntry (u32 (base_offset + 0x1c)) 0x7FE3FB78;
       mkAREntry (u32 (base_offset + 0x20)) 0x90C30078;
       mkAREntry (u32 (base_offset + 0x24)) 0x4E800020])
     true true].

(** The codes [ActivateARCodesFor] collects for a title and a region
    (region 0: NTSC, region 1: PAL) before it applies them. *)
Definition ActivateARCodesFor_codes (game region : Z) : list ARCode :=
  if region =? 0 then
    if game =? 1 then
      beamChangeCode_mp1 ([mkARCode EmptyString
           [mkAREntry 0x04098ee4 0xec010072;
            mkAREntry 0x04099138 0x60000000;
            mkAREntry 0x04183a8c 0x60000000;
            mkAREntry 0x04183a64 0x60000000;
            mkAREntry 0x0417661c 0x60000000;
            mkAREntry 0x042fb5b4 0xd23f009c]
           true true])
        0x0418e544
    else if game =? 2 then
      beamChangeCode_mp2 ([mkARCode EmptyString
           [mkAREntry 0x0408ccc8 0xc0430184;
            mkAREntry 0x0408cd1c 0x60000000;
            mkAREntry 0x04147f70 0x60000000;
            mkAREntry 0x04147f98 0x60000000;
            mkAREntry 0x04135b20 0x60000000;
            mkAREntry 0x0408bb48 0x60000000;
            mkAREntry 0x0408bb18 0x60000000;
            mkAREntry 0x043054a0 0xd23f009c]
           true true])
        0x0418cc88
    else if game =? 3 then
      controlStateHook_mp3 ([mkARCode EmptyString
           [mkAREntry 0x04080ac0 0xec010072;
            mkAREntry 0x0414e094 0x60000000;
            mkAREntry 0x0414e06c 0x60000000;
            mkAREntry 0x04134328 0x60000000;
            mkAREntry 0x04133970 0x60000000;
            mkAREntry 0x0400ab58 0x4bffad29;
            mkAREntry 0x04080D44 0x60000000]
           true true])
        0x04005880 true
    else []
  else if region =? 1 then
    let codes := [] in
    let codes :=
      if game =? 1 then
        codes ++
        beamChangeCode_mp1 ([mkARCode EmptyString
             [mkAREntry 0x04099068 0xec010072;
              mkAREntry 0x040992C4 0x60000000;
              mkAREntry 0x04183CFC 0x60000000;
              mkAREntry 0x04183D24 0x60000000;
              mkAREntry 0x041768B4 0x60000000;
              mkAREntry 0x042FB84C 0xd23f009c]
             true true])
          0x0418e7dc
      else codes in
    let codes :=
      if game =? 2 then
        codes ++
        beamChangeCode_mp2 ([mkARCode EmptyString
             [mkAREntry 0x0408e30C 0xc0430184;
              mkAREntry 0x0408E360 0x60000000;
              mkAREntry 0x041496E4 0x60000000;
              mkAREntry 0x0414970C 0x60000000;
              mkAREntry 0x04137240 0x60000000;
              mkAREntry 0x0408D18C 0x60000000;
              mkAREntry 0x0408D15C 0x60000000;
              mkAREntry 0x04307d2c 0xd23f009c]
             true true])
          0x0418e41c
      else codes in
    let codes :=
      if game =? 3 then
        codes ++
        controlStateHook_mp3 ([mkARCode EmptyString
             [mkAREntry 0x04080AB8 0xec010072;
              mkAREntry 0x0414D9E0 0x60000000;
              mkAREntry 0x0414D9B8 0x60000000;
              mkAREntry 0x04133C74 0x60000000;
              mkAREntry 0x041332BC 0x60000000;
              mkAREntry 0x0400ab58 0x4bffad29;
              mkAREntry 0x04080D44 0x60000000]
             true true])
          0x04005880 false
      else codes in
    codes
  else [].

Definition ActivateARCodesFor (game region : Z) : M unit :=
  ApplyCodes (ActivateARCodesFor_codes game region).

(** ** A concrete platform

    IEEE-754 single precision from the kernel's specification of binary
    floating point ([SpecFloat]), for running the interpreter on concrete
    inputs.  The payload of a NaN is not tracked: every NaN is the quiet NaN
    [0x7FC00000]. *)
Module Binary32.
Import Stdlib.Floats.SpecFloat.

Definition prec : Z := 24.
Definition emax : Z := 128.

Definition of_bits (b : Z) : spec_float :=
  let b := u32 b in
  let s := Z.testbit b 31 in
  let e := Z.land (Z.shiftr b 23) 0xFF in
  let m := Z.land b 0x7FFFFF in
  if e =? 0 then
    match m with
    | Zpos p => S754_finite s p (-149)
    | _ => S754_zero s
    end
  else if e =? 0xFF then
    if m =? 0 then S754_infinity s else S754_nan
  else
    match Z.lor m 0x800000 with
    | Zpos p => S754_finite s p (e - 150)
    | _ => S754_nan
    end.

Definition to_bits (f : spec_float) : Z :=
  let sign (s : bool) : Z := if s then 0x80000000 else 0 in
  match f with
  | S754_zero s => sign s
  | S754_infinity s => sign s + 0x7F800000
  | S754_nan => 0x7FC00000
  | S754_finite s m e =>
      if Zpos m <? 0x800000 then sign s + Zpos m
      else sign s + Z.shiftl (e + 150) 23 + (Zpos m - 0x800000)
  end.

(** [reinterpret_cast<float>(read) + static_cast<float>(data)], as bits. *)
Definition float_add (read data : Z) : Z :=
  to_bits (SFadd prec emax (of_bits read)
             (binary_normalize prec emax (u32 data) 0 false)).
End Binary32.

(** The interpreter at a release build's log level ([MAX_LOGLEVEL] below
    [LINFO]) with single-precision addition. *)
Definition run_code : ARCode -> M bool := RunCodeLocked 3 4 Binary32.float_add.
Definition run_all_active : M unit := RunAllActive 3 4 Binary32.float_add.

(** A world with the given memory and active codes, cheats enabled, nothing
    logged yet. *)
Definition initial_world (m : Memory) (codes : list ARCode) : World :=
  mkWorld m true codes [] false None false [] [].

Definition zero_memory : Memory := fun _ => 0.

(** ** Ini files and string utilities *)

(** Modelled from the spec: [IniFile] is declared outside the sources.  It
    is text addressable by section name; [GetLines] gives the lines of a
    section (none for a section that is absent), each without its leading
    and trailing whitespace, and [SetLines] replaces the lines of a
    section. *)
Abbreviation IniFile := (gmap string (list string)).

(** Modelled from the spec: the whitespace a line is stripped of, taken as
    space, tab, line feed and carriage return. *)
Definition is_space (c : ascii) : bool :=
  Ascii.eqb c " " || Ascii.eqb c "009" || Ascii.eqb c "010" || Ascii.eqb c "013".

Fixpoint strip_leading (s : string) : string :=
  match s with
  | EmptyString => EmptyString
  | String c rest => if is_space c then strip_leading rest else s
  end.

Fixpoint strip_trailing (s : string) : string :=
  match s with
  | EmptyString => EmptyString
  | String c rest =>
      match strip_trailing rest with
      | EmptyString => if is_space c then EmptyString else String c EmptyString
      | String _ _ as kept => String c kept
      end
  end.

(** Modelled from the spec: a line without its leading and trailing
    whitespace; a line of whitespace only becomes the empty line. *)
Definition StripSpaces (str : string) : string :=
  strip_trailing (strip_leading str).

Definition GetLines (ini : IniFile) (section : string) : list string :=
  map StripSpaces (default [] (ini !! section)).

Definition SetLines (section : string) (lines : list string) (ini : IniFile) : IniFile :=
  <[section := lines]> ini.

(** Modelled from the spec: [SplitString] ([Common/StringUtil]) is outside
    the sources.  It cuts the string at every delimiter; a last piece that
    is empty (the string is empty or ends with the delimiter) is not
    returned. *)
Fixpoint SplitString (str : string) (delim : ascii) : list string :=
  match str with
  | EmptyString => []
  | String c rest =>
      if Ascii.eqb c delim then EmptyString :: SplitString rest delim
      else
        match SplitString rest delim with
        | [] => [String c EmptyString]
        | piece :: pieces => String c piece :: pieces
        end
  end.

Definition hex_digit_value (c : ascii) : option Z :=
  let n := Z.of_N (N_of_ascii c) in
  if (48 <=? n) && (n <=? 57) then Some (n - 48)
  else if (65 <=? n) && (n <=? 70) then Some (n - 55)
  else if (97 <=? n) && (n <=? 102) then Some (n - 87)
  else None.

Fixpoint parse_hex_digits (digits : string) (acc : Z) : option Z :=
  match digits with
  | EmptyString => Some acc
  | String c rest =>
      match hex_digit_value c with
      | Some d => parse_hex_digits rest (acc * 16 + d)
      | None => None
      end
  end.

(** Modelled from the spec: [TryParse] for [u32] ([Common/StringUtil]) is
    outside the sources.  The parser only hands it ["0x"] followed by a
    token, which it reads as a hexadecimal number: it succeeds when the
    token is made of hexadecimal digits, at least one, and the number fits
    32 bits.  Other forms of numbers are not modelled. *)
Definition TryParse (str : string) : option Z :=
  match str with
  | String c0 (String c1 (String c digits)) =>
      if Ascii.eqb c0 "0" && Ascii.eqb c1 "x" then
        match parse_hex_digits (String c digits) 0 with
        | Some v => if v <? 2 ^ 32 then Some v else None
        | None => None
        end
      else None
  | _ => None
  end.

Definition hex_digit (d : Z) : ascii :=
  ascii_of_N (Z.to_N (if d <? 10 then 48 + d else 55 + d)).

(** The [n] lowest hexadecimal digits of [v], upper case, in front of [acc]. *)
Fixpoint hex_digits (n : nat) (v : Z) (acc : string) : string :=
  match n with
  | O => acc
  | S n' => hex_digits n' (v / 16) (String (hex_digit (v mod 16)) acc)
  end.

(** [StringFromFormat("%08X %08X", op.cmd_addr, op.value)] for two unsigned
    32-bit words. *)
Definition format_08X_08X (a v : Z) : string :=
  hex_digits 8 a (String " " (hex_digits 8 v EmptyString)).

(** ** The code parser *)

(** The name a line of the form [$name] carries. *)
Definition name_of_line (line : string) : option string :=
  match line with
  | String c rest => if Ascii.eqb c "$" then Some rest else None
  | EmptyString => None
  end.

(** The two tokens of a line of the shape of a decrypted code:
    [pieces.size() == 2 && pieces[0].size() == 8 && pieces[1].size() == 8]. *)
Definition plain_pieces (line : string) : option (string * string) :=
  match SplitString line " " with
  | [p0; p1] =>
      if (String.length p0 =? 8)%nat && (String.length p1 =? 8)%nat
      then Some (p0, p1) else None
  | _ => None
  end.

(** The three groups of a line of the shape of an encrypted code. *)
Definition encrypted_pieces (line : string) : option (string * string * string) :=
  match SplitString line "-" with
  | [p0; p1; p2] =>
      if (String.length p0 =? 4)%nat && (String.length p1 =? 4)%nat
         && (String.length p2 =? 5)%nat
      then Some (p0, p1, p2) else None
  | _ => None
  end.

(** The locals of [LoadCodes] inside the loop over one ini file, with the
    alerts raised so far. *)
Record LoadState : Type := mkLoadState {
  codes : list ARCode;
  encrypted_lines : list string;
  current_code : ARCode;
  alerts : list Text
}.

Definition with_ops (l : list AREntry) (c : ARCode) : ARCode :=
  mkARCode (name c) l (active c) (user_defined c).

Section Parser.

(** [DecryptARCode] ([Core/ARDecrypt]) is outside the sources: given the
    buffered encrypted lines and the ops of the current code it gives the
    ops with the decrypted entries appended. *)
Variable DecryptARCode : list string -> list AREntry -> list AREntry.

(** The flags of a default-constructed [ARCode]; the struct is declared
    in a header outside the sources. *)
Variables default_active default_user_defined : bool.

(** The set of names enabled by the lines of [ActionReplay_Enabled]. *)
Definition enabled_names_of (enabled_lines : list string) : gset string :=
  list_to_set (omap name_of_line enabled_lines).

(** What the parser does when it meets a name line, before it sets the
    name: it commits the code in progress. *)
Definition commit_in_loop (st : LoadState) : LoadState :=
  let st :=
    if negb (length (ops (current_code st)) =? 0)%nat then
      mkLoadState (codes st ++ [current_code st]) (encrypted_lines st)
        (with_ops [] (current_code st)) (alerts st)
    else st in
  if negb (length (encrypted_lines st) =? 0)%nat then
    let decrypted :=
      with_ops (DecryptARCode (encrypted_lines st) (ops (current_code st)))
        (current_code st) in
    mkLoadState (codes st ++ [decrypted]) [] (with_ops [] decrypted) (alerts st)
  else st.

(** The body of the loop over the lines of one ini file; [is_local] is
    [ini == &local_ini]. *)
Definition LoadCodes_line (is_local : bool) (enabled_names : gset string)
    (st : LoadState) (line : string) : LoadState :=
  match line with
  | EmptyString => st
  | String c rest =>
      (* Check if the line is a name of the code *)
      if Ascii.eqb c "$" then
        let st := commit_in_loop st in
        mkLoadState (codes st) (encrypted_lines st)
          (mkARCode rest (ops (current_code st))
             (bool_decide (rest ∈ enabled_names)) is_local)
          (alerts st)
      else
        match plain_pieces line with
        | Some (p0, p1) =>
            (* the AR code is decrypted *)
            let success_addr := TryParse ("0x" ++ p0)%string in
            let success_val := TryParse ("0x" ++ p1)%string in
            match success_addr, success_val with
            | Some a, Some v =>
                mkLoadState (codes st) (encrypted_lines st)
                  (with_ops (ops (current_code st) ++ [mkAREntry a v]) (current_code st))
                  (alerts st)
            | _, _ =>
                mkLoadState (codes st) (encrypted_lines st) (current_code st)
                  (alerts st
                   ++ [mkText "Action Replay Error: invalid AR code line: %s" [ArgS line]]
                   ++ match success_addr with
                      | Some _ => []
                      | None => [mkText "The address is invalid" []]
                      end
                   ++ match success_val with
                      | Some _ => []
                      | None => [mkText "The value is invalid" []]
                      end)
            end
        | None =>
            match encrypted_pieces line with
            | Some (p0, p1, p2) =>
                (* Encrypted AR code: pushed as a block, decrypted later *)
                mkLoadState (codes st) (encrypted_lines st ++ [(p0 ++ p1 ++ p2)%string])
                  (current_code st) (alerts st)
            | None => st
            end
        end
  end.

(** "Handle the last code correctly": the commits after the loop. *)
Definition commit_last (st : LoadState) : LoadState :=
  let st :=
    if negb (length (ops (current_code st)) =? 0)%nat then
      mkLoadState (codes st ++ [current_code st]) (encrypted_lines st)
        (current_code st) (alerts st)
    else st in
  if negb (length (encrypted_lines st) =? 0)%nat then
    let decrypted :=
      with_ops (DecryptARCode (encrypted_lines st) (ops (current_code st)))
        (current_code st) in
    mkLoadState (codes st ++ [decrypted]) (encrypted_lines st) decrypted (alerts st)
  else st.

(** One round of the loop [for (const IniFile* ini : inis)], on the lines
    of the section [ActionReplay] of that file: the codes and the alerts
    so far go in, and come out extended. *)
Definition LoadCodes_ini (is_local : bool) (enabled_names : gset string)
    (lines : list string) (sofar : list ARCode * list Text) : list ARCode * list Text :=
  let st0 :=
    mkLoadState (fst sofar) []
      (mkARCode EmptyString [] default_active default_user_defined) (snd sofar) in
  let st := commit_last (foldl (LoadCodes_line is_local enabled_names) st0 lines) in
  (codes st, alerts st).

(** Parses the Action Replay section of a game ini file.  The result is
    the vector of codes, with the alerts raised on the way, in order. *)
Definition LoadCodes (global_ini local_ini : IniFile) : list ARCode * list Text :=
  let enabled_names := enabled_names_of (GetLines local_ini "ActionReplay_Enabled") in
  LoadCodes_ini true enabled_names (GetLines local_ini "ActionReplay")
    (LoadCodes_ini false enabled_names (GetLines global_ini "ActionReplay") ([], [])).

End Parser.

Definition SaveCodes (local_ini : IniFile) (codes : list ARCode) : IniFile :=
  let lines :=
    concat (map (fun code =>
      if user_defined code then
        ("$" ++ name code)%string
          :: map (fun op => format_08X_08X (cmd_addr op) (value op)) (ops code)
      else []) codes) in
  let enabled_lines :=
    concat (map (fun code => if active code then [("$" ++ name code)%string] else []) codes) in
  SetLines "ActionReplay" lines (SetLines "ActionReplay_Enabled" enabled_lines local_ini).

(** The parser for listings, with a decryptor that yields nothing (it is
    not consulted on a listing without encrypted lines) and a default code
    whose flags are clear. *)
Definition load_codes : IniFile -> IniFile -> list ARCode * list Text :=
  LoadCodes (fun _ ops => ops) false false.

(** ** Notions used to state the properties *)

(** [only_logged w w']: between [w] and [w'] nothing happened but logging:
    guest memory, the code store, the flags and the alerts are as they
    were. *)
Definition only_logged (w w' : World) : Prop :=
  memory w' = memory w /\
  bEnableCheats w' = bEnableCheats w /\
  s_active_codes w' = s_active_codes w /\
  s_use_internal_log w' = s_use_internal_log w /\
  s_current_code w' = s_current_code w /\
  s_disable_logging w' = s_disable_logging w /\
  panic_alerts w' = panic_alerts w.

(** Two computations agree on worlds that agree on guest memory: they
    return the same value and leave the same guest memory, whatever the
    rest of the world is. *)
Definition memory_determined {A : Type} (c1 c2 : M A) : Prop :=
  forall w1 w2 : World,
    memory w1 = memory w2 ->
    fst (c1 w1) = fst (c2 w2) /\ memory (snd (c1 w1)) = memory (snd (c2 w2)).

(** A computation that leaves guest memory as it is. *)
Definition memory_silent {A : Type} (c : M A) : Prop :=
  forall w : World, memory (snd (c w)) = memory w.

(** S1 of the specification: one code with the single op
    [(0x00100003, 0x000A00FF)]. *)
Definition S1_code : ARCode :=
  mkARCode "S1" [mkAREntry 0x00100003 0x000A00FF] true true.

(** What the specification says of S1: after one run the bytes at
    0x80100000 through 0x8010000A are 0xFF and the byte at 0x8010000B is
    unchanged. *)
Definition S1_claim (w : World) : Prop :=
  let r := run_code S1_code w in
  (forall a : Z, 0x80100000 <= a <= 0x8010000A -> mem_read_u8 (memory (snd r)) a = 0xFF) /\
  mem_read_u8 (memory (snd r)) 0x8010000B = mem_read_u8 (memory w) 0x8010000B.

(** Every code of the list has its [active] flag set. *)
Definition all_active (codes : list ARCode) : Prop :=
  Forall (fun code => active code = true) codes.

(** The operations that change the code store. *)
Inductive StoreOp : Type :=
| Op_ApplyCodes (codes : list ARCode)
| Op_AddCode (code : ARCode)
| Op_ActivateARCodesFor (game region : Z)
| Op_RunAllActive.

Definition do_store_op (MAX_LOGLEVEL LINFO : Z) (float_add : Z -> Z -> Z)
    (op : StoreOp) : M unit :=
  match op with
  | Op_ApplyCodes codes => ApplyCodes codes
  | Op_AddCode code => AddCode code
  | Op_ActivateARCodesFor game region => ActivateARCodesFor game region
  | Op_RunAllActive => RunAllActive MAX_LOGLEVEL LINFO float_add
  end.

(** The world after a sequence of store operations. *)
Definition do_store_ops (MAX_LOGLEVEL LINFO : Z) (float_add : Z -> Z -> Z)
    (ops : list StoreOp) (w : World) : World :=
  foldl (fun w op => snd (do_store_op MAX_LOGLEVEL LINFO float_add op w)) w ops.

(** The lines [SaveCodes] writes for one code: its name line and one line
    for each op. *)
Definition lines_of_code (code : ARCode) : list string :=
  ("$" ++ name code)%string
    :: map (fun op => format_08X_08X (cmd_addr op) (value op)) (ops code).

(** The kinds of lines of an [ActionReplay] section. *)
Definition is_name_line (line : string) : bool :=
  match name_of_line line with Some _ => true | None => false end.

(** A well-formed plain instruction line: two tokens of eight characters
    that both parse as hexadecimal words. *)
Definition is_plain_instruction_line (line : string) : bool :=
  match plain_pieces line with
  | Some (p0, p1) =>
      match TryParse ("0x" ++ p0)%string, TryParse ("0x" ++ p1)%string with
      | Some _, Some _ => true
      | _, _ => false
      end
  | None => false
  end.

(** A well-formed encrypted line: three groups of sizes 4-4-5. *)
Definition is_encrypted_line (line : string) : bool :=
  match plain_pieces line, encrypted_pieces line with
  | None, Some _ => true
  | _, _ => false
  end.

(** A listing of plain codes with no malformed lines, as the grammar of the
    section has it: blank lines apart, a sequence of entries, each a name
    line followed by well-formed plain instruction lines.  [named] tells
    whether a name line came before. *)
Fixpoint plain_listing_from (named : bool) (lines : list string) : bool :=
  match lines with
  | [] => true
  | line :: rest =>
      match line with
      | EmptyString => plain_listing_from named rest
      | String _ _ =>
          if is_name_line line then plain_listing_from true rest
          else named && is_plain_instruction_line line && plain_listing_from named rest
      end
  end.

Definition plain_listing (lines : list string) : bool :=
  plain_listing_from false lines.

(** A line that is neither blank, nor a name line, nor a well-formed plain
    instruction line, nor a well-formed encrypted line. *)
Definition is_malformed_line (line : string) : bool :=
  match line with
  | EmptyString => false
  | String _ _ =>
      negb (is_name_line line) && negb (is_plain_instruction_line line)
      && negb (is_encrypted_line line)
  end.

(** The code the parser commits, if any: a code in progress is committed
    when it has ops. *)
Definition flush (code : ARCode) : list ARCode :=
  match ops code with [] => [] | _ :: _ => [code] end.

(** A code as the parser makes it from a plain entry of the local listing
    under the enabled names [E]. *)
Definition parsed_code (E : gset string) (code : ARCode) : Prop :=
  user_defined code = true /\
  active code = bool_decide (name code ∈ E) /\
  ops code <> [] /\
  Forall entry_in_range (ops code).

(** Every character of the string satisfies [P]. *)
Fixpoint all_chars (P : ascii -> Prop) (s : string) : Prop :=
  match s with
  | EmptyString => True
  | String c rest => P c /\ all_chars P rest
  end.

(** What holds of the parser state along a listing of plain codes of the
    local ini file; [named] tells whether a name line came before. *)
Definition parse_inv (E : gset string) (named : bool) (st : LoadState) : Prop :=
  encrypted_lines st = [] /\
  Forall (parsed_code E) (codes st) /\
  Forall entry_in_range (ops (current_code st)) /\
  (named = true ->
   user_defined (current_code st) = true /\
   active (current_code st) = bool_decide (name (current_code st) ∈ E)) /\
  (named = false -> ops (current_code st) = []).

(** The parser state without its alerts. *)
Definition without_alerts (st : LoadState) : LoadState :=
  mkLoadState (codes st) (encrypted_lines st) (current_code st) [].

(** S5 of the specification: two plain codes in the local ini file, the
    second one enabled. *)
Definition S5_local_ini : IniFile :=
  SetLines "ActionReplay"
    ["$A"; "00100000 00000001"; "$B"; "00100004 00000002"]%string
    (SetLines "ActionReplay_Enabled" ["$B"%string] ∅).

(** What the specification says of a malformed line, at one line and one
    parser state: an error is reported, and the line is skipped. *)
Definition malformed_line_claim (line : string) (st : LoadState) : Prop :=
  is_malformed_line line = true ->
  let st' := LoadCodes_line (fun _ ops => ops) true ∅ st line in
  alerts st' <> alerts st /\
  codes st' = codes st /\ encrypted_lines st' = encrypted_lines st /\
  current_code st' = current_code st.

(** [wp c Q w]: run from [w], the computation [c] returns a value and
    leaves a world that satisfy [Q]. *)
Definition wp {A : Type} (c : M A) (Q : A -> World -> Prop) (w : World) : Prop :=
  Q (fst (c w)) (snd (c w)).

(** ** The rest of the interface *)

(** The controls of the self log. *)
Definition EnableSelfLogging (enable : bool) : M unit :=
  fun w => (tt, with_use_internal_log enable w).

Definition GetSelfLog : M (list Text) :=
  fun w => (s_internal_log w, w).

Definition ClearSelfLog : M unit :=
  fun w => (tt, with_internal_log [] w).

Definition IsSelfLogging : M bool :=
  fun w => (s_use_internal_log w, w).

(** [LoadAndApplyCodes]: the codes are parsed, which raises the alerts of
    the parser, and what was parsed is applied. *)
Definition LoadAndApplyCodes (DecryptARCode : list string -> list AREntry -> list AREntry)
    (default_active default_user_defined : bool)
    (global_ini local_ini : IniFile) : M unit :=
  fun w =>
    let r := LoadCodes DecryptARCode default_active default_user_defined global_ini local_ini in
    ApplyCodes (fst r) (with_panic_alerts (panic_alerts w ++ snd r) w).

Definition mem_check (address : Z) : bool :=
  (0x80000000 <=? address) && (address <? 0x81800000).

(** ** Notions used to state further properties *)

(** [run_frame w w']: what running codes leaves of the world [w] in [w'].
    The cheats flag, the store and the two logging flags are as they were;
    alerts are only appended; so are the lines sent to [INFO_LOG], and the
    self log receives the same lines when self logging is on and nothing
    otherwise; no line is logged when logging is latched off, nor in a
    build whose log level is below [LINFO] unless self logging is on. *)
Definition run_frame (MAX_LOGLEVEL LINFO : Z) (w w' : World) : Prop :=
  bEnableCheats w' = bEnableCheats w /\
  s_active_codes w' = s_active_codes w /\
  s_use_internal_log w' = s_use_internal_log w /\
  s_disable_logging w' = s_disable_logging w /\
  (exists raised, panic_alerts w' = panic_alerts w ++ raised) /\
  (exists lines,
     info_log w' = info_log w ++ lines /\
     s_internal_log w' = s_internal_log w ++ (if s_use_internal_log w then lines else []) /\
     (s_disable_logging w = true -> lines = []) /\
     (MAX_LOGLEVEL < LINFO -> s_use_internal_log w = false -> lines = [])).

(** A computation that keeps [run_frame] from every world. *)
Definition frames (MAX_LOGLEVEL LINFO : Z) {A : Type} (c : M A) : Prop :=
  forall w : World, run_frame MAX_LOGLEVEL LINFO w (snd (c w)).

(** The locals [RunCodeLocked] can have at the head of its loop: those it
    starts with, and those an iteration that ends with [continue] leaves,
    whatever the entry and the world. *)
Inductive reachable (MAX_LOGLEVEL LINFO : Z) (float_add : Z -> Z -> Z) : Locals -> Prop :=
| reachable_start : reachable MAX_LOGLEVEL LINFO float_add (mkLocals false false 0 0)
| reachable_step (l l' : Locals) (entry : AREntry) (w : World) :
    reachable MAX_LOGLEVEL LINFO float_add l ->
    fst (RunCodeLocked_entry MAX_LOGLEVEL LINFO float_add l entry w) = Continue l' ->
    reachable MAX_LOGLEVEL LINFO float_add l'.

(** What holds of the locals at the head of the loop: the two composite
    flags are never both set; while one is set the skip count is 0; the
    skip count is 0, 1, 2 or one of the sentinels -2 and -3; the word kept
    for Fill and Slide has a size field other than 3, the word kept for
    Memory Copy has size field 3. *)
Definition locals_inv (l : Locals) : Prop :=
  (do_fill_and_slide l = true -> do_memory_copy l = false) /\
  (do_fill_and_slide l = true \/ do_memory_copy l = true -> skip_count l = 0) /\
  (skip_count l = 0 \/ skip_count l = 1 \/ skip_count l = 2 \/
   skip_count l = -2 \/ skip_count l = -3) /\
  (do_fill_and_slide l = true -> ARAddr.size (val_last l) <> 3) /\
  (do_memory_copy l = true -> ARAddr.size (val_last l) = 3).

(** An instruction the interpreter has no support for: a word in the range
    the self-modification check tests, a zero code other than End, Normal
    and Fill-and-Slide/Memory-Copy, or a master code. *)
Definition unsupported (entry : AREntry) : bool :=
  let addr := cmd_addr entry in
  (0x00002000 <=? addr) && (addr <? 0x00003000)
  || (addr =? 0)
     && negb ((u8 (Z.shiftr (value entry) 29) =? ZCODE_END)
              || (u8 (Z.shiftr (value entry) 29) =? ZCODE_NORM)
              || (u8 (Z.shiftr (value entry) 29) =? ZCODE_04))
  || negb (addr =? 0) && (ARAddr.type addr =? 0) && (ARAddr.subtype addr =? SUB_MASTER_CODE).

(** An instruction that is a write, an add or a conditional: its word is
    not 0 (a zero code), not in the range the self-modification check
    tests, and not a master code. *)
Definition plain_entry (entry : AREntry) : bool :=
  let addr := cmd_addr entry in
  negb (addr =? 0)
  && negb ((0x00002000 <=? addr) && (addr <? 0x00003000))
  && negb ((ARAddr.type addr =? 0) && (ARAddr.subtype addr =? SUB_MASTER_CODE)).

Definition plain_code (code : ARCode) : bool := forallb plain_entry (ops code).

(** The flags the parser gives a code: those of the name line that began
    it, or, for instructions met before any name line, those of a
    default-constructed code, which has no name. *)
Definition parsed_flags (default_active default_user_defined : bool)
    (E : gset string) (is_local : bool) (code : ARCode) : Prop :=
  (active code = bool_decide (name code ∈ E) /\ user_defined code = is_local) \/
  (name code = EmptyString /\ active code = default_active /\
   user_defined code = default_user_defined).

(** The parser state with codes and alerts in front of its own. *)
Definition prepend (cs : list ARCode) (al : list Text) (st : LoadState) : LoadState :=
  mkLoadState (cs ++ codes st) (encrypted_lines st) (current_code st) (al ++ alerts st).

(** * Properties *)

(** ** The state monad *)

Lemma bind_unfold {A B : Type} (c : M A) (k : A -> M B) (w : World) :
  bind c k w = k (fst (c w)) (snd (c w)).
Proof. reflexivity. Qed.

#[local] Instance only_logged_refl : Reflexive only_logged.
Proof. intros w. unfold only_logged. tauto. Qed.

#[local] Instance only_logged_trans : Transitive only_logged.
Proof.
  intros w1 w2 w3. unfold only_logged.
  intros (-> & -> & -> & -> & -> & -> & ->) (-> & -> & -> & -> & -> & -> & ->).
  tauto.
Qed.

(** ** Guest memory *)

Lemma u32_idem (a : Z) : u32 (u32 a) = u32 a.
Proof. unfold u32. apply Z.mod_mod. lia. Qed.

Lemma u8_idem (a : Z) : u8 (u8 a) = u8 a.
Proof. unfold u8. apply Z.mod_mod. lia. Qed.

Lemma u32_small (a : Z) : 0 <= a < 2 ^ 32 -> u32 a = a.
Proof. intros H. unfold u32. apply Z.mod_small. exact H. Qed.

Lemma mem_read_write_u8 (m : Memory) (var address a : Z) :
  mem_read_u8 (mem_write_u8 m var address) a
  = if u32 a =? u32 address then u8 var else mem_read_u8 m a.
Proof.
  unfold mem_read_u8, mem_write_u8.
  destruct (u32 a =? u32 address); [apply u8_idem|reflexivity].
Qed.

(** ** Logging *)

Section LoggingProperties.

Variables MAX_LOGLEVEL LINFO : Z.

Local Abbreviation LogInfo' := (LogInfo MAX_LOGLEVEL LINFO).

Lemma LogInfo_only_logged (format : string) (args : list FmtArg) (w : World) :
  only_logged w (snd (LogInfo' format args w)).
Proof.
  unfold LogInfo.
  destruct (s_disable_logging w); [reflexivity|].
  destruct ((MAX_LOGLEVEL <? LINFO) && negb (s_use_internal_log w)); [reflexivity|].
  destruct (s_use_internal_log w) eqn:E; unfold only_logged; simpl; rewrite ?E; tauto.
Qed.

Lemma LogInfo_memory (format : string) (args : list FmtArg) (w : World) :
  memory (snd (LogInfo' format args w)) = memory w.
Proof. apply LogInfo_only_logged. Qed.

Lemma only_logged_bind {A B : Type} (c : M A) (k : A -> M B) (w : World) :
  only_logged w (snd (c w)) ->
  (forall a w', only_logged w' (snd (k a w'))) ->
  only_logged w (snd (bind c k w)).
Proof.
  intros Hc Hk. rewrite bind_unfold. etransitivity; [exact Hc|apply Hk].
Qed.

Lemma only_logged_log_ret {A : Type} (format : string) (args : list FmtArg)
    (a : A) (w : World) :
  only_logged w (snd ((LogInfo' format args ;; ret a) w)).
Proof. rewrite bind_unfold. apply LogInfo_only_logged. Qed.

End LoggingProperties.

(** ** Reasoning about runs *)

Lemma wp_ret {A : Type} (a : A) (Q : A -> World -> Prop) (w : World) :
  Q a w -> wp (ret a) Q w.
Proof. intros H. exact H. Qed.

Lemma wp_bind {A B : Type} (c : M A) (k : A -> M B) (Q : B -> World -> Prop) (w : World) :
  wp c (fun a w' => wp (k a) Q w') w -> wp (bind c k) Q w.
Proof. intros H. exact H. Qed.

Lemma wp_mono {A : Type} (c : M A) (Q Q' : A -> World -> Prop) (w : World) :
  wp c Q w -> (forall a w', Q a w' -> Q' a w') -> wp c Q' w.
Proof. intros H HQ. apply HQ, H. Qed.

Lemma wp_HostRead_U8 (address : Z) (Q : Z -> World -> Prop) (w : World) :
  Q (mem_read_u8 (memory w) address) w -> wp (HostRead_U8 address) Q w.
Proof. intros H. exact H. Qed.

Lemma wp_HostRead_U16 (address : Z) (Q : Z -> World -> Prop) (w : World) :
  Q (mem_read_u16 (memory w) address) w -> wp (HostRead_U16 address) Q w.
Proof. intros H. exact H. Qed.

Lemma wp_HostRead_U32 (address : Z) (Q : Z -> World -> Prop) (w : World) :
  Q (mem_read_u32 (memory w) address) w -> wp (HostRead_U32 address) Q w.
Proof. intros H. exact H. Qed.

Lemma wp_HostWrite_U8 (var address : Z) (Q : unit -> World -> Prop) (w : World) :
  (forall w', memory w' = mem_write_u8 (memory w) var address -> Q tt w') ->
  wp (HostWrite_U8 var address) Q w.
Proof. intros H. apply H. reflexivity. Qed.

Lemma wp_HostWrite_U16 (var address : Z) (Q : unit -> World -> Prop) (w : World) :
  (forall w', memory w' = mem_write_u16 (memory w) var address -> Q tt w') ->
  wp (HostWrite_U16 var address) Q w.
Proof. intros H. apply H. reflexivity. Qed.

Lemma wp_HostWrite_U32 (var address : Z) (Q : unit -> World -> Prop) (w : World) :
  (forall w', memory w' = mem_write_u32 (memory w) var address -> Q tt w') ->
  wp (HostWrite_U32 var address) Q w.
Proof. intros H. apply H. reflexivity. Qed.

(** A counted loop, by an invariant on the number of iterations done. *)
Lemma wp_for_loop (n : nat) (i : Z) (body : Z -> M unit)
    (I : nat -> World -> Prop) (w : World) :
  I O w ->
  (forall (j : nat) (w' : World),
     (j < n)%nat -> I j w' -> wp (body (i + Z.of_nat j)) (fun _ w'' => I (S j) w'') w') ->
  wp (for_loop n i body) (fun _ w' => I n w') w.
Proof.
  revert i I w. induction n as [|n IH]; intros i I w H0 Hstep.
  - exact H0.
  - cbn [for_loop]. apply wp_bind.
    eapply wp_mono.
    + specialize (Hstep O w ltac:(lia) H0). rewrite Z.add_0_r in Hstep. exact Hstep.
    + cbv beta. intros _ w' H1.
      apply (IH (i + 1) (fun j => I (S j)) w' H1).
      intros j w'' Hj Hw''.
      replace (i + 1 + Z.of_nat j) with (i + Z.of_nat (S j)) by lia.
      apply Hstep; [lia|exact Hw''].
Qed.

Section LogRuns.

Variables MAX_LOGLEVEL LINFO : Z.

Lemma wp_LogInfo (format : string) (args : list FmtArg)
    (Q : unit -> World -> Prop) (w : World) :
  (forall w', memory w' = memory w -> Q tt w') ->
  wp (LogInfo MAX_LOGLEVEL LINFO format args) Q w.
Proof.
  intros H. unfold wp.
  destruct (fst (LogInfo MAX_LOGLEVEL LINFO format args w)).
  apply H. apply LogInfo_memory.
Qed.

End LogRuns.

(** One step of a run: the rule for the computation at the head, with the
    memory of the new world stated in terms of the memory at the start. *)
Ltac wp_new_world :=
  let w' := fresh "w" in
  let H := fresh "Hm" in
  intros w' H;
  lazymatch type of H with
  | memory w' = ?rhs =>
      try match rhs with
          | context [memory ?w] =>
              match goal with
              | Hprev : memory w = _ |- _ =>
                  rewrite Hprev in H; clear Hprev; try clear w
              end
          end
  end.

Ltac wp_step :=
  lazymatch goal with
  | |- wp (bind _ _) _ _ => apply wp_bind
  | |- wp (ret _) _ _ => apply wp_ret
  | |- wp (LogInfo _ _ _ _) _ _ => apply wp_LogInfo; wp_new_world
  | |- wp (HostWrite_U8 _ _) _ _ => apply wp_HostWrite_U8; wp_new_world
  | |- wp (HostWrite_U16 _ _) _ _ => apply wp_HostWrite_U16; wp_new_world
  | |- wp (HostWrite_U32 _ _) _ _ => apply wp_HostWrite_U32; wp_new_world
  | |- wp (HostRead_U8 _) _ _ => apply wp_HostRead_U8
  | |- wp (HostRead_U16 _) _ _ => apply wp_HostRead_U16
  | |- wp (HostRead_U32 _) _ _ => apply wp_HostRead_U32
  end.

Ltac wp_steps := repeat (wp_step; cbv beta).

(** ** The address fields *)

Lemma land_3_cases (x : Z) :
  Z.land x 0x3 = 0 \/ Z.land x 0x3 = 1 \/ Z.land x 0x3 = 2 \/ Z.land x 0x3 = 3.
Proof.
  assert (E : Z.land x 0x3 = x mod 4) by (apply (Z.land_ones x 2); lia).
  rewrite E. pose proof (Z.mod_pos_bound x 4 ltac:(lia)). lia.
Qed.

Lemma size_cases (addr : Z) :
  ARAddr.size addr = 0 \/ ARAddr.size addr = 1 \/ ARAddr.size addr = 2 \/ ARAddr.size addr = 3.
Proof. apply land_3_cases. Qed.

Lemma subtype_cases (addr : Z) :
  ARAddr.subtype addr = 0 \/ ARAddr.subtype addr = 1 \/
  ARAddr.subtype addr = 2 \/ ARAddr.subtype addr = 3.
Proof. apply land_3_cases. Qed.

Lemma type_range (addr : Z) : 0 <= ARAddr.type addr <= 7.
Proof.
  unfold ARAddr.type.
  assert (E : forall x, Z.land x 0x7 = x mod 8) by (intros x; apply (Z.land_ones x 3); lia).
  rewrite E. pose proof (Z.mod_pos_bound (Z.shiftr addr 27) 8 ltac:(lia)). lia.
Qed.

(** A command word whose type field is not 0 is neither 0 nor in the range
    the self-modification check tests. *)
Lemma type_nonzero_word (addr : Z) :
  ARAddr.type addr <> 0 ->
  (0x00002000 <=? addr) && (addr <? 0x00003000) = false /\ (0x0 =? addr) = false.
Proof.
  intros Ht.
  assert (H : ~ (0 <= addr < 2 ^ 27)).
  { intros Hr. apply Ht. unfold ARAddr.type.
    rewrite Z.shiftr_div_pow2 by lia. rewrite Z.div_small by lia. reflexivity. }
  split.
  - apply andb_false_iff. destruct (Z.leb_spec 0x2000 addr); [|tauto].
    right. apply Z.ltb_ge. lia.
  - apply Z.eqb_neq. lia.
Qed.

(** ** Comparisons *)

Section ConditionalProperties.

Variables MAX_LOGLEVEL LINFO : Z.

Local Abbreviation LogInfo' := (LogInfo MAX_LOGLEVEL LINFO).
Local Abbreviation compare := (ConditionalCode_compare MAX_LOGLEVEL LINFO).

(** The outcome of a comparison does not depend on the world. *)
Lemma CompareValues_fst (val1 val2 type : Z) (w1 w2 : World) :
  fst (CompareValues MAX_LOGLEVEL LINFO val1 val2 type w1)
  = fst (CompareValues MAX_LOGLEVEL LINFO val1 val2 type w2).
Proof.
  unfold CompareValues.
  destruct type as [|p|p]; [reflexivity| |reflexivity].
  destruct p as [p|p|]; [| |reflexivity];
    (destruct p as [p|p|]; [| |reflexivity]);
    (destruct p as [p|p|]; reflexivity).
Qed.

(** With one of the seven comparison types, a comparison only logs. *)
Lemma CompareValues_only_logged (val1 val2 type : Z) (w : World) :
  1 <= type <= 7 ->
  only_logged w (snd (CompareValues MAX_LOGLEVEL LINFO val1 val2 type w)).
Proof.
  intros Ht.
  assert (H : type = 1 \/ type = 2 \/ type = 3 \/ type = 4 \/ type = 5 \/ type = 6 \/ type = 7)
    by lia.
  unfold CompareValues.
  destruct H as [-> | [-> | [-> | [-> | [-> | [-> | ->]]]]]];
    apply only_logged_log_ret.
Qed.

Lemma compare_some (addr data : Z) :
  exists cmp : M bool,
    compare addr data = Some cmp /\
    (forall w1 w2, memory w1 = memory w2 -> fst (cmp w1) = fst (cmp w2)) /\
    (1 <= ARAddr.type addr <= 7 -> forall w, only_logged w (snd (cmp w))).
Proof.
  unfold ConditionalCode_compare.
  destruct (size_cases addr) as [-> | [-> | [-> | ->]]];
    (eexists; split; [reflexivity|]; split;
     [ intros w1 w2 Hm; rewrite !bind_unfold; cbn [HostRead_U8 HostRead_U16 HostRead_U32 fst snd];
       rewrite Hm; apply CompareValues_fst
     | intros Ht w; rewrite bind_unfold; apply CompareValues_only_logged; exact Ht ]).
Qed.

(** What a false comparison leaves in the skip count, by subtype. *)
Lemma ConditionalCode_result (addr data pSkipCount : Z) (w : World) :
  1 <= ARAddr.type addr <= 7 ->
  exists cmp : M bool,
    compare addr data = Some cmp /\
    let r := ConditionalCode MAX_LOGLEVEL LINFO addr data pSkipCount w in
    only_logged w (snd r) /\
    fst (fst r) = true /\
    (fst (cmp w) = true -> snd (fst r) = pSkipCount) /\
    (fst (cmp w) = false ->
       (ARAddr.subtype addr = 0 -> snd (fst r) = 1) /\
       (ARAddr.subtype addr = 1 -> snd (fst r) = 2) /\
       (ARAddr.subtype addr = 2 -> snd (fst r) = -2) /\
       (ARAddr.subtype addr = 3 -> snd (fst r) = -3)).
Proof.
  intros Ht.
  destruct (compare_some addr data) as (cmp & Hcmp & Hfst & Hlog).
  exists cmp. split; [exact Hcmp|].
  unfold ConditionalCode. rewrite Hcmp. cbv zeta.
  rewrite !bind_unfold.
  set (w1 := snd (LogInfo' "Size: %08x" _ w)).
  set (w2 := snd (LogInfo' "Hardware Address: %08x" _ w1)).
  assert (Hw2 : only_logged w w2).
  { etransitivity; apply LogInfo_only_logged. }
  assert (Hw3 : only_logged w (snd (cmp w2))).
  { etransitivity; [exact Hw2|apply Hlog, Ht]. }
  rewrite (Hfst w w2) by (symmetry; apply Hw2).
  destruct (fst (cmp w2)); cbn [negb].
  - split; [exact Hw3|]. split; [reflexivity|]. split; [reflexivity|]. discriminate.
  - destruct (subtype_cases addr) as [E | [E | [E | E]]]; rewrite E;
      (split; [exact Hw3|]); (split; [reflexivity|]); (split; [discriminate|]);
      intros _; repeat split; intros E'; first [reflexivity | discriminate E'].
Qed.

End ConditionalProperties.

(** ** The size field *)

Section Sizes.

Variables MAX_LOGLEVEL LINFO : Z.
Variable float_add : Z -> Z -> Z.

(** C9: the size field has two bits, and RAM Write and Fill, Write to
    Pointer, Add and the conditional codes have a case for each of its four
    values: whatever the instruction and the world, none of them reaches
    its "invalid size" branch, and each returns success.  Fill and Slide
    has cases for the sizes 0, 1 and 2 only: it fails exactly when the size
    field of the stored word is 3. *)
Theorem size_failure_unreachable (addr data pSkipCount val_last : Z) (w : World) :
  fst (Subtype_RamWriteAndFill MAX_LOGLEVEL LINFO addr data w) = true /\
  fst (Subtype_WriteToPointer MAX_LOGLEVEL LINFO addr data w) = true /\
  fst (Subtype_AddCode MAX_LOGLEVEL LINFO float_add addr data w) = true /\
  fst (fst (ConditionalCode MAX_LOGLEVEL LINFO addr data pSkipCount w)) = true /\
  (fst (ZeroCode_FillAndSlide MAX_LOGLEVEL LINFO val_last addr data w) = false
   <-> ARAddr.size val_last = 3).
Proof.
  repeat split.
  - unfold Subtype_RamWriteAndFill.
    destruct (size_cases addr) as [-> | [-> | [-> | ->]]]; reflexivity.
  - unfold Subtype_WriteToPointer.
    destruct (size_cases addr) as [-> | [-> | [-> | ->]]]; reflexivity.
  - unfold Subtype_AddCode.
    destruct (size_cases addr) as [-> | [-> | [-> | ->]]]; reflexivity.
  - destruct (compare_some MAX_LOGLEVEL LINFO addr data) as (cmp & Hcmp & _).
    unfold ConditionalCode. rewrite Hcmp. rewrite !bind_unfold.
    match goal with |- context [negb ?b] => destruct b end; [reflexivity|].
    cbn [negb].
    destruct (subtype_cases addr) as [-> | [-> | [-> | ->]]]; reflexivity.
  - unfold ZeroCode_FillAndSlide.
    destruct (size_cases val_last) as [E | [E | [E | E]]]; rewrite E;
      intros H; first [discriminate H | reflexivity].
  - intros E. unfold ZeroCode_FillAndSlide. rewrite E. reflexivity.
Qed.

End Sizes.

(** ** The interpreter: skipping and conditional codes *)

Section InterpreterProperties.

Variables MAX_LOGLEVEL LINFO : Z.
Variable float_add : Z -> Z -> Z.

Local Abbreviation LogInfo' := (LogInfo MAX_LOGLEVEL LINFO).
Local Abbreviation entry_step := (RunCodeLocked_entry MAX_LOGLEVEL LINFO float_add).
Local Abbreviation loop := (RunCodeLocked_loop MAX_LOGLEVEL LINFO float_add).

Lemma loop_cons (l : Locals) (entry : AREntry) (rest : list AREntry) (w : World) :
  loop l (entry :: rest) w =
    match fst (entry_step l entry w) with
    | Continue l' => loop l' rest (snd (entry_step l entry w))
    | Return b => (b, snd (entry_step l entry w))
    end.
Proof.
  cbn [RunCodeLocked_loop]. rewrite bind_unfold.
  destruct (fst (entry_step l entry w)); reflexivity.
Qed.

Lemma entry_step_skip_positive (l : Locals) (entry : AREntry) :
  0 < skip_count l ->
  entry_step l entry =
    (LogInfo' "Line skipped" [] ;;
     ret (Continue (with_skip_count (skip_count l - 1) l))).
Proof.
  intros H. unfold RunCodeLocked_entry.
  replace (skip_count l =? 0) with false by (symmetry; apply Z.eqb_neq; lia).
  replace (skip_count l >? 0) with true by (symmetry; apply Z.gtb_lt; lia).
  reflexivity.
Qed.

Lemma entry_step_skip_all (l : Locals) (entry : AREntry) :
  skip_count l = -3 ->
  entry_step l entry = (LogInfo' "All Lines skipped" [] ;; ret (Return true)).
Proof. intros H. unfold RunCodeLocked_entry. rewrite H. reflexivity. Qed.

Lemma entry_step_conditional (l : Locals) (entry : AREntry) :
  skip_count l = 0 -> do_fill_and_slide l = false -> do_memory_copy l = false ->
  ARAddr.type (cmd_addr entry) <> 0 ->
  entry_step l entry =
    (LogInfo' "--- Running Code: %08x %08x ---" [ArgZ (cmd_addr entry); ArgZ (value entry)] ;;
     LogInfo' "Doing Normal Code %08x" [ArgZ (ARAddr.type (cmd_addr entry))] ;;
     LogInfo' "Subtype: %08x" [ArgZ (ARAddr.subtype (cmd_addr entry))] ;;
     LogInfo' "This Normal Code is a Conditional Code" [] ;;
     r <- ConditionalCode MAX_LOGLEVEL LINFO (cmd_addr entry) (value entry) (skip_count l) ;;
     if negb (fst r) then ret (Return false)
     else ret (Continue (with_skip_count (snd r) l))).
Proof.
  intros Hs Hf Hm Ht. unfold RunCodeLocked_entry.
  destruct (type_nonzero_word _ Ht) as [Hguard Hzero].
  rewrite Hs, Hf, Hm, Hguard, Hzero. cbn [Z.eqb negb].
  destruct (ARAddr.type (cmd_addr entry)) as [|p|p]; [congruence|reflexivity|reflexivity].
Qed.

Lemma with_skip_count_same (l : Locals) : with_skip_count (skip_count l) l = l.
Proof. destruct l; reflexivity. Qed.

Lemma skip_one (l : Locals) (e1 : AREntry) (rest : list AREntry) (w : World) :
  skip_count l = 0 ->
  exists w', only_logged w w' /\ loop (with_skip_count 1 l) (e1 :: rest) w = loop l rest w'.
Proof.
  intros Hs. rewrite loop_cons.
  rewrite entry_step_skip_positive by (cbn; lia).
  rewrite bind_unfold. cbn [ret fst snd with_skip_count skip_count do_fill_and_slide do_memory_copy val_last].
  eexists. split; [apply LogInfo_only_logged|].
  f_equal. destruct l; cbn in *; subst; reflexivity.
Qed.

Lemma skip_two (l : Locals) (e1 e2 : AREntry) (rest : list AREntry) (w : World) :
  skip_count l = 0 ->
  exists w', only_logged w w' /\ loop (with_skip_count 2 l) (e1 :: e2 :: rest) w = loop l rest w'.
Proof.
  intros Hs. rewrite loop_cons.
  rewrite entry_step_skip_positive by (cbn; lia).
  rewrite bind_unfold. cbn [ret fst snd with_skip_count skip_count do_fill_and_slide do_memory_copy val_last].
  change (2 - 1) with 1.
  destruct (skip_one l e2 rest (snd (LogInfo' "Line skipped" [] w)) Hs) as (w' & Hw' & E).
  exists w'. split; [etransitivity; [apply LogInfo_only_logged|exact Hw']|].
  rewrite <- E. f_equal.
Qed.

Lemma skip_all (l : Locals) (e1 : AREntry) (rest : list AREntry) (w : World) :
  fst (loop (with_skip_count (-3) l) (e1 :: rest) w) = true /\
  only_logged w (snd (loop (with_skip_count (-3) l) (e1 :: rest) w)).
Proof.
  rewrite loop_cons. rewrite entry_step_skip_all by reflexivity.
  rewrite bind_unfold. split; [reflexivity|apply LogInfo_only_logged].
Qed.

Lemma entry_step_skip_until (l : Locals) (entry : AREntry) :
  skip_count l = -2 ->
  entry_step l entry =
    (LogInfo' "Line skipped" [] ;;
     if (cmd_addr entry =? 0) && (0x40000000 =? value entry)
     then ret (Continue (with_skip_count 0 l))
     else ret (Continue l)).
Proof. intros H. unfold RunCodeLocked_entry. rewrite H. reflexivity. Qed.

(** C4: while the skip count is the skip-until-endif sentinel, an entry
    whose raw pair is (0x00000000, 0x40000000) resets the skip count to 0
    and does nothing else but log (no guest-memory write), the loop going
    on with the next entry; any other entry does nothing but log and leaves
    the skip count at the sentinel. *)
Theorem skip_until_endif (l : Locals) (entry : AREntry) (w : World) :
  skip_count l = -2 ->
  let r := entry_step l entry w in
  only_logged w (snd r) /\
  (cmd_addr entry = 0 /\ value entry = 0x40000000 ->
     fst r = Continue (with_skip_count 0 l) /\
     forall rest, loop l (entry :: rest) w = loop (with_skip_count 0 l) rest (snd r)) /\
  (~ (cmd_addr entry = 0 /\ value entry = 0x40000000) ->
     fst r = Continue l /\ skip_count l = -2).
Proof.
  intros Hskip r. subst r.
  assert (Hloop : forall rest, loop l (entry :: rest) w =
            match fst (entry_step l entry w) with
            | Continue l' => loop l' rest (snd (entry_step l entry w))
            | Return b => (b, snd (entry_step l entry w))
            end).
  { intros rest. cbn [RunCodeLocked_loop]. rewrite bind_unfold.
    destruct (fst (entry_step l entry w)); reflexivity. }
  rewrite (entry_step_skip_until l entry Hskip) in *.
  rewrite bind_unfold in *.
  destruct ((cmd_addr entry =? 0) && (0x40000000 =? value entry)) eqn:E.
  - split; [apply LogInfo_only_logged|]. split.
    + intros _. split; [reflexivity|]. intros rest. rewrite Hloop. reflexivity.
    + intros Hne. exfalso. apply Hne. apply andb_prop in E. lia.
  - split; [apply LogInfo_only_logged|]. split.
    + intros [Ha Hv]. rewrite Ha, Hv in E. discriminate E.
    + intros _. split; [reflexivity|exact Hskip].
Qed.

(** C3: a conditional instruction (type 1..7; every size is valid) reached
    with no skip and no composite pending only logs; if its sized comparison
    holds the skip count stays 0, and if it does not, subtype 0 sets the
    skip count to 1, subtype 1 to 2, subtype 2 to the sentinel -2 and
    subtype 3 to the sentinel -3.  With a count of 1 exactly the next entry
    is skipped with no effect but logging, with 2 exactly the next two, and
    with -3 the run returns success at the next entry. *)
Theorem conditional_skip (l : Locals) (entry : AREntry) (w : World) :
  skip_count l = 0 -> do_fill_and_slide l = false -> do_memory_copy l = false ->
  1 <= ARAddr.type (cmd_addr entry) <= 7 ->
  exists cmp : M bool,
    ConditionalCode_compare MAX_LOGLEVEL LINFO (cmd_addr entry) (value entry) = Some cmp /\
    let r := entry_step l entry w in
    let subtype := ARAddr.subtype (cmd_addr entry) in
    only_logged w (snd r) /\
    (fst (cmp w) = true -> fst r = Continue l) /\
    (fst (cmp w) = false ->
       (subtype = 0 -> fst r = Continue (with_skip_count 1 l)) /\
       (subtype = 1 -> fst r = Continue (with_skip_count 2 l)) /\
       (subtype = 2 -> fst r = Continue (with_skip_count (-2) l)) /\
       (subtype = 3 -> fst r = Continue (with_skip_count (-3) l))) /\
    (forall e1 rest w1, exists w2,
        only_logged w1 w2 /\
        loop (with_skip_count 1 l) (e1 :: rest) w1 = loop l rest w2) /\
    (forall e1 e2 rest w1, exists w2,
        only_logged w1 w2 /\
        loop (with_skip_count 2 l) (e1 :: e2 :: rest) w1 = loop l rest w2) /\
    (forall e1 rest w1,
        fst (loop (with_skip_count (-3) l) (e1 :: rest) w1) = true /\
        only_logged w1 (snd (loop (with_skip_count (-3) l) (e1 :: rest) w1))).
Proof.
  intros Hs Hf Hm Ht.
  destruct (compare_some MAX_LOGLEVEL LINFO (cmd_addr entry) (value entry))
    as (cmp & Hcmp & Hfst & _).
  exists cmp. split; [exact Hcmp|].
  cbv zeta. rewrite entry_step_conditional by (assumption || lia).
  rewrite !bind_unfold.
  set (w4 := snd (LogInfo' "This Normal Code is a Conditional Code" [] _)).
  assert (Hw4 : only_logged w w4).
  { subst w4. repeat (etransitivity; [|apply LogInfo_only_logged]). reflexivity. }
  clearbody w4.
  destruct (ConditionalCode_result MAX_LOGLEVEL LINFO (cmd_addr entry) (value entry)
              (skip_count l) w4 Ht) as (cmp' & Hcmp' & Hlog & Hok & Htrue & Hfalse).
  rewrite Hcmp in Hcmp'. injection Hcmp' as <-.
  rewrite <- (Hfst w w4) in Htrue, Hfalse by (symmetry; apply Hw4).
  set (r := ConditionalCode MAX_LOGLEVEL LINFO (cmd_addr entry) (value entry) (skip_count l) w4) in *.
  rewrite Hok. cbn [negb ret fst snd].
  split; [etransitivity; [exact Hw4|exact Hlog]|].
  split.
  { intros Hc. rewrite (Htrue Hc). rewrite with_skip_count_same. reflexivity. }
  split.
  { intros Hc. destruct (Hfalse Hc) as (H0 & H1 & H2 & H3).
    repeat split; intros E; [rewrite (H0 E)|rewrite (H1 E)|rewrite (H2 E)|rewrite (H3 E)];
      reflexivity. }
  split; [intros; apply skip_one; exact Hs|].
  split; [intros; apply skip_two; exact Hs|].
  intros; apply skip_all.
Qed.

End InterpreterProperties.

(** ** Normal codes: RAM Write and Fill *)

Section WriteProperties.

Variables MAX_LOGLEVEL LINFO : Z.
Variable float_add : Z -> Z -> Z.

Local Abbreviation LogInfo' := (LogInfo MAX_LOGLEVEL LINFO).
Local Abbreviation entry_step := (RunCodeLocked_entry MAX_LOGLEVEL LINFO float_add).
Local Abbreviation loop := (RunCodeLocked_loop MAX_LOGLEVEL LINFO float_add).
Local Abbreviation run := (RunCodeLocked MAX_LOGLEVEL LINFO float_add).

Lemma RunCodeLocked_unfold (arcode : ARCode) (w : World) :
  run arcode w = loop (mkLocals false false 0 0) (ops arcode) (loop_start MAX_LOGLEVEL LINFO arcode w).
Proof. reflexivity. Qed.

Lemma loop_start_memory (arcode : ARCode) (w : World) :
  memory (loop_start MAX_LOGLEVEL LINFO arcode w) = memory w.
Proof. unfold loop_start. rewrite !LogInfo_memory. reflexivity. Qed.

(** A run, from the world in which its loop starts. *)
Lemma wp_RunCodeLocked (arcode : ARCode) (Q : bool -> World -> Prop) (w : World) :
  (forall w', memory w' = memory w ->
     wp (loop (mkLocals false false 0 0) (ops arcode)) Q w') ->
  wp (run arcode) Q w.
Proof.
  intros H. unfold wp. rewrite RunCodeLocked_unfold.
  apply H, loop_start_memory.
Qed.

(** A normal code of subtype 0, reached with no skip and no composite
    pending, whose word is outside the range the self-modification check
    tests: the loop body runs RAM Write and Fill. *)
Lemma entry_step_ram_write (l : Locals) (entry : AREntry) :
  skip_count l = 0 -> do_fill_and_slide l = false -> do_memory_copy l = false ->
  (0x00002000 <=? cmd_addr entry) && (cmd_addr entry <? 0x00003000) = false ->
  cmd_addr entry <> 0 ->
  ARAddr.type (cmd_addr entry) = 0 -> ARAddr.subtype (cmd_addr entry) = 0 ->
  entry_step l entry =
    (LogInfo' "--- Running Code: %08x %08x ---" [ArgZ (cmd_addr entry); ArgZ (value entry)] ;;
     LogInfo' "Doing Normal Code %08x" [ArgZ 0] ;;
     LogInfo' "Subtype: %08x" [ArgZ 0] ;;
     ok <- (LogInfo' "Doing Ram Write And Fill" [] ;;
            Subtype_RamWriteAndFill MAX_LOGLEVEL LINFO (cmd_addr entry) (value entry)) ;;
     if negb ok then ret (Return false) else ret (Continue l)).
Proof.
  intros Hs Hf Hm Hg Hz Ht Hsub. unfold RunCodeLocked_entry, NormalCode.
  rewrite Hs, Hf, Hm, Hg, Ht, Hsub.
  replace (0x0 =? cmd_addr entry) with false by (symmetry; apply Z.eqb_neq; lia).
  reflexivity.
Qed.

(** A code whose only entry is such a normal code: its run is that of RAM
    Write and Fill. *)
Lemma wp_run_ram_write (arcode : ARCode) (entry : AREntry)
    (Q : bool -> World -> Prop) (w : World) :
  ops arcode = [entry] ->
  (0x00002000 <=? cmd_addr entry) && (cmd_addr entry <? 0x00003000) = false ->
  cmd_addr entry <> 0 ->
  ARAddr.type (cmd_addr entry) = 0 -> ARAddr.subtype (cmd_addr entry) = 0 ->
  (forall w', memory w' = memory w ->
     wp (Subtype_RamWriteAndFill MAX_LOGLEVEL LINFO (cmd_addr entry) (value entry))
        (fun ok w'' => Q ok w'') w') ->
  wp (run arcode) Q w.
Proof.
  intros Hops Hg Hz Ht Hsub H.
  apply wp_RunCodeLocked. intros w0 Hm. rewrite Hops.
  cbn [RunCodeLocked_loop].
  rewrite entry_step_ram_write by (reflexivity || assumption).
  wp_steps.
  eapply wp_mono; [apply H; assumption|].
  cbv beta. intros [|] w' HQ; wp_steps; exact HQ.
Qed.

Lemma RamWriteAndFill_32 (addr data : Z) (w : World) :
  ARAddr.size addr = 2 \/ ARAddr.size addr = 3 ->
  wp (Subtype_RamWriteAndFill MAX_LOGLEVEL LINFO addr data)
     (fun ok w' => ok = true /\
        memory w' = mem_write_u32 (memory w) data (ARAddr.GCAddress addr)) w.
Proof.
  intros Hsize. unfold Subtype_RamWriteAndFill.
  destruct Hsize as [-> | ->]; wp_steps; (split; [reflexivity|assumption]).
Qed.

(** The tick on a store that holds one code: the code stays when its run
    succeeds. *)
Lemma RunAllActive_single (code : ARCode) (w : World) :
  bEnableCheats w = true -> s_active_codes w = [code] ->
  s_active_codes (snd (RunAllActive MAX_LOGLEVEL LINFO float_add w))
  = if fst (run code w) then [code] else [].
Proof.
  intros Hen Hcodes. unfold RunAllActive. rewrite Hen, Hcodes. cbn [negb].
  cbn [with_disable_logging with_active_codes s_active_codes].
  cbn [RunAllActive_remove_if]. rewrite bind_unfold.
  destruct (run code w) as [success w1]. cbn [fst snd]. rewrite bind_unfold.
  destruct (LogInfo' "\n" [] w1) as [u w2]. cbn [fst snd]. rewrite bind_unfold.
  cbn [ret fst snd]. destruct success; reflexivity.
Qed.

(** The check the source makes: on the raw command word. *)
Lemma self_modification_check (l : Locals) (entry : AREntry) (w : World) :
  skip_count l = 0 -> do_fill_and_slide l = false -> do_memory_copy l = false ->
  0x00002000 <= cmd_addr entry < 0x00003000 ->
  wp (entry_step l entry) (fun flow w' => flow = Return false /\ memory w' = memory w) w.
Proof.
  intros Hs Hf Hm Hr. unfold RunCodeLocked_entry.
  rewrite Hs, Hf, Hm.
  replace ((0x00002000 <=? cmd_addr entry) && (cmd_addr entry <? 0x00003000)) with true
    by (symmetry; apply andb_true_iff; split; [apply Z.leb_le|apply Z.ltb_lt]; lia).
  cbn [Z.eqb negb]. wp_steps.
  unfold wp. cbn [PanicAlertT fst snd with_panic_alerts memory].
  wp_steps. split; [reflexivity|assumption].
Qed.

(** C1, at the instruction the specification gives for it (S6): the word
    0x04002500 has gcaddr 0x2500, inside [0x2000, 0x3000), and effective
    address 0x80002500, but as a whole word it is outside the range the
    check tests.  The code is run as a 32-bit RAM write: the run succeeds,
    the word 1 is written at 0x80002500, and the code stays in the store
    after the tick. *)
Theorem self_modification_word_runs (w : World) :
  let code := mkARCode "S6" [mkAREntry 0x04002500 0x00000001] true true in
  let r := run code w in
  ARAddr.gcaddr 0x04002500 = 0x2500 /\
  ARAddr.GCAddress 0x04002500 = 0x80002500 /\
  fst r = true /\
  memory (snd r) = mem_write_u32 (memory w) 1 0x80002500 /\
  mem_read_u32 (memory (snd r)) 0x80002500 = 1 /\
  (bEnableCheats w = true -> s_active_codes w = [code] ->
   s_active_codes (snd (RunAllActive MAX_LOGLEVEL LINFO float_add w)) = [code]).
Proof.
  cbv zeta.
  set (code := mkARCode "S6" [mkAREntry 0x04002500 0x00000001] true true).
  assert (H : wp (run code)
                (fun ok w' => ok = true /\
                   memory w' = mem_write_u32 (memory w) 1 0x80002500) w).
  { apply (wp_run_ram_write code (mkAREntry 0x04002500 1));
      [reflexivity|reflexivity|discriminate|reflexivity|reflexivity|].
    intros w' Hm. eapply wp_mono; [apply RamWriteAndFill_32; left; reflexivity|].
    cbv beta. intros ok w'' [-> Hmem]. rewrite Hmem, Hm. split; reflexivity. }
  unfold wp in H. destruct H as [Hok Hmem].
  split; [reflexivity|]. split; [reflexivity|]. split; [exact Hok|].
  split; [exact Hmem|]. split; [rewrite Hmem; reflexivity|].
  intros Hen Hcodes. rewrite (RunAllActive_single code w Hen Hcodes), Hok. reflexivity.
Qed.

End WriteProperties.

(** ** Memory Copy *)

Section CopyProperties.

Variables MAX_LOGLEVEL LINFO : Z.
Variable float_add : Z -> Z -> Z.

Local Abbreviation LogInfo' := (LogInfo MAX_LOGLEVEL LINFO).
Local Abbreviation entry_step := (RunCodeLocked_entry MAX_LOGLEVEL LINFO float_add).
Local Abbreviation loop := (RunCodeLocked_loop MAX_LOGLEVEL LINFO float_add).
Local Abbreviation run := (RunCodeLocked MAX_LOGLEVEL LINFO float_add).
Local Abbreviation copy := (ZeroCode_MemoryCopy MAX_LOGLEVEL LINFO).

(** The zero code that selects Memory Copy stores its value and sets the
    flag; it only logs. *)
Lemma entry_step_select_copy (l : Locals) (data : Z) :
  skip_count l = 0 -> do_fill_and_slide l = false -> do_memory_copy l = false ->
  u8 (Z.shiftr data 29) = 4 -> Z.land (Z.shiftr data 25) 0x03 = 3 ->
  entry_step l (mkAREntry 0 data) =
    (LogInfo' "--- Running Code: %08x %08x ---" [ArgZ 0; ArgZ data] ;;
     LogInfo' "Doing Zero Code %08x" [ArgZ 4] ;;
     LogInfo' "ZCode: Memory Copy" [] ;;
     ret (Continue (mkLocals false true 0 data))).
Proof.
  intros Hs Hf Hm Hz Hsel. unfold RunCodeLocked_entry.
  cbn [cmd_addr value]. rewrite Hs, Hf, Hm, Hz, Hsel. reflexivity.
Qed.

(** With the Memory Copy flag set, the next entry is handed to
    [ZeroCode_MemoryCopy] with the stored value. *)
Lemma entry_step_do_copy (l : Locals) (entry : AREntry) :
  skip_count l = 0 -> do_fill_and_slide l = false -> do_memory_copy l = true ->
  entry_step l entry =
    (LogInfo' "--- Running Code: %08x %08x ---" [ArgZ (cmd_addr entry); ArgZ (value entry)] ;;
     LogInfo' "Doing Memory Copy" [] ;;
     ok <- copy (val_last l) (cmd_addr entry) (value entry) ;;
     if negb ok then ret (Return false)
     else ret (Continue (mkLocals false false 0 (val_last l)))).
Proof.
  intros Hs Hf Hm. unfold RunCodeLocked_entry. rewrite Hs, Hf, Hm. reflexivity.
Qed.

(** Memory Copy without pointers: the number of bytes the loop copies is
    [data & 0x7FFF] stored in a [u8], its low eight bits. *)
Lemma MemoryCopy_no_pointers (val_last addr data : Z) :
  Z.land data 0xFF0000 = 0 -> Z.shiftr data 24 = 0 ->
  copy val_last addr data =
    (LogInfo' "Dest Address: %08x" [ArgZ (Z.land val_last (Z.lnot 0x06000000))] ;;
     LogInfo' "Src Address: %08x" [ArgZ (ARAddr.GCAddress addr)] ;;
     LogInfo' "Size: %08x" [ArgZ (u8 (Z.land data 0x7FFF))] ;;
     LogInfo' "Memory Copy Without Pointers Support" [] ;;
     LogInfo' "--------" [] ;;
     MemoryCopy_loop MAX_LOGLEVEL LINFO (u8 (Z.land data 0x7FFF)) (ARAddr.GCAddress addr)
       (Z.land val_last (Z.lnot 0x06000000)) ;;
     LogInfo' "--------" [] ;;
     ret true).
Proof.
  intros H1 H2. unfold ZeroCode_MemoryCopy. rewrite H1, H2. reflexivity.
Qed.

(** C2, at a count above 255: the pair of entries below selects Memory Copy
    with destination 0x80500000 and asks for 0x100 = 256 bytes from
    0x80400000 ([data & 0x7FFF = 256], no pointers).  The count the source
    keeps is 0: the run succeeds and guest memory is as it was. *)
Theorem memory_copy_256_copies_nothing (w : World) :
  let code := mkARCode "copy" [mkAREntry 0 0x86500000; mkAREntry 0x00400000 0x00000100]
                true true in
  let r := run code w in
  Z.land 0x00000100 0x7FFF = 256 /\
  Z.land 0x86500000 (Z.lnot 0x06000000) = 0x80500000 /\
  ARAddr.GCAddress 0x00400000 = 0x80400000 /\
  fst r = true /\
  memory (snd r) = memory w.
Proof.
  cbv zeta. split; [reflexivity|]. split; [reflexivity|]. split; [reflexivity|].
  change (wp (run (mkARCode "copy"
                     [mkAREntry 0 0x86500000; mkAREntry 0x00400000 0x00000100] true true))
            (fun ok w' => ok = true /\ memory w' = memory w) w).
  apply wp_RunCodeLocked. intros w0 Hm0. cbn [ops RunCodeLocked_loop].
  rewrite entry_step_select_copy by reflexivity.
  wp_steps.
  rewrite entry_step_do_copy by reflexivity.
  cbn [val_last cmd_addr value].
  rewrite MemoryCopy_no_pointers by reflexivity.
  change (u8 (Z.land 0x00000100 0x7FFF)) with 0.
  unfold MemoryCopy_loop.
  wp_steps. change (Z.to_nat 0) with O. cbn [for_loop].
  wp_steps. cbn [negb]. wp_steps.
  split; [reflexivity|assumption].
Qed.

End CopyProperties.

(** ** The 8-bit fill *)

Section FillProperties.

Variables MAX_LOGLEVEL LINFO : Z.
Variable float_add : Z -> Z -> Z.

Local Abbreviation LogInfo' := (LogInfo MAX_LOGLEVEL LINFO).
Local Abbreviation run := (RunCodeLocked MAX_LOGLEVEL LINFO float_add).

(** The 8-bit fill loop: [n] bytes from [new_addr] on. *)
Lemma fill8_loop (n : nat) (new_addr var : Z) (w : World) :
  0 <= new_addr -> new_addr + Z.of_nat n <= 2 ^ 32 ->
  wp (for_loop n 0 (fun i =>
        HostWrite_U8 var (u32 (new_addr + i)) ;;
        LogInfo' "Wrote %08x to address %08x" [ArgZ var; ArgZ (u32 (new_addr + i))]))
     (fun _ w' => forall a : Z,
        mem_read_u8 (memory w') a
        = if (new_addr <=? u32 a) && (u32 a <? new_addr + Z.of_nat n)
          then u8 var else mem_read_u8 (memory w) a) w.
Proof.
  intros Hlo Hhi.
  apply (wp_for_loop n 0 _ (fun j w' => forall a : Z,
           mem_read_u8 (memory w') a
           = if (new_addr <=? u32 a) && (u32 a <? new_addr + Z.of_nat j)
             then u8 var else mem_read_u8 (memory w) a)).
  - intros a.
    destruct (Z.leb_spec new_addr (u32 a)); [|reflexivity].
    replace (u32 a <? new_addr + Z.of_nat 0) with false
      by (symmetry; apply Z.ltb_ge; lia).
    reflexivity.
  - intros j w' Hj HI. wp_steps. intros a.
    match goal with H : memory _ = _ |- _ => rewrite H end.
    rewrite mem_read_write_u8, u32_idem, HI.
    rewrite (u32_small (new_addr + (0 + Z.of_nat j))) by lia.
    destruct (Z.eqb_spec (u32 a) (new_addr + (0 + Z.of_nat j))) as [E|E].
    + replace (new_addr <=? u32 a) with true by (symmetry; apply Z.leb_le; lia).
      replace (u32 a <? new_addr + Z.of_nat (S j)) with true
        by (symmetry; apply Z.ltb_lt; lia).
      reflexivity.
    + destruct (Z.leb_spec new_addr (u32 a)); [|reflexivity]. cbn [andb].
      destruct (Z.ltb_spec (u32 a) (new_addr + Z.of_nat j));
        destruct (Z.ltb_spec (u32 a) (new_addr + Z.of_nat (S j))); try lia; reflexivity.
Qed.

Lemma RamWriteAndFill_8 (addr data : Z) (w : World) :
  ARAddr.size addr = 0 -> 0 <= data ->
  0 <= ARAddr.GCAddress addr ->
  ARAddr.GCAddress addr + Z.shiftr data 8 < 2 ^ 32 ->
  wp (Subtype_RamWriteAndFill MAX_LOGLEVEL LINFO addr data)
     (fun ok w' => ok = true /\ forall a : Z,
        mem_read_u8 (memory w') a
        = if (ARAddr.GCAddress addr <=? u32 a)
             && (u32 a <=? ARAddr.GCAddress addr + Z.shiftr data 8)
          then u8 (Z.land data 0xFF) else mem_read_u8 (memory w) a) w.
Proof.
  intros Hsize Hdata Hlo Hhi. unfold Subtype_RamWriteAndFill. rewrite Hsize.
  assert (Hrep : 0 <= Z.shiftr data 8) by (apply Z.shiftr_nonneg; exact Hdata).
  wp_steps.
  eapply wp_mono; [apply fill8_loop; rewrite ?Z2Nat.id; lia|].
  cbv beta. intros _ w' Hfill. wp_steps. split; [reflexivity|]. intros a.
  match goal with H : memory _ = memory w' |- _ => rewrite H end.
  rewrite Hfill. rewrite Z2Nat.id by lia.
  match goal with H : memory _ = memory w |- _ => rewrite H end.
  replace (u32 a <? ARAddr.GCAddress addr + (Z.shiftr data 8 + 1))
    with (u32 a <=? ARAddr.GCAddress addr + Z.shiftr data 8); [reflexivity|].
  destruct (Z.leb_spec (u32 a) (ARAddr.GCAddress addr + Z.shiftr data 8));
    symmetry; [apply Z.ltb_lt|apply Z.ltb_ge]; lia.
Qed.

(** C5 as the code has it (S1): the byte 0xFF is written [0x000A00 + 1]
    times from the effective address 0x80100003 of the command word on.
    After one run every byte at 0x80100003 through 0x80100A03 is 0xFF and
    every other byte of guest memory is unchanged. *)
Theorem fill8_S1 (w : World) (a : Z) :
  let r := run S1_code w in
  fst r = true /\
  mem_read_u8 (memory (snd r)) a
  = if (0x80100003 <=? u32 a) && (u32 a <=? 0x80100A03)
    then 0xFF else mem_read_u8 (memory w) a.
Proof.
  cbv zeta.
  change (wp (run S1_code)
            (fun ok w' => ok = true /\
               mem_read_u8 (memory w') a
               = if (0x80100003 <=? u32 a) && (u32 a <=? 0x80100A03)
                 then 0xFF else mem_read_u8 (memory w) a) w).
  apply (wp_run_ram_write MAX_LOGLEVEL LINFO float_add S1_code (mkAREntry 0x00100003 0x000A00FF));
    [reflexivity|reflexivity|discriminate|reflexivity|reflexivity|].
  intros w' Hm. eapply wp_mono.
  - apply RamWriteAndFill_8; [reflexivity|discriminate|discriminate|reflexivity].
  - cbv beta. intros ok w'' [-> Hmem]. split; [reflexivity|].
    rewrite Hmem, Hm. reflexivity.
Qed.

End FillProperties.

(** ** The code store *)

Lemma wp_any {A : Type} (c : M A) (Q : A -> World -> Prop) (w : World) :
  (forall a w', Q a w') -> wp c Q w.
Proof. intros H. apply H. Qed.

Lemma all_active_filter (codes : list ARCode) :
  all_active (filter (fun code => active code = true) codes).
Proof.
  apply Forall_forall. intros code Hin.
  apply list_elem_of_filter in Hin. apply Hin.
Qed.

Lemma all_active_sublist (kept codes : list ARCode) :
  kept `sublist_of` codes -> all_active codes -> all_active kept.
Proof.
  intros Hsub Hall. apply Forall_forall. intros code Hin.
  eapply (proj1 (Forall_forall _ _) Hall), elem_of_sublist; eassumption.
Qed.

Lemma ApplyCodes_store (codes : list ARCode) (w : World) :
  s_active_codes (snd (ApplyCodes codes w))
  = if bEnableCheats w then filter (fun code => active code = true) codes
    else s_active_codes w.
Proof. unfold ApplyCodes. destruct (bEnableCheats w); reflexivity. Qed.

Lemma AddCode_store (code : ARCode) (w : World) :
  s_active_codes (snd (AddCode code w))
  = if bEnableCheats w && active code then s_active_codes w ++ [code]
    else s_active_codes w.
Proof.
  unfold AddCode. destruct (bEnableCheats w); [|reflexivity].
  destruct (active code); reflexivity.
Qed.

Section StoreProperties.

Variables MAX_LOGLEVEL LINFO : Z.
Variable float_add : Z -> Z -> Z.

(** The pass keeps a sublist of the codes it is given: it drops codes, and
    neither adds, reorders nor changes one. *)
Lemma remove_if_sublist (codes : list ARCode) (w : World) :
  wp (RunAllActive_remove_if MAX_LOGLEVEL LINFO float_add codes)
     (fun kept _ => kept `sublist_of` codes) w.
Proof.
  revert w. induction codes as [|code rest IH]; intros w.
  - apply wp_ret. constructor.
  - cbn [RunAllActive_remove_if]. apply wp_bind.
    apply wp_any. intros success w1. apply wp_bind.
    apply wp_any. intros _ w2. apply wp_bind.
    eapply wp_mono; [apply IH|].
    cbv beta. intros kept w3 Hsub. apply wp_ret.
    destruct success; cbn [negb]; constructor; exact Hsub.
Qed.

Lemma RunAllActive_store (w : World) :
  s_active_codes (snd (RunAllActive MAX_LOGLEVEL LINFO float_add w))
    `sublist_of` s_active_codes w.
Proof.
  unfold RunAllActive. destruct (bEnableCheats w); cbn [negb snd]; [|reflexivity].
  cbn [with_disable_logging with_active_codes s_active_codes].
  apply remove_if_sublist.
Qed.

Lemma do_store_op_all_active (op : StoreOp) (w : World) :
  all_active (s_active_codes w) ->
  all_active (s_active_codes (snd (do_store_op MAX_LOGLEVEL LINFO float_add op w))).
Proof.
  intros Hall. destruct op as [codes|code|game region|]; cbn [do_store_op].
  - rewrite ApplyCodes_store. destruct (bEnableCheats w);
      [apply all_active_filter|exact Hall].
  - rewrite AddCode_store.
    destruct (bEnableCheats w); cbn [andb]; [|exact Hall].
    destruct (active code) eqn:E; [|exact Hall].
    apply Forall_app. split; [exact Hall|]. constructor; [exact E|constructor].
  - unfold ActivateARCodesFor. rewrite ApplyCodes_store.
    destruct (bEnableCheats w); [apply all_active_filter|exact Hall].
  - eapply all_active_sublist; [apply RunAllActive_store|exact Hall].
Qed.

(** C10: every code held in the store has its active flag set, and every
    store operation keeps it so.  With cheats enabled, [ApplyCodes] leaves
    in the store exactly the codes of its argument whose flag is set, in
    their order, and [AddCode] appends its code when its flag is set and
    leaves the store alone otherwise; the tick leaves a sublist of the
    store (it drops codes, and neither adds nor changes one); so after any
    sequence of store operations every member of the store is active. *)
Theorem store_holds_active_codes (w : World) :
  all_active (s_active_codes w) ->
  (forall codes,
     let w' := snd (ApplyCodes codes w) in
     all_active (s_active_codes w') /\
     (bEnableCheats w = true ->
      s_active_codes w' = filter (fun code => active code = true) codes)) /\
  (forall code,
     let w' := snd (AddCode code w) in
     all_active (s_active_codes w') /\
     (bEnableCheats w = true ->
      s_active_codes w' = if active code then s_active_codes w ++ [code]
                          else s_active_codes w)) /\
  (let w' := snd (RunAllActive MAX_LOGLEVEL LINFO float_add w) in
   all_active (s_active_codes w') /\
   s_active_codes w' `sublist_of` s_active_codes w) /\
  (forall ops,
     all_active (s_active_codes (do_store_ops MAX_LOGLEVEL LINFO float_add ops w))).
Proof.
  intros Hall. split; [|split; [|split]].
  - intros l. split.
    + apply (do_store_op_all_active (Op_ApplyCodes l) w Hall).
    + intros Hen. rewrite ApplyCodes_store, Hen. reflexivity.
  - intros code. split.
    + apply (do_store_op_all_active (Op_AddCode code) w Hall).
    + intros Hen. rewrite AddCode_store, Hen. reflexivity.
  - split.
    + apply (do_store_op_all_active Op_RunAllActive w Hall).
    + apply RunAllActive_store.
  - intros l. revert w Hall. induction l as [|op l IH]; intros w Hall.
    + exact Hall.
    + cbn [do_store_ops foldl]. apply IH. apply do_store_op_all_active, Hall.
Qed.

End StoreProperties.

(** ** Determinism of the tick *)

Lemma md_ret {A : Type} (a : A) : memory_determined (ret a) (ret a).
Proof. intros w1 w2 Hm. split; [reflexivity|exact Hm]. Qed.

Lemma md_bind {A B : Type} (c1 c2 : M A) (k1 k2 : A -> M B) :
  memory_determined c1 c2 ->
  (forall a, memory_determined (k1 a) (k2 a)) ->
  memory_determined (bind c1 k1) (bind c2 k2).
Proof.
  intros Hc Hk w1 w2 Hm. rewrite !bind_unfold.
  destruct (Hc w1 w2 Hm) as [Ha Hm']. rewrite Ha. apply Hk, Hm'.
Qed.

(** A first computation that leaves memory alone and whose value the rest
    uses in no way that matters (a name that goes into a message). *)
Lemma md_bind_silent {A B : Type} (c1 c2 : M A) (k1 k2 : A -> M B) :
  memory_silent c1 -> memory_silent c2 ->
  (forall a1 a2, memory_determined (k1 a1) (k2 a2)) ->
  memory_determined (bind c1 k1) (bind c2 k2).
Proof.
  intros H1 H2 Hk w1 w2 Hm. rewrite !bind_unfold.
  apply Hk. rewrite H1, H2. exact Hm.
Qed.

Lemma md_unit (c1 c2 : M unit) :
  memory_silent c1 -> memory_silent c2 -> memory_determined c1 c2.
Proof.
  intros H1 H2 w1 w2 Hm. split.
  - destruct (fst (c1 w1)), (fst (c2 w2)). reflexivity.
  - rewrite H1, H2. exact Hm.
Qed.

Lemma LogInfo_silent (MAX_LOGLEVEL LINFO : Z) (format : string) (args : list FmtArg) :
  memory_silent (LogInfo MAX_LOGLEVEL LINFO format args).
Proof. intros w. apply LogInfo_memory. Qed.

Lemma PanicAlertT_silent (format : string) (args : list FmtArg) :
  memory_silent (PanicAlertT format args).
Proof. intros w. reflexivity. Qed.

Lemma current_code_name_silent : memory_silent current_code_name.
Proof. intros w. reflexivity. Qed.

Lemma md_HostRead_U8 (address : Z) :
  memory_determined (HostRead_U8 address) (HostRead_U8 address).
Proof. intros w1 w2 Hm. cbn. rewrite Hm. split; reflexivity. Qed.

Lemma md_HostRead_U16 (address : Z) :
  memory_determined (HostRead_U16 address) (HostRead_U16 address).
Proof. intros w1 w2 Hm. cbn. rewrite Hm. split; reflexivity. Qed.

Lemma md_HostRead_U32 (address : Z) :
  memory_determined (HostRead_U32 address) (HostRead_U32 address).
Proof. intros w1 w2 Hm. cbn. rewrite Hm. split; reflexivity. Qed.

Lemma md_HostWrite_U8 (var address : Z) :
  memory_determined (HostWrite_U8 var address) (HostWrite_U8 var address).
Proof. intros w1 w2 Hm. cbn. rewrite Hm. split; reflexivity. Qed.

Lemma md_HostWrite_U16 (var address : Z) :
  memory_determined (HostWrite_U16 var address) (HostWrite_U16 var address).
Proof. intros w1 w2 Hm. cbn. rewrite Hm. split; reflexivity. Qed.

Lemma md_HostWrite_U32 (var address : Z) :
  memory_determined (HostWrite_U32 var address) (HostWrite_U32 var address).
Proof. intros w1 w2 Hm. cbn. rewrite Hm. split; reflexivity. Qed.

Lemma md_for_loop (n : nat) (i : Z) (body1 body2 : Z -> M unit) :
  (forall j, memory_determined (body1 j) (body2 j)) ->
  memory_determined (for_loop n i body1) (for_loop n i body2).
Proof.
  intros Hbody. revert i. induction n as [|n IH]; intros i.
  - apply md_ret.
  - cbn [for_loop]. apply md_bind; [apply Hbody|intros _; apply IH].
Qed.

(** Takes a goal [memory_determined c1 c2], the two sides the same code
    (up to what is logged), apart. *)
Ltac md_step :=
  lazymatch goal with
  | |- memory_determined (ret _) (ret _) => apply md_ret
  | |- memory_determined (bind current_code_name _) (bind current_code_name _) =>
      apply md_bind_silent;
      [apply current_code_name_silent|apply current_code_name_silent|intros ? ?]
  | |- memory_determined (bind _ _) (bind _ _) => apply md_bind; [|intros ?]
  | |- memory_determined (LogInfo _ _ _ _) (LogInfo _ _ _ _) =>
      apply md_unit; apply LogInfo_silent
  | |- memory_determined (PanicAlertT _ _) (PanicAlertT _ _) =>
      apply md_unit; apply PanicAlertT_silent
  | |- memory_determined (HostRead_U8 _) _ => apply md_HostRead_U8
  | |- memory_determined (HostRead_U16 _) _ => apply md_HostRead_U16
  | |- memory_determined (HostRead_U32 _) _ => apply md_HostRead_U32
  | |- memory_determined (HostWrite_U8 _ _) _ => apply md_HostWrite_U8
  | |- memory_determined (HostWrite_U16 _ _) _ => apply md_HostWrite_U16
  | |- memory_determined (HostWrite_U32 _ _) _ => apply md_HostWrite_U32
  | |- memory_determined (for_loop _ _ _) (for_loop _ _ _) => apply md_for_loop; intros ?
  | |- memory_determined (match ?x with _ => _ end) _ => destruct x
  end.

Ltac md_auto := repeat (md_step; cbv beta).

Section Determinism.

(** Two builds that differ in their log levels. *)
Variables MAX_LOGLEVEL LINFO MAX_LOGLEVEL' LINFO' : Z.
Variable float_add : Z -> Z -> Z.

Lemma md_RamWriteAndFill (addr data : Z) :
  memory_determined (Subtype_RamWriteAndFill MAX_LOGLEVEL LINFO addr data)
                    (Subtype_RamWriteAndFill MAX_LOGLEVEL' LINFO' addr data).
Proof. unfold Subtype_RamWriteAndFill. md_auto. Qed.

Lemma md_WriteToPointer (addr data : Z) :
  memory_determined (Subtype_WriteToPointer MAX_LOGLEVEL LINFO addr data)
                    (Subtype_WriteToPointer MAX_LOGLEVEL' LINFO' addr data).
Proof. unfold Subtype_WriteToPointer. md_auto. Qed.

Lemma md_AddCode (addr data : Z) :
  memory_determined (Subtype_AddCode MAX_LOGLEVEL LINFO float_add addr data)
                    (Subtype_AddCode MAX_LOGLEVEL' LINFO' float_add addr data).
Proof. unfold Subtype_AddCode. md_auto. Qed.

Lemma md_MasterCode (addr data : Z) :
  memory_determined (Subtype_MasterCodeAndWriteToCCXXXXXX addr data)
                    (Subtype_MasterCodeAndWriteToCCXXXXXX addr data).
Proof. unfold Subtype_MasterCodeAndWriteToCCXXXXXX. md_auto. Qed.

Lemma md_FillAndSlide_loop8 (n : nat) (addr_incr val_incr val curr_addr : Z) :
  memory_determined
    (FillAndSlide_loop8 MAX_LOGLEVEL LINFO n addr_incr val_incr val curr_addr)
    (FillAndSlide_loop8 MAX_LOGLEVEL' LINFO' n addr_incr val_incr val curr_addr).
Proof.
  revert val curr_addr. induction n as [|n IH]; intros val curr_addr;
    cbn [FillAndSlide_loop8]; md_auto. apply IH.
Qed.

Lemma md_FillAndSlide_loop16 (n : nat) (addr_incr val_incr val curr_addr : Z) :
  memory_determined
    (FillAndSlide_loop16 MAX_LOGLEVEL LINFO n addr_incr val_incr val curr_addr)
    (FillAndSlide_loop16 MAX_LOGLEVEL' LINFO' n addr_incr val_incr val curr_addr).
Proof.
  revert val curr_addr. induction n as [|n IH]; intros val curr_addr;
    cbn [FillAndSlide_loop16]; md_auto. apply IH.
Qed.

Lemma md_FillAndSlide_loop32 (n : nat) (addr_incr val_incr val curr_addr : Z) :
  memory_determined
    (FillAndSlide_loop32 MAX_LOGLEVEL LINFO n addr_incr val_incr val curr_addr)
    (FillAndSlide_loop32 MAX_LOGLEVEL' LINFO' n addr_incr val_incr val curr_addr).
Proof.
  revert val curr_addr. induction n as [|n IH]; intros val curr_addr;
    cbn [FillAndSlide_loop32]; md_auto. apply IH.
Qed.

Lemma md_FillAndSlide (val_last addr data : Z) :
  memory_determined (ZeroCode_FillAndSlide MAX_LOGLEVEL LINFO val_last addr data)
                    (ZeroCode_FillAndSlide MAX_LOGLEVEL' LINFO' val_last addr data).
Proof.
  unfold ZeroCode_FillAndSlide. cbv zeta.
  repeat (lazymatch goal with
          | |- memory_determined (FillAndSlide_loop8 _ _ _ _ _ _ _) _ =>
              apply md_FillAndSlide_loop8
          | |- memory_determined (FillAndSlide_loop16 _ _ _ _ _ _ _) _ =>
              apply md_FillAndSlide_loop16
          | |- memory_determined (FillAndSlide_loop32 _ _ _ _ _ _ _) _ =>
              apply md_FillAndSlide_loop32
          | _ => md_step
          end; cbv beta).
Qed.

Lemma md_MemoryCopy (val_last addr data : Z) :
  memory_determined (ZeroCode_MemoryCopy MAX_LOGLEVEL LINFO val_last addr data)
                    (ZeroCode_MemoryCopy MAX_LOGLEVEL' LINFO' val_last addr data).
Proof. unfold ZeroCode_MemoryCopy, MemoryCopy_loop. md_auto. Qed.

Lemma md_NormalCode (addr data : Z) :
  memory_determined (NormalCode MAX_LOGLEVEL LINFO float_add addr data)
                    (NormalCode MAX_LOGLEVEL' LINFO' float_add addr data).
Proof.
  unfold NormalCode.
  repeat (lazymatch goal with
          | |- memory_determined (Subtype_RamWriteAndFill _ _ _ _) _ =>
              apply md_RamWriteAndFill
          | |- memory_determined (Subtype_WriteToPointer _ _ _ _) _ =>
              apply md_WriteToPointer
          | |- memory_determined (Subtype_AddCode _ _ _ _ _) _ => apply md_AddCode
          | |- memory_determined (Subtype_MasterCodeAndWriteToCCXXXXXX _ _) _ =>
              apply md_MasterCode
          | _ => md_step
          end; cbv beta).
Qed.

Lemma md_CompareValues (val1 val2 type : Z) :
  memory_determined (CompareValues MAX_LOGLEVEL LINFO val1 val2 type)
                    (CompareValues MAX_LOGLEVEL' LINFO' val1 val2 type).
Proof. unfold CompareValues. md_auto. Qed.

Lemma md_ConditionalCode (addr data pSkipCount : Z) :
  memory_determined (ConditionalCode MAX_LOGLEVEL LINFO addr data pSkipCount)
                    (ConditionalCode MAX_LOGLEVEL' LINFO' addr data pSkipCount).
Proof.
  unfold ConditionalCode, ConditionalCode_compare. cbv zeta.
  md_step; [md_step|]. cbv beta. md_step; [md_step|]. cbv beta.
  destruct (size_cases addr) as [-> | [-> | [-> | ->]]];
    repeat (lazymatch goal with
            | |- memory_determined (CompareValues _ _ _ _ _) _ => apply md_CompareValues
            | _ => md_step
            end; cbv beta).
Qed.

Lemma md_entry (l : Locals) (entry : AREntry) :
  memory_determined (RunCodeLocked_entry MAX_LOGLEVEL LINFO float_add l entry)
                    (RunCodeLocked_entry MAX_LOGLEVEL' LINFO' float_add l entry).
Proof.
  unfold RunCodeLocked_entry. cbv zeta.
  repeat (lazymatch goal with
          | |- memory_determined (ZeroCode_FillAndSlide _ _ _ _ _) _ =>
              apply md_FillAndSlide
          | |- memory_determined (ZeroCode_MemoryCopy _ _ _ _ _) _ => apply md_MemoryCopy
          | |- memory_determined (NormalCode _ _ _ _ _) _ => apply md_NormalCode
          | |- memory_determined (ConditionalCode _ _ _ _ _) _ => apply md_ConditionalCode
          | _ => md_step
          end; cbv beta).
Qed.

Lemma md_loop (l : Locals) (entries : list AREntry) :
  memory_determined (RunCodeLocked_loop MAX_LOGLEVEL LINFO float_add l entries)
                    (RunCodeLocked_loop MAX_LOGLEVEL' LINFO' float_add l entries).
Proof.
  revert l. induction entries as [|entry rest IH]; intros l; cbn [RunCodeLocked_loop].
  - apply md_ret.
  - apply md_bind; [apply md_entry|]. intros [l'|b]; [apply IH|apply md_ret].
Qed.

Lemma md_RunCodeLocked (arcode : ARCode) :
  memory_determined (RunCodeLocked MAX_LOGLEVEL LINFO float_add arcode)
                    (RunCodeLocked MAX_LOGLEVEL' LINFO' float_add arcode).
Proof.
  unfold RunCodeLocked. cbv zeta.
  apply md_bind; [apply md_unit; intros w; reflexivity|]. intros _.
  md_step; [md_step|]. md_step; [md_step|]. apply md_loop.
Qed.

Lemma md_remove_if (l : list ARCode) :
  memory_determined (RunAllActive_remove_if MAX_LOGLEVEL LINFO float_add l)
                    (RunAllActive_remove_if MAX_LOGLEVEL' LINFO' float_add l).
Proof.
  induction l as [|code rest IH]; cbn [RunAllActive_remove_if].
  - apply md_ret.
  - apply md_bind; [apply md_RunCodeLocked|]. intros success.
    md_step; [md_step|]. apply md_bind; [apply IH|]. intros kept. apply md_ret.
Qed.

(** C8: the pass over the active codes is a function of the codes and of
    guest memory.  Run on the same codes from two worlds with the same
    guest memory, whatever their logs, logging flags, alerts and current
    code are (and whatever the log level the program was built with), it
    keeps the same codes and leaves the same guest memory; so does the
    whole tick when the two worlds also agree on the store and on the
    cheats flag. *)
Theorem tick_deterministic :
  (forall l : list ARCode,
     memory_determined (RunAllActive_remove_if MAX_LOGLEVEL LINFO float_add l)
                       (RunAllActive_remove_if MAX_LOGLEVEL' LINFO' float_add l)) /\
  (forall w1 w2 : World,
     memory w1 = memory w2 ->
     s_active_codes w1 = s_active_codes w2 ->
     bEnableCheats w1 = bEnableCheats w2 ->
     memory (snd (RunAllActive MAX_LOGLEVEL LINFO float_add w1))
     = memory (snd (RunAllActive MAX_LOGLEVEL' LINFO' float_add w2)) /\
     s_active_codes (snd (RunAllActive MAX_LOGLEVEL LINFO float_add w1))
     = s_active_codes (snd (RunAllActive MAX_LOGLEVEL' LINFO' float_add w2))).
Proof.
  split; [exact md_remove_if|].
  intros w1 w2 Hm Hc Hen. unfold RunAllActive. rewrite Hen, Hc.
  destruct (bEnableCheats w2); cbn [negb snd]; [|split; assumption].
  cbn [with_disable_logging with_active_codes memory s_active_codes].
  destruct (md_remove_if (s_active_codes w2) w1 w2 Hm) as [Hk Hm'].
  split; [exact Hm'|exact Hk].
Qed.

End Determinism.

(** * The parser *)

(** ** Hexadecimal words *)

Lemma hex_digit_value_range (c : ascii) (d : Z) :
  hex_digit_value c = Some d -> 0 <= d < 16.
Proof.
  unfold hex_digit_value.
  set (n := Z.of_N (N_of_ascii c)).
  destruct ((48 <=? n) && (n <=? 57)) eqn:E1.
  { intros [= <-]. apply andb_prop in E1. lia. }
  destruct ((65 <=? n) && (n <=? 70)) eqn:E2.
  { intros [= <-]. apply andb_prop in E2. lia. }
  destruct ((97 <=? n) && (n <=? 102)) eqn:E3; [|discriminate].
  intros [= <-]. apply andb_prop in E3. lia.
Qed.

Lemma hex_digit_value_hex_digit (d : Z) :
  0 <= d < 16 -> hex_digit_value (hex_digit d) = Some d.
Proof.
  intros H.
  assert (C : d = 0 \/ d = 1 \/ d = 2 \/ d = 3 \/ d = 4 \/ d = 5 \/ d = 6 \/ d = 7 \/
              d = 8 \/ d = 9 \/ d = 10 \/ d = 11 \/ d = 12 \/ d = 13 \/ d = 14 \/ d = 15)
    by lia.
  repeat (destruct C as [-> | C]; [reflexivity|]). subst d. reflexivity.
Qed.

Lemma hex_digit_not (c : ascii) (d : Z) :
  0 <= d < 16 -> (c = " " \/ c = "$")%char -> hex_digit d <> c.
Proof.
  intros H Hc.
  assert (C : d = 0 \/ d = 1 \/ d = 2 \/ d = 3 \/ d = 4 \/ d = 5 \/ d = 6 \/ d = 7 \/
              d = 8 \/ d = 9 \/ d = 10 \/ d = 11 \/ d = 12 \/ d = 13 \/ d = 14 \/ d = 15)
    by lia.
  destruct Hc as [-> | ->];
    repeat (destruct C as [-> | C]; [discriminate|]); subst d; discriminate.
Qed.

Lemma parse_hex_digits_nonneg (digits : string) (acc v : Z) :
  0 <= acc -> parse_hex_digits digits acc = Some v -> 0 <= v.
Proof.
  revert acc. induction digits as [|c rest IH]; intros acc Hacc; cbn [parse_hex_digits].
  - intros [= <-]. exact Hacc.
  - destruct (hex_digit_value c) as [d|] eqn:E; [|discriminate].
    apply hex_digit_value_range in E. apply IH. lia.
Qed.

(** A word [TryParse] gives is an unsigned 32-bit word. *)
Lemma TryParse_range (str : string) (v : Z) :
  TryParse str = Some v -> 0 <= v < 2 ^ 32.
Proof.
  unfold TryParse.
  destruct str as [|c0 [|c1 [|c digits]]]; try discriminate.
  destruct (Ascii.eqb c0 "0" && Ascii.eqb c1 "x"); [|discriminate].
  destruct (parse_hex_digits (String c digits) 0) as [x|] eqn:E; [|discriminate].
  destruct (Z.ltb_spec x (2 ^ 32)); [|discriminate].
  intros [= <-]. split; [|assumption].
  eapply parse_hex_digits_nonneg; [|exact E]. lia.
Qed.

Lemma string_append_cons (c : ascii) (s1 s2 : string) :
  (String c s1 ++ s2 = String c (s1 ++ s2))%string.
Proof. reflexivity. Qed.

Lemma string_append_assoc (s1 s2 s3 : string) :
  ((s1 ++ s2) ++ s3 = s1 ++ (s2 ++ s3))%string.
Proof.
  induction s1 as [|c rest IH]; [reflexivity|].
  rewrite !string_append_cons, IH. reflexivity.
Qed.

Lemma hex_digits_app (n : nat) (v : Z) (acc : string) :
  hex_digits n v acc = (hex_digits n v EmptyString ++ acc)%string.
Proof.
  revert v acc. induction n as [|n IH]; intros v acc; cbn [hex_digits].
  - reflexivity.
  - rewrite (IH (v / 16) (String _ acc)), (IH (v / 16) (String _ EmptyString)).
    rewrite string_append_assoc. reflexivity.
Qed.

Lemma hex_digits_length (n : nat) (v : Z) (acc : string) :
  String.length (hex_digits n v acc) = (n + String.length acc)%nat.
Proof.
  revert v acc. induction n as [|n IH]; intros v acc; cbn [hex_digits].
  - reflexivity.
  - rewrite IH. cbn [String.length]. lia.
Qed.

Lemma hex_digits_chars (P : ascii -> Prop) (n : nat) (v : Z) (acc : string) :
  (forall d, 0 <= d < 16 -> P (hex_digit d)) ->
  all_chars P acc -> all_chars P (hex_digits n v acc).
Proof.
  intros HP. revert v acc. induction n as [|n IH]; intros v acc Hacc; cbn [hex_digits].
  - exact Hacc.
  - apply IH. split; [|exact Hacc]. apply HP. apply Z.mod_pos_bound. lia.
Qed.

Lemma parse_hex_digits_hex_digits (n : nat) (v x : Z) (acc : string) :
  parse_hex_digits (hex_digits n v acc) x
  = parse_hex_digits acc (x * 16 ^ Z.of_nat n + v mod 16 ^ Z.of_nat n).
Proof.
  revert v x acc. induction n as [|n IH]; intros v x acc; cbn [hex_digits].
  - change (16 ^ Z.of_nat 0) with 1. rewrite Z.mod_1_r. f_equal. lia.
  - rewrite IH. cbn [parse_hex_digits].
    rewrite hex_digit_value_hex_digit by (apply Z.mod_pos_bound; lia).
    f_equal.
    replace (Z.of_nat (S n)) with (1 + Z.of_nat n) by lia.
    rewrite Z.pow_add_r by lia. change (16 ^ 1) with 16.
    rewrite (Z.rem_mul_r v 16 (16 ^ Z.of_nat n)) by lia. lia.
Qed.

(** Reading back the eight digits written for an unsigned 32-bit word. *)
Lemma TryParse_hex_digits (v : Z) :
  0 <= v < 2 ^ 32 -> TryParse ("0x" ++ hex_digits 8 v EmptyString) = Some v.
Proof.
  intros Hv.
  assert (E : parse_hex_digits (hex_digits 8 v EmptyString) 0 = Some v).
  { rewrite parse_hex_digits_hex_digits. cbn [parse_hex_digits]. f_equal.
    change (16 ^ Z.of_nat 8) with (2 ^ 32). rewrite Z.mod_small by lia. lia. }
  pose proof (hex_digits_length 8 v EmptyString) as Hlen.
  destruct (hex_digits 8 v EmptyString) as [|c digits] eqn:Ed; [discriminate Hlen|].
  change ("0x" ++ String c digits)%string with (String "0" (String "x" (String c digits))).
  cbn [TryParse Ascii.eqb Bool.eqb andb].
  rewrite E. destruct (Z.ltb_spec v (2 ^ 32)); [reflexivity|lia].
Qed.

(** ** Splitting lines *)

Lemma SplitString_no_delim (str : string) (delim : ascii) :
  all_chars (fun c => c <> delim) str ->
  SplitString str delim = match str with EmptyString => [] | _ => [str] end.
Proof.
  induction str as [|c rest IH]; intros H; cbn [SplitString].
  - reflexivity.
  - destruct H as [Hc Hrest].
    destruct (Ascii.eqb_spec c delim); [contradiction|].
    rewrite (IH Hrest). destruct rest; reflexivity.
Qed.

Lemma SplitString_app_delim (s1 s2 : string) (delim : ascii) :
  all_chars (fun c => c <> delim) s1 ->
  SplitString (s1 ++ String delim s2) delim = s1 :: SplitString s2 delim.
Proof.
  induction s1 as [|c rest IH]; intros H.
  - change (SplitString (String delim s2) delim = EmptyString :: SplitString s2 delim).
    cbn [SplitString]. rewrite Ascii.eqb_refl. reflexivity.
  - rewrite string_append_cons. cbn [SplitString]. destruct H as [Hc Hrest].
    destruct (Ascii.eqb_spec c delim); [contradiction|].
    rewrite (IH Hrest). reflexivity.
Qed.

Lemma format_08X_08X_app (a v : Z) :
  format_08X_08X a v
  = (hex_digits 8 a EmptyString ++ String " " (hex_digits 8 v EmptyString))%string.
Proof. unfold format_08X_08X. apply hex_digits_app. Qed.

(** The line written for an op has the shape of a decrypted code. *)
Lemma plain_pieces_format (a v : Z) :
  plain_pieces (format_08X_08X a v)
  = Some (hex_digits 8 a EmptyString, hex_digits 8 v EmptyString).
Proof.
  unfold plain_pieces. rewrite format_08X_08X_app.
  assert (Hns : forall x, all_chars (fun c => c <> " "%char) (hex_digits 8 x EmptyString)).
  { intros x. apply hex_digits_chars; [|exact I].
    intros d Hd. apply hex_digit_not; [exact Hd|left; reflexivity]. }
  rewrite SplitString_app_delim by apply Hns.
  rewrite SplitString_no_delim by apply Hns.
  pose proof (hex_digits_length 8 v EmptyString) as Hlen.
  destruct (hex_digits 8 v EmptyString) as [|c digits] eqn:Ed; [discriminate Hlen|].
  rewrite <- Ed. rewrite !hex_digits_length. reflexivity.
Qed.

(** It does not start with [$]. *)
Lemma format_08X_08X_head (a v : Z) :
  exists c rest, format_08X_08X a v = String c rest /\ Ascii.eqb c "$" = false.
Proof.
  rewrite format_08X_08X_app.
  assert (Hnd : all_chars (fun c => c <> "$"%char) (hex_digits 8 a EmptyString)).
  { apply hex_digits_chars; [|exact I].
    intros d Hd. apply hex_digit_not; [exact Hd|right; reflexivity]. }
  pose proof (hex_digits_length 8 a EmptyString) as Hlen.
  destruct (hex_digits 8 a EmptyString) as [|c digits]; [discriminate Hlen|].
  exists c, (digits ++ String " " (hex_digits 8 v EmptyString))%string.
  split; [apply string_append_cons|]. destruct Hnd as [Hc _].
  destruct (Ascii.eqb_spec c "$"); [contradiction|reflexivity].
Qed.

(** ** Ini files *)

Lemma strip_trailing_step (c : ascii) (rest : string) :
  strip_trailing (String c rest)
  = match strip_trailing rest with
    | EmptyString => if is_space c then EmptyString else String c EmptyString
    | String _ _ as kept => String c kept
    end.
Proof. reflexivity. Qed.

Lemma strip_trailing_cons (c : ascii) (s : string) :
  is_space c = false -> strip_trailing (String c s) = String c (strip_trailing s).
Proof.
  intros H. rewrite strip_trailing_step.
  destruct (strip_trailing s); [rewrite H|]; reflexivity.
Qed.

Lemma strip_trailing_idem (s : string) :
  strip_trailing (strip_trailing s) = strip_trailing s.
Proof.
  induction s as [|c rest IH]; [reflexivity|].
  rewrite strip_trailing_step.
  destruct (strip_trailing rest) as [|c' kept].
  - destruct (is_space c) eqn:Ec; [reflexivity|].
    rewrite strip_trailing_cons by exact Ec. reflexivity.
  - rewrite strip_trailing_step, IH. reflexivity.
Qed.

(** What is left of a line without its leading whitespace begins with
    another character. *)
Lemma strip_leading_head (s : string) (c : ascii) (rest : string) :
  strip_leading s = String c rest -> is_space c = false.
Proof.
  induction s as [|c0 s IH]; cbn [strip_leading]; [discriminate|].
  destruct (is_space c0) eqn:E0; [exact IH|].
  intros [= <- _]. exact E0.
Qed.

Lemma strip_leading_cons (c : ascii) (s : string) :
  is_space c = false -> strip_leading (String c s) = String c s.
Proof. intros H. cbn [strip_leading]. rewrite H. reflexivity. Qed.

(** Stripping a stripped line changes nothing. *)
Lemma StripSpaces_idem (str : string) :
  StripSpaces (StripSpaces str) = StripSpaces str.
Proof.
  unfold StripSpaces.
  destruct (strip_leading str) as [|c rest] eqn:E; [reflexivity|].
  pose proof (strip_leading_head str c rest E) as Hc.
  rewrite strip_trailing_cons by exact Hc.
  rewrite strip_leading_cons by exact Hc.
  rewrite strip_trailing_cons by exact Hc.
  rewrite strip_trailing_idem. reflexivity.
Qed.

(** A name line loses the whitespace that ends the name, and nothing
    else. *)
Lemma StripSpaces_name_line (n : string) :
  StripSpaces (String "$" n) = String "$" (strip_trailing n).
Proof.
  unfold StripSpaces. rewrite strip_leading_cons by reflexivity.
  apply strip_trailing_cons. reflexivity.
Qed.

Lemma strip_trailing_all_chars (s : string) :
  all_chars (fun c => is_space c = false) s -> strip_trailing s = s.
Proof.
  induction s as [|c rest IH]; [reflexivity|].
  intros [Hc Hrest]. rewrite strip_trailing_cons by exact Hc.
  rewrite IH by exact Hrest. reflexivity.
Qed.

Lemma strip_trailing_app (s1 s2 : string) :
  strip_trailing s2 = s2 -> s2 <> EmptyString ->
  strip_trailing (s1 ++ s2) = (s1 ++ s2)%string.
Proof.
  intros H2 Hne. induction s1 as [|c rest IH]; [exact H2|].
  rewrite string_append_cons, strip_trailing_step, IH.
  destruct (rest ++ s2)%string as [|c' kept] eqn:E; [|reflexivity].
  destruct rest; [contradiction|discriminate E].
Qed.

Lemma hex_digit_no_space (d : Z) : 0 <= d < 16 -> is_space (hex_digit d) = false.
Proof.
  intros H.
  assert (C : d = 0 \/ d = 1 \/ d = 2 \/ d = 3 \/ d = 4 \/ d = 5 \/ d = 6 \/ d = 7 \/
              d = 8 \/ d = 9 \/ d = 10 \/ d = 11 \/ d = 12 \/ d = 13 \/ d = 14 \/ d = 15)
    by lia.
  repeat (destruct C as [-> | C]; [reflexivity|]). subst d. reflexivity.
Qed.

(** The line written for an op has no whitespace to lose. *)
Lemma StripSpaces_format (a v : Z) :
  StripSpaces (format_08X_08X a v) = format_08X_08X a v.
Proof.
  assert (Hns : forall x, all_chars (fun c => is_space c = false)
                            (hex_digits 8 x EmptyString)).
  { intros x. apply hex_digits_chars; [|exact I]. apply hex_digit_no_space. }
  rewrite format_08X_08X_app. unfold StripSpaces.
  pose proof (Hns a) as Ha. pose proof (hex_digits_length 8 a EmptyString) as Hla.
  destruct (hex_digits 8 a EmptyString) as [|c digits]; [discriminate Hla|].
  destruct Ha as [Hc Ha]. rewrite string_append_cons.
  rewrite strip_leading_cons by exact Hc.
  rewrite <- string_append_cons.
  pose proof (hex_digits_length 8 v EmptyString) as Hlv.
  apply strip_trailing_app; [|discriminate].
  apply (strip_trailing_app (String " " EmptyString) (hex_digits 8 v EmptyString)).
  - apply strip_trailing_all_chars, Hns.
  - destruct (hex_digits 8 v EmptyString); [discriminate Hlv|discriminate].
Qed.

Lemma GetLines_SetLines (ini : IniFile) (section : string) (lines : list string) :
  GetLines (SetLines section lines ini) section = map StripSpaces lines.
Proof. unfold GetLines, SetLines. rewrite lookup_insert_eq. reflexivity. Qed.

Lemma GetLines_SetLines_ne (ini : IniFile) (section section' : string)
    (lines : list string) :
  section <> section' ->
  GetLines (SetLines section lines ini) section' = GetLines ini section'.
Proof.
  intros H. unfold GetLines, SetLines. rewrite lookup_insert_ne by exact H. reflexivity.
Qed.

(** The lines [GetLines] gives have no whitespace left to strip. *)
Lemma GetLines_stripped (ini : IniFile) (section : string) :
  Forall (fun line => StripSpaces line = line) (GetLines ini section).
Proof.
  unfold GetLines. induction (default [] (ini !! section)) as [|line rest IH];
    cbn [map]; constructor; [apply StripSpaces_idem|exact IH].
Qed.

(** The lines [SaveCodes] writes for a code come back as written when the
    name of the code does not end with whitespace. *)
Lemma StripSpaces_lines_of_code (code : ARCode) :
  strip_trailing (name code) = name code ->
  map StripSpaces (lines_of_code code) = lines_of_code code.
Proof.
  intros Hn. unfold lines_of_code. cbn [map].
  change ("$" ++ name code)%string with (String "$" (name code)).
  rewrite StripSpaces_name_line, Hn. f_equal.
  induction (ops code) as [|op rest IH]; [reflexivity|].
  cbn [map]. rewrite StripSpaces_format, IH. reflexivity.
Qed.

(** What [SaveCodes] leaves in the two sections of any ini file. *)
Lemma SaveCodes_lines (local_ini : IniFile) (l : list ARCode) :
  Forall (fun code => strip_trailing (name code) = name code) l ->
  GetLines (SaveCodes local_ini l) "ActionReplay"
  = concat (map lines_of_code (filter (fun code => user_defined code = true) l)).
Proof.
  intros H. unfold SaveCodes. cbv zeta. rewrite GetLines_SetLines.
  induction H as [|code rest Hc _ IH]; [reflexivity|].
  cbn [map concat]. rewrite map_app, IH.
  destruct (user_defined code) eqn:Eu.
  - rewrite filter_cons_True by exact Eu. cbn [map concat].
    f_equal. apply (StripSpaces_lines_of_code code Hc).
  - rewrite filter_cons_False by (rewrite Eu; discriminate). reflexivity.
Qed.

Lemma SaveCodes_enabled_lines (local_ini : IniFile) (l : list ARCode) :
  GetLines (SaveCodes local_ini l) "ActionReplay_Enabled"
  = concat (map (fun code =>
                   if active code then [String "$" (strip_trailing (name code))] else []) l).
Proof.
  unfold SaveCodes. cbv zeta. rewrite GetLines_SetLines_ne by discriminate.
  rewrite GetLines_SetLines.
  induction l as [|code rest IH]; [reflexivity|].
  cbn [map concat]. rewrite map_app, IH. f_equal.
  destruct (active code); [|reflexivity].
  cbn [map]. change ("$" ++ name code)%string with (String "$" (name code)).
  rewrite StripSpaces_name_line. reflexivity.
Qed.

(** ** The parser on the lines it wrote *)

Lemma name_of_line_name (n : string) : name_of_line ("$" ++ n)%string = Some n.
Proof. reflexivity. Qed.

Lemma enabled_names_of_app (l1 l2 : list string) :
  enabled_names_of (l1 ++ l2) = enabled_names_of l1 ∪ enabled_names_of l2.
Proof. unfold enabled_names_of. rewrite omap_app. apply list_to_set_app_L. Qed.

Lemma enabled_names_of_nil : enabled_names_of [] = ∅.
Proof. reflexivity. Qed.

Lemma enabled_names_of_name (n : string) :
  enabled_names_of [("$" ++ n)%string] = {[ n ]} ∪ ∅.
Proof. reflexivity. Qed.

(** The names enabled by the lines [SaveCodes] writes, as [GetLines] gives
    them: those of the active codes, without the whitespace that ends
    them. *)
Lemma enabled_names_of_saved (l : list ARCode) (n : string) :
  n ∈ enabled_names_of
        (concat (map (fun code =>
                        if active code then [String "$" (strip_trailing (name code))] else [])
                   l))
  <-> exists code, code ∈ l /\ active code = true /\ strip_trailing (name code) = n.
Proof.
  induction l as [|code rest IH]; cbn [map concat].
  - rewrite enabled_names_of_nil. split.
    + intros H. apply not_elem_of_empty in H. contradiction.
    + intros (code & H & _). inversion H.
  - rewrite enabled_names_of_app, elem_of_union, IH. split.
    + intros [H | (code' & Hin & Ha & Hn)].
      * destruct (active code) eqn:Ea.
        -- change (String "$" (strip_trailing (name code)))
             with ("$" ++ strip_trailing (name code))%string in H.
           rewrite enabled_names_of_name in H.
           apply elem_of_union in H as [H | H];
             [|apply not_elem_of_empty in H; contradiction].
           apply elem_of_singleton in H. exists code.
           split; [left|]. split; [exact Ea|]. symmetry. exact H.
        -- rewrite enabled_names_of_nil in H.
           apply not_elem_of_empty in H. contradiction.
      * exists code'. split; [right; exact Hin|]. split; assumption.
    + intros (code' & Hin & Ha & Hn). apply elem_of_cons in Hin as [-> | Hin].
      * left. rewrite Ha.
        change (String "$" (strip_trailing (name code)))
          with ("$" ++ strip_trailing (name code))%string.
        rewrite enabled_names_of_name.
        apply elem_of_union. left. apply elem_of_singleton. symmetry. exact Hn.
      * right. exists code'. split; [exact Hin|]. split; assumption.
Qed.

(** ** The round trip *)

Ltac Forall_flags :=
  repeat lazymatch goal with
         | |- Forall _ (_ ++ _) => apply Forall_app; split
         | |- Forall _ (_ :: _) => constructor
         | |- Forall _ [] => constructor
         | |- Forall _ _ => assumption
         end.

Section ParserProperties.

Variable DecryptARCode : list string -> list AREntry -> list AREntry.
Variables default_active default_user_defined : bool.

Local Abbreviation parse_line := (LoadCodes_line DecryptARCode).

(** A name line, met with no encrypted lines buffered: the code in progress
    is committed if it has ops, and a code of that name is begun. *)
Lemma parse_name_line (is_local : bool) (E : gset string) (st : LoadState) (n : string) :
  encrypted_lines st = [] ->
  parse_line is_local E st (String "$" n)
  = mkLoadState (codes st ++ flush (current_code st)) []
      (mkARCode n [] (bool_decide (n ∈ E)) is_local) (alerts st).
Proof.
  intros Henc. unfold LoadCodes_line, commit_in_loop, flush.
  change (Ascii.eqb "$" "$") with true. cbv iota.
  destruct (ops (current_code st)) as [|op l] eqn:Eops; cbn [length Nat.eqb negb].
  - rewrite Henc. cbn [length Nat.eqb negb]. rewrite Henc, Eops, app_nil_r. reflexivity.
  - cbn [encrypted_lines codes current_code alerts]. rewrite Henc.
    cbn [length Nat.eqb negb codes encrypted_lines current_code alerts with_ops ops].
    reflexivity.
Qed.

(** The line written for an op: the op is appended to the code in
    progress. *)
Lemma parse_op_line (is_local : bool) (E : gset string) (st : LoadState) (a v : Z) :
  0 <= a < 2 ^ 32 -> 0 <= v < 2 ^ 32 ->
  parse_line is_local E st (format_08X_08X a v)
  = mkLoadState (codes st) (encrypted_lines st)
      (with_ops (ops (current_code st) ++ [mkAREntry a v]) (current_code st)) (alerts st).
Proof.
  intros Ha Hv.
  destruct (format_08X_08X_head a v) as (c & rest & Eq & Hc).
  unfold LoadCodes_line. rewrite Eq, Hc. rewrite <- Eq.
  rewrite plain_pieces_format, !TryParse_hex_digits by assumption.
  reflexivity.
Qed.

Lemma parse_op_lines (is_local : bool) (E : gset string) (l : list AREntry)
    (st : LoadState) :
  Forall entry_in_range l ->
  foldl (parse_line is_local E) st
    (map (fun op => format_08X_08X (cmd_addr op) (value op)) l)
  = mkLoadState (codes st) (encrypted_lines st)
      (with_ops (ops (current_code st) ++ l) (current_code st)) (alerts st).
Proof.
  intros H. revert st. induction H as [|op l [Ha Hv] _ IH]; intros st.
  - cbn [map foldl]. rewrite app_nil_r.
    destruct st as [cs enc [n o a u] al]. reflexivity.
  - cbn [map foldl]. rewrite parse_op_line by assumption. rewrite IH.
    cbn [codes encrypted_lines current_code alerts with_ops ops name active user_defined].
    rewrite <- app_assoc. destruct op. reflexivity.
Qed.

(** The lines written for a code, met with no encrypted lines buffered. *)
Lemma parse_lines_of_code (E : gset string) (st : LoadState) (code : ARCode) :
  encrypted_lines st = [] -> parsed_code E code ->
  foldl (parse_line true E) st (lines_of_code code)
  = mkLoadState (codes st ++ flush (current_code st)) [] code (alerts st).
Proof.
  intros Henc (Hu & Ha & _ & Hr). unfold lines_of_code. cbn [foldl].
  change ("$" ++ name code)%string with (String "$" (name code)).
  rewrite parse_name_line by exact Henc. rewrite parse_op_lines by exact Hr.
  cbn [codes encrypted_lines current_code alerts with_ops ops name active user_defined app].
  rewrite <- Ha, <- Hu. destruct code. reflexivity.
Qed.

Lemma commit_last_codes (st : LoadState) :
  encrypted_lines st = [] ->
  codes (commit_last DecryptARCode st) = codes st ++ flush (current_code st).
Proof.
  intros Henc. unfold commit_last, flush.
  destruct (ops (current_code st)) as [|op l] eqn:Eops; cbn [length Nat.eqb negb].
  - rewrite Henc. cbn [length Nat.eqb negb]. rewrite app_nil_r. reflexivity.
  - cbn [encrypted_lines]. rewrite Henc. reflexivity.
Qed.

(** Parsing the lines written for a list of parsed codes gives the list
    back. *)
Lemma parse_lines_of_codes (E : gset string) (l : list ARCode) (st : LoadState) :
  encrypted_lines st = [] -> Forall (parsed_code E) l ->
  codes (commit_last DecryptARCode
           (foldl (parse_line true E) st (concat (map lines_of_code l))))
  = codes st ++ flush (current_code st) ++ l.
Proof.
  intros Henc H. revert st Henc. induction H as [|code l Hc _ IH]; intros st Henc.
  - cbn [map concat foldl]. rewrite app_nil_r. apply commit_last_codes, Henc.
  - cbn [map concat]. rewrite foldl_app, parse_lines_of_code by assumption.
    rewrite IH by reflexivity.
    cbn [codes current_code]. rewrite <- app_assoc. f_equal. f_equal.
    unfold flush. destruct Hc as (_ & _ & Hne & _).
    destruct (ops code); [contradiction|reflexivity].
Qed.

Lemma parse_inv_flush (E : gset string) (named : bool) (st : LoadState) :
  parse_inv E named st ->
  Forall (parsed_code E) (codes st ++ flush (current_code st)).
Proof.
  intros (_ & Hcodes & Hr & Hnamed & Hunnamed).
  apply Forall_app. split; [exact Hcodes|].
  unfold flush. destruct (ops (current_code st)) as [|op l] eqn:Eops; [constructor|].
  constructor; [|constructor].
  destruct named; [|specialize (Hunnamed eq_refl); discriminate].
  destruct (Hnamed eq_refl) as [Hu Ha].
  split; [exact Hu|]. split; [exact Ha|]. split; [rewrite Eops; discriminate|].
  rewrite Eops. exact Hr.
Qed.

Lemma parse_inv_line (E : gset string) (named : bool) (st : LoadState)
    (line : string) (rest : list string) :
  parse_inv E named st ->
  plain_listing_from named (line :: rest) = true ->
  exists named',
    parse_inv E named' (parse_line true E st line) /\
    plain_listing_from named' rest = true.
Proof.
  intros Hinv Hl. cbn [plain_listing_from] in Hl.
  destruct line as [|c r].
  - exists named. split; [exact Hinv|exact Hl].
  - unfold is_name_line, name_of_line in Hl.
    destruct (Ascii.eqb_spec c "$") as [-> | Hc].
    + exists true. split; [|exact Hl].
      rewrite parse_name_line by apply Hinv.
      split; [reflexivity|]. split; [eapply parse_inv_flush, Hinv|].
      split; [constructor|]. split; [intros _; split; reflexivity|discriminate].
    + apply andb_prop in Hl as [Hl Hrest]. apply andb_prop in Hl as [-> Hplain].
      exists true. split; [|exact Hrest].
      unfold is_plain_instruction_line in Hplain. unfold LoadCodes_line.
      destruct (Ascii.eqb_spec c "$") as [|_]; [contradiction|].
      destruct (plain_pieces (String c r)) as [[p0 p1]|]; [|discriminate].
      destruct (TryParse ("0x" ++ p0)) as [a|] eqn:Ea; [|discriminate].
      destruct (TryParse ("0x" ++ p1)) as [v|] eqn:Ev; [|discriminate].
      destruct Hinv as (Henc & Hcodes & Hr & Hnamed & _).
      split; [exact Henc|]. split; [exact Hcodes|].
      split.
      { cbn [current_code with_ops ops]. apply Forall_app. split; [exact Hr|].
        constructor; [|constructor]. split; eapply TryParse_range; eassumption. }
      split; [intros _; apply (Hnamed eq_refl)|discriminate].
Qed.

Lemma parse_inv_lines (E : gset string) (lines : list string) (named : bool)
    (st : LoadState) :
  parse_inv E named st ->
  plain_listing_from named lines = true ->
  exists named', parse_inv E named' (foldl (parse_line true E) st lines).
Proof.
  revert named st. induction lines as [|line rest IH]; intros named st Hinv Hl.
  - exists named. exact Hinv.
  - destruct (parse_inv_line E named st line rest Hinv Hl) as (named' & Hinv' & Hl').
    cbn [foldl]. apply (IH named' _ Hinv' Hl').
Qed.

(** The codes parsed from a listing of plain codes of the local ini file. *)
Lemma LoadCodes_ini_plain (E : gset string) (lines : list string) :
  plain_listing lines = true ->
  Forall (parsed_code E)
    (fst (LoadCodes_ini DecryptARCode default_active default_user_defined
            true E lines ([], []))).
Proof.
  intros Hl. unfold LoadCodes_ini. cbn [fst snd].
  set (st0 := mkLoadState [] [] _ []).
  destruct (parse_inv_lines E lines false st0) as (named & Hinv).
  { split; [reflexivity|]. split; [constructor|]. split; [constructor|].
    split; [discriminate|reflexivity]. }
  { exact Hl. }
  rewrite commit_last_codes by apply Hinv.
  eapply parse_inv_flush, Hinv.
Qed.

(** The names of the codes parsed are names the name lines give, or the
    empty name of a default-constructed code. *)
Lemma parse_line_names (Q : string -> Prop) (is_local : bool) (E : gset string)
    (st : LoadState) (line : string) :
  (forall n, line = String "$" n -> Q n) ->
  Forall (fun code => Q (name code)) (codes st) -> Q (name (current_code st)) ->
  Forall (fun code => Q (name code)) (codes (parse_line is_local E st line)) /\
  Q (name (current_code (parse_line is_local E st line))).
Proof.
  intros Hline Hcodes Hcur. unfold LoadCodes_line, commit_in_loop.
  destruct line as [|c r]; [split; assumption|].
  destruct (Ascii.eqb_spec c "$") as [-> | _].
  - cbn [codes encrypted_lines current_code alerts name].
    split; [|apply Hline; reflexivity].
    destruct (negb (length (ops (current_code st)) =? 0)%nat);
      cbn [codes encrypted_lines current_code alerts];
      destruct (negb (length (encrypted_lines st) =? 0)%nat);
      cbn [codes encrypted_lines current_code alerts];
      Forall_flags; exact Hcur.
  - destruct (plain_pieces (String c r)) as [[p0 p1]|].
    + destruct (TryParse ("0x" ++ p0)), (TryParse ("0x" ++ p1));
        cbn [codes encrypted_lines current_code alerts]; split; assumption.
    + destruct (encrypted_pieces (String c r)) as [[[p0 p1] p2]|];
        cbn [codes encrypted_lines current_code alerts]; split; assumption.
Qed.

Lemma parse_lines_names (Q : string -> Prop) (is_local : bool) (E : gset string)
    (lines : list string) (st : LoadState) :
  Forall (fun line => forall n, line = String "$" n -> Q n) lines ->
  Forall (fun code => Q (name code)) (codes st) -> Q (name (current_code st)) ->
  Forall (fun code => Q (name code)) (codes (foldl (parse_line is_local E) st lines)) /\
  Q (name (current_code (foldl (parse_line is_local E) st lines))).
Proof.
  intros Hlines. revert st.
  induction Hlines as [|line rest Hline _ IH]; intros st Hcodes Hcur; cbn [foldl].
  - split; assumption.
  - destruct (parse_line_names Q is_local E st line Hline Hcodes Hcur) as [Hcodes' Hcur'].
    apply IH; assumption.
Qed.

Lemma LoadCodes_ini_names (Q : string -> Prop) (is_local : bool) (E : gset string)
    (lines : list string) :
  Q EmptyString ->
  Forall (fun line => forall n, line = String "$" n -> Q n) lines ->
  Forall (fun code => Q (name code))
    (fst (LoadCodes_ini DecryptARCode default_active default_user_defined
            is_local E lines ([], []))).
Proof.
  intros Hempty Hlines. unfold LoadCodes_ini. cbn [fst snd].
  set (st0 := mkLoadState [] [] _ []).
  destruct (parse_lines_names Q is_local E lines st0 Hlines) as [Hcodes Hcur].
  { constructor. }
  { exact Hempty. }
  unfold commit_last.
  destruct (negb (length (ops (current_code (foldl (parse_line is_local E) st0 lines))) =? 0)%nat);
    cbn [codes encrypted_lines current_code alerts];
    destruct (negb (length (encrypted_lines (foldl (parse_line is_local E) st0 lines))
                    =? 0)%nat);
    cbn [codes encrypted_lines current_code alerts];
    Forall_flags; exact Hcur.
Qed.

(** No name parsed from the lines [GetLines] gives ends with whitespace. *)
Lemma LoadCodes_ini_names_stripped (is_local : bool) (E : gset string)
    (ini : IniFile) (section : string) :
  Forall (fun code => strip_trailing (name code) = name code)
    (fst (LoadCodes_ini DecryptARCode default_active default_user_defined
            is_local E (GetLines ini section) ([], []))).
Proof.
  apply (LoadCodes_ini_names (fun n => strip_trailing n = n)); [reflexivity|].
  eapply Forall_impl; [apply GetLines_stripped|].
  intros line Hline n ->. rewrite StripSpaces_name_line in Hline.
  injection Hline as Hn. exact Hn.
Qed.

(** C6: for a listing made of user-defined plain codes only, with no
    malformed line (nothing in the global ini file; in the local one, blank
    lines apart, name lines each followed by well-formed plain instruction
    lines), parsing, saving what was parsed and parsing what was saved
    gives the codes of the first parse: the same names, ops, active flags
    (and user-defined flags), in the same order.  What was parsed is saved
    into any ini file [target_ini], whatever it held: the second parse
    reads what [SaveCodes] wrote from the codes, and nothing of the first
    listing. *)
Theorem parse_save_parse (global_ini local_ini target_ini : IniFile) :
  GetLines global_ini "ActionReplay" = [] ->
  plain_listing (GetLines local_ini "ActionReplay") = true ->
  let load := LoadCodes DecryptARCode default_active default_user_defined in
  let parsed := fst (load global_ini local_ini) in
  fst (load global_ini (SaveCodes target_ini parsed)) = parsed.
Proof.
  intros Hglobal Hlocal. cbv zeta. unfold LoadCodes. rewrite Hglobal.
  set (E0 := enabled_names_of (GetLines local_ini "ActionReplay_Enabled")).
  change (LoadCodes_ini DecryptARCode default_active default_user_defined
            false E0 [] ([], []))
    with (@nil ARCode, @nil Text).
  change (LoadCodes_ini DecryptARCode default_active default_user_defined false
            (enabled_names_of
               (GetLines (SaveCodes target_ini _) "ActionReplay_Enabled")) [] ([], []))
    with (@nil ARCode, @nil Text).
  pose proof (LoadCodes_ini_plain E0 _ Hlocal) as Hparsed.
  pose proof (LoadCodes_ini_names_stripped true E0 local_ini "ActionReplay") as Hnames.
  set (parsed := fst (LoadCodes_ini DecryptARCode default_active default_user_defined
                        true E0 (GetLines local_ini "ActionReplay") ([], []))) in *.
  assert (Huser : filter (fun code => user_defined code = true) parsed = parsed).
  { clear Hnames. induction Hparsed as [|code rest Hc _ IH]; [reflexivity|].
    rewrite filter_cons_True by apply Hc. rewrite IH. reflexivity. }
  rewrite SaveCodes_enabled_lines.
  rewrite SaveCodes_lines, Huser by exact Hnames.
  set (E1 := enabled_names_of _).
  assert (Hparsed' : Forall (parsed_code E1) parsed).
  { apply Forall_forall. intros code Hin.
    pose proof (proj1 (Forall_forall _ _) Hparsed code Hin) as (Hu & Ha & Hne & Hr).
    split; [exact Hu|]. split; [|split; assumption].
    rewrite Ha. apply bool_decide_ext. subst E1.
    rewrite enabled_names_of_saved. split.
    - intros HE. exists code. split; [exact Hin|]. split.
      + rewrite Ha. apply bool_decide_eq_true. exact HE.
      + apply (proj1 (Forall_forall _ _) Hnames code Hin).
    - intros (code' & Hin' & Ha' & Hn).
      pose proof (proj1 (Forall_forall _ _) Hparsed code' Hin') as (_ & Ha'' & _).
      rewrite Ha'' in Ha'. apply bool_decide_eq_true in Ha'.
      rewrite (proj1 (Forall_forall _ _) Hnames code' Hin') in Hn.
      rewrite <- Hn. exact Ha'. }
  unfold LoadCodes_ini at 1. cbn [fst snd].
  rewrite parse_lines_of_codes by (reflexivity || assumption).
  reflexivity.
Qed.

End ParserProperties.

(** ** Malformed lines *)

Section MalformedLines.

Variable DecryptARCode : list string -> list AREntry -> list AREntry.
Variables default_active default_user_defined : bool.

Local Abbreviation parse_line := (LoadCodes_line DecryptARCode).

(** The alerts play no part in what is parsed. *)
Lemma without_alerts_line (is_local : bool) (E : gset string) (st : LoadState)
    (line : string) :
  without_alerts (parse_line is_local E st line)
  = without_alerts (parse_line is_local E (without_alerts st) line).
Proof.
  unfold LoadCodes_line, commit_in_loop, without_alerts.
  destruct line as [|c r]; [reflexivity|].
  destruct (Ascii.eqb c "$").
  - cbn [codes encrypted_lines current_code alerts].
    destruct (negb (length (ops (current_code st)) =? 0)%nat);
      cbn [codes encrypted_lines current_code alerts];
      destruct (negb (length (encrypted_lines st) =? 0)%nat); reflexivity.
  - destruct (plain_pieces (String c r)) as [[p0 p1]|].
    + destruct (TryParse ("0x" ++ p0)), (TryParse ("0x" ++ p1)); reflexivity.
    + destruct (encrypted_pieces (String c r)) as [[[p0 p1] p2]|]; reflexivity.
Qed.

Lemma without_alerts_lines (is_local : bool) (E : gset string) (lines : list string)
    (st : LoadState) :
  without_alerts (foldl (parse_line is_local E) st lines)
  = without_alerts (foldl (parse_line is_local E) (without_alerts st) lines).
Proof.
  revert st. induction lines as [|line rest IH]; intros st; cbn [foldl].
  - reflexivity.
  - rewrite IH, without_alerts_line, <- IH. reflexivity.
Qed.

Lemma commit_last_without_alerts (st : LoadState) :
  codes (commit_last DecryptARCode st)
  = codes (commit_last DecryptARCode (without_alerts st)).
Proof.
  unfold commit_last, without_alerts. cbn [codes encrypted_lines current_code alerts].
  destruct (negb (length (ops (current_code st)) =? 0)%nat);
    cbn [codes encrypted_lines current_code alerts];
    destruct (negb (length (encrypted_lines st) =? 0)%nat); reflexivity.
Qed.

(** What the parser does with a malformed line. *)
Lemma parse_malformed_line (is_local : bool) (E : gset string) (st : LoadState)
    (line : string) :
  is_malformed_line line = true ->
  let st' := parse_line is_local E st line in
  codes st' = codes st /\ encrypted_lines st' = encrypted_lines st /\
  current_code st' = current_code st /\
  match plain_pieces line with
  | Some _ =>
      exists more,
        alerts st' = alerts st
                     ++ mkText "Action Replay Error: invalid AR code line: %s" [ArgS line]
                     :: more
  | None => alerts st' = alerts st
  end.
Proof.
  intros Hbad. cbv zeta. unfold is_malformed_line in Hbad.
  destruct line as [|c r]; [discriminate|].
  apply andb_prop in Hbad as [Hbad Henc]. apply andb_prop in Hbad as [Hname Hplain].
  unfold is_name_line, name_of_line in Hname.
  unfold is_plain_instruction_line in Hplain. unfold is_encrypted_line in Henc.
  unfold LoadCodes_line.
  destruct (Ascii.eqb c "$"); [discriminate|].
  destruct (plain_pieces (String c r)) as [[p0 p1]|].
  - destruct (TryParse ("0x" ++ p0)) as [a|], (TryParse ("0x" ++ p1)) as [v|];
      try discriminate; cbn [codes encrypted_lines current_code alerts];
      repeat split; eexists; reflexivity.
  - destruct (encrypted_pieces (String c r)) as [[[p0 p1] p2]|]; [discriminate|].
    repeat split.
Qed.

(** C7 as the code has it: a line that is neither blank, nor a name line,
    nor a well-formed plain instruction line, nor a well-formed encrypted
    line is skipped, and parsing goes on: the codes, the buffered encrypted
    lines and the code in progress are as before the line, and the codes
    parsed from the listing are those parsed from the listing without the
    line.  An error is reported when the line has the shape of a plain
    instruction line (two tokens of eight characters, one of them not a
    hexadecimal word); a line of any other shape is skipped with no
    report. *)
Theorem malformed_line_skipped (is_local : bool) (E : gset string) (st : LoadState)
    (line : string) :
  is_malformed_line line = true ->
  let st' := parse_line is_local E st line in
  (codes st' = codes st /\ encrypted_lines st' = encrypted_lines st /\
   current_code st' = current_code st) /\
  match plain_pieces line with
  | Some _ =>
      exists more,
        alerts st' = alerts st
                     ++ mkText "Action Replay Error: invalid AR code line: %s" [ArgS line]
                     :: more
  | None => alerts st' = alerts st
  end /\
  (forall before after sofar,
     fst (LoadCodes_ini DecryptARCode default_active default_user_defined is_local E
            (before ++ line :: after) sofar)
     = fst (LoadCodes_ini DecryptARCode default_active default_user_defined is_local E
              (before ++ after) sofar)).
Proof.
  intros Hbad. cbv zeta.
  destruct (parse_malformed_line is_local E st line Hbad) as (Hc & He & Hcur & Hal).
  split; [repeat split; assumption|]. split; [exact Hal|].
  intros before after sofar. unfold LoadCodes_ini. cbn [fst].
  rewrite !foldl_app. cbn [foldl].
  set (st1 := foldl (parse_line is_local E) _ before).
  rewrite commit_last_without_alerts, without_alerts_lines.
  rewrite (commit_last_without_alerts (foldl _ st1 after)), (without_alerts_lines _ _ after st1).
  f_equal. f_equal. f_equal.
  destruct (parse_malformed_line is_local E st1 line Hbad) as (Hc1 & He1 & Hcur1 & _).
  unfold without_alerts. rewrite Hc1, He1, Hcur1. reflexivity.
Qed.

End MalformedLines.

(** * Further properties *)

(** ** The command word *)

Lemma gcaddr_mod (address : Z) : ARAddr.gcaddr address = address mod 2 ^ 25.
Proof. apply (Z.land_ones address 25). lia. Qed.

Lemma gcaddr_range (address : Z) : 0 <= ARAddr.gcaddr address < 2 ^ 25.
Proof. rewrite gcaddr_mod. apply Z.mod_pos_bound. lia. Qed.

Lemma GCAddress_add (address : Z) :
  ARAddr.GCAddress address = ARAddr.gcaddr address + 0x80000000.
Proof.
  unfold ARAddr.GCAddress.
  pose proof (gcaddr_range address) as H.
  rewrite <- Z.lxor_lor, <- Z.add_nocarry_lxor; try reflexivity.
  all: apply Z.bits_inj'; intros n Hn; rewrite Z.land_spec, Z.bits_0;
    destruct (Z.lt_ge_cases n 25) as [Hlt|Hge].
  all: try (replace (Z.testbit 0x80000000 n) with false;
            [apply andb_false_r|];
            change 0x80000000 with (2 ^ 31); rewrite Z.pow2_bits_eqb by lia;
            symmetry; apply Z.eqb_neq; lia).
  all: rewrite gcaddr_mod, Z.mod_pow2_bits_high by lia; reflexivity.
Qed.

Lemma GCAddress_bounds (address : Z) :
  0x80000000 <= ARAddr.GCAddress address < 0x82000000.
Proof. rewrite GCAddress_add. pose proof (gcaddr_range address). lia. Qed.

(** X1: the four bit fields of [struct ARAddr] partition the 32-bit command
    word: the word is [gcaddr + 2^25 * size + 2^27 * type + 2^30 * subtype],
    with [gcaddr] below 2^25, [size] and [subtype] below 4 and [type]
    below 8. *)
Theorem ARAddr_fields (address : Z) :
  0 <= address < 2 ^ 32 ->
  address = ARAddr.gcaddr address + 2 ^ 25 * ARAddr.size address
            + 2 ^ 27 * ARAddr.type address + 2 ^ 30 * ARAddr.subtype address /\
  0 <= ARAddr.gcaddr address < 2 ^ 25 /\ 0 <= ARAddr.size address < 4 /\
  0 <= ARAddr.type address < 8 /\ 0 <= ARAddr.subtype address < 4.
Proof.
  intros Hr.
  unfold ARAddr.size, ARAddr.type, ARAddr.subtype.
  rewrite gcaddr_mod.
  assert (E2 : forall x, Z.land x 0x3 = x mod 2 ^ 2) by (intros x; apply (Z.land_ones x 2); lia).
  assert (E3 : forall x, Z.land x 0x7 = x mod 2 ^ 3) by (intros x; apply (Z.land_ones x 3); lia).
  rewrite !E2, E3, !Z.shiftr_div_pow2 by lia.
  change (2 ^ 25) with 33554432. change (2 ^ 27) with 134217728.
  change (2 ^ 30) with 1073741824. change (2 ^ 32) with 4294967296 in Hr.
  change (2 ^ 2) with 4. change (2 ^ 3) with 8.
  pose proof (Z.div_mod address 33554432 ltac:(lia)).
  pose proof (Z.mod_pos_bound address 33554432 ltac:(lia)).
  pose proof (Z.div_mod (address / 33554432) 4 ltac:(lia)).
  pose proof (Z.mod_pos_bound (address / 33554432) 4 ltac:(lia)).
  pose proof (Z.div_mod (address / 134217728) 8 ltac:(lia)).
  pose proof (Z.mod_pos_bound (address / 134217728) 8 ltac:(lia)).
  pose proof (Z.div_mod (address / 1073741824) 4 ltac:(lia)).
  pose proof (Z.mod_pos_bound (address / 1073741824) 4 ltac:(lia)).
  assert (address / 33554432 / 4 = address / 134217728)
    by (rewrite Z.div_div by lia; reflexivity).
  assert (address / 134217728 / 8 = address / 1073741824)
    by (rewrite Z.div_div by lia; reflexivity).
  assert (address / 1073741824 / 4 = 0).
  { rewrite Z.div_div by lia. apply Z.div_small. lia. }
  lia.
Qed.

(** X2: the effective address [GCAddress()] of a command word is
    0x80000000 plus the [gcaddr] field, so it always lies in
    0x80000000..0x81FFFFFF; it passes [mem_check] exactly when the field is
    below 0x01800000. *)
Theorem GCAddress_in_main_memory (address : Z) :
  ARAddr.GCAddress address = 0x80000000 + ARAddr.gcaddr address /\
  0x80000000 <= ARAddr.GCAddress address < 0x82000000 /\
  mem_check (ARAddr.GCAddress address) = (ARAddr.gcaddr address <? 0x01800000).
Proof.
  pose proof (GCAddress_bounds address) as Hb.
  pose proof (GCAddress_add address) as Ha.
  split; [lia|]. split; [exact Hb|].
  unfold mem_check.
  replace (0x80000000 <=? ARAddr.GCAddress address) with true
    by (symmetry; apply Z.leb_le; lia).
  cbn [andb].
  destruct (Z.ltb_spec (ARAddr.gcaddr address) 0x01800000);
    [apply Z.ltb_lt|apply Z.ltb_ge]; lia.
Qed.

(** ** The store *)

Section StoreMore.

Variables MAX_LOGLEVEL LINFO : Z.
Variable float_add : Z -> Z -> Z.

Lemma do_store_op_disabled (op : StoreOp) (w : World) :
  bEnableCheats w = false ->
  snd (do_store_op MAX_LOGLEVEL LINFO float_add op w) = w.
Proof.
  intros Hen. destruct op as [cs|code|game region|]; cbn [do_store_op];
    unfold ActivateARCodesFor, ApplyCodes, AddCode, RunAllActive; rewrite Hen; reflexivity.
Qed.

(** X3: with [bEnableCheats] off, [ApplyCodes], [AddCode],
    [ActivateARCodesFor] and [RunAllActive] do nothing: after any sequence
    of them the whole world (guest memory, store, flags, logs, alerts) is
    as it was. *)
Theorem cheats_disabled_nothing_happens (ops : list StoreOp) (w : World) :
  bEnableCheats w = false ->
  do_store_ops MAX_LOGLEVEL LINFO float_add ops w = w.
Proof.
  intros Hen. induction ops as [|op ops IH]; [reflexivity|].
  cbn [do_store_ops foldl]. rewrite do_store_op_disabled by exact Hen. exact IH.
Qed.

End StoreMore.

(** X4: [ApplyCodes] replaces the store and [AddCode] appends to it:
    applying a list and then adding a code leaves the world that applying
    the list with the code at its end leaves, and of two [ApplyCodes] in a
    row only the second counts. *)
Theorem ApplyCodes_then_AddCode (cs cs' : list ARCode) (code : ARCode) (w : World) :
  snd (AddCode code (snd (ApplyCodes cs w))) = snd (ApplyCodes (cs ++ [code]) w) /\
  snd (ApplyCodes cs' (snd (ApplyCodes cs w))) = snd (ApplyCodes cs' w).
Proof.
  unfold AddCode, ApplyCodes.
  destruct (bEnableCheats w) eqn:Een; cbn [negb snd]; [|rewrite Een; split; reflexivity].
  cbn [with_active_codes with_disable_logging bEnableCheats negb snd
       memory s_active_codes s_internal_log s_use_internal_log s_current_code
       s_disable_logging info_log panic_alerts app].
  rewrite Een. cbn [negb snd]. split; [|reflexivity].
  rewrite filter_app.
  destruct (active code) eqn:Ea.
  - rewrite (filter_cons_True _ code []) by exact Ea. reflexivity.
  - rewrite (filter_cons_False _ code []) by (rewrite Ea; discriminate).
    cbn [snd]. rewrite app_nil_r. reflexivity.
Qed.

(** ** The parser: one file after the other *)

Section ParserMore.

Variable DecryptARCode : list string -> list AREntry -> list AREntry.
Variables default_active default_user_defined : bool.

Local Abbreviation parse_line := (LoadCodes_line DecryptARCode).
Local Abbreviation parse_ini :=
  (LoadCodes_ini DecryptARCode default_active default_user_defined).
Local Abbreviation load := (LoadCodes DecryptARCode default_active default_user_defined).
Local Abbreviation flags := (parsed_flags default_active default_user_defined).

Lemma prepend_line (cs : list ARCode) (al : list Text) (is_local : bool) (E : gset string)
    (st : LoadState) (line : string) :
  parse_line is_local E (prepend cs al st) line = prepend cs al (parse_line is_local E st line).
Proof.
  unfold LoadCodes_line, commit_in_loop, prepend.
  destruct line as [|c r]; [reflexivity|].
  destruct (Ascii.eqb c "$").
  - cbn [codes encrypted_lines current_code alerts].
    destruct (negb (length (ops (current_code st)) =? 0)%nat);
      cbn [codes encrypted_lines current_code alerts];
      destruct (negb (length (encrypted_lines st) =? 0)%nat);
      cbn [codes encrypted_lines current_code alerts];
      rewrite <- ?app_assoc; reflexivity.
  - destruct (plain_pieces (String c r)) as [[p0 p1]|].
    + destruct (TryParse ("0x" ++ p0)), (TryParse ("0x" ++ p1));
        cbn [codes encrypted_lines current_code alerts];
        rewrite <- ?app_assoc; reflexivity.
    + destruct (encrypted_pieces (String c r)) as [[[p0 p1] p2]|]; reflexivity.
Qed.

Lemma prepend_lines (cs : list ARCode) (al : list Text) (is_local : bool) (E : gset string)
    (lines : list string) (st : LoadState) :
  foldl (parse_line is_local E) (prepend cs al st) lines
  = prepend cs al (foldl (parse_line is_local E) st lines).
Proof.
  revert st. induction lines as [|line rest IH]; intros st; cbn [foldl].
  - reflexivity.
  - rewrite prepend_line. apply IH.
Qed.

Lemma prepend_commit_last (cs : list ARCode) (al : list Text) (st : LoadState) :
  commit_last DecryptARCode (prepend cs al st) = prepend cs al (commit_last DecryptARCode st).
Proof.
  unfold commit_last, prepend. cbn [codes encrypted_lines current_code alerts].
  destruct (negb (length (ops (current_code st)) =? 0)%nat);
    cbn [codes encrypted_lines current_code alerts];
    destruct (negb (length (encrypted_lines st) =? 0)%nat);
    cbn [codes encrypted_lines current_code alerts];
    rewrite <- ?app_assoc; reflexivity.
Qed.

(** What one ini file adds does not depend on what was parsed before it. *)
Lemma LoadCodes_ini_sofar (is_local : bool) (E : gset string) (lines : list string)
    (sofar : list ARCode * list Text) :
  parse_ini is_local E lines sofar
  = (fst sofar ++ fst (parse_ini is_local E lines ([], [])),
     snd sofar ++ snd (parse_ini is_local E lines ([], []))).
Proof.
  unfold LoadCodes_ini. cbn [fst snd].
  set (st0 := mkLoadState [] [] _ []).
  replace (mkLoadState (fst sofar) [] _ (snd sofar))
    with (prepend (fst sofar) (snd sofar) st0)
    by (unfold prepend, st0; cbn [codes alerts encrypted_lines current_code];
        rewrite !app_nil_r; reflexivity).
  rewrite prepend_lines, prepend_commit_last. reflexivity.
Qed.

(** The codes one ini file adds carry the flags of their name lines. *)
Lemma parse_line_flags (is_local : bool) (E : gset string) (st : LoadState) (line : string) :
  Forall (flags E is_local) (codes st) -> flags E is_local (current_code st) ->
  Forall (flags E is_local) (codes (parse_line is_local E st line)) /\
  flags E is_local (current_code (parse_line is_local E st line)).
Proof.
  intros Hcodes Hcur. unfold LoadCodes_line, commit_in_loop.
  destruct line as [|c r]; [split; assumption|].
  destruct (Ascii.eqb c "$").
  - cbn [codes encrypted_lines current_code alerts].
    split; [|left; split; reflexivity].
    destruct (negb (length (ops (current_code st)) =? 0)%nat);
      cbn [codes encrypted_lines current_code alerts];
      destruct (negb (length (encrypted_lines st) =? 0)%nat);
      cbn [codes encrypted_lines current_code alerts];
      Forall_flags; exact Hcur.
  - destruct (plain_pieces (String c r)) as [[p0 p1]|].
    + destruct (TryParse ("0x" ++ p0)), (TryParse ("0x" ++ p1));
        cbn [codes encrypted_lines current_code alerts]; split; assumption.
    + destruct (encrypted_pieces (String c r)) as [[[p0 p1] p2]|];
        cbn [codes encrypted_lines current_code alerts]; split; assumption.
Qed.

Lemma parse_lines_flags (is_local : bool) (E : gset string) (lines : list string)
    (st : LoadState) :
  Forall (flags E is_local) (codes st) -> flags E is_local (current_code st) ->
  Forall (flags E is_local) (codes (foldl (parse_line is_local E) st lines)) /\
  flags E is_local (current_code (foldl (parse_line is_local E) st lines)).
Proof.
  revert st. induction lines as [|line rest IH]; intros st Hcodes Hcur; cbn [foldl].
  - split; assumption.
  - destruct (parse_line_flags is_local E st line Hcodes Hcur) as [Hcodes' Hcur'].
    apply IH; assumption.
Qed.

Lemma LoadCodes_ini_flags (is_local : bool) (E : gset string) (lines : list string) :
  Forall (flags E is_local) (fst (parse_ini is_local E lines ([], []))).
Proof.
  unfold LoadCodes_ini. cbn [fst snd].
  set (st0 := mkLoadState [] [] _ []).
  destruct (parse_lines_flags is_local E lines st0) as [Hcodes Hcur].
  { constructor. }
  { right. repeat split. }
  unfold commit_last.
  destruct (negb (length (ops (current_code (foldl (parse_line is_local E) st0 lines))) =? 0)%nat);
    cbn [codes encrypted_lines current_code alerts];
    destruct (negb (length (encrypted_lines (foldl (parse_line is_local E) st0 lines)) =? 0)%nat);
    cbn [codes encrypted_lines current_code alerts];
    Forall_flags; exact Hcur.
Qed.

(** X6: [LoadCodes] parses the two ini files one after the other and
    independently, but for the enabled names they share: the codes are
    those of the global file followed by those of the local file, each as
    parsed alone, and the alerts likewise. *)
Theorem LoadCodes_two_files (global_ini local_ini : IniFile) :
  let E := enabled_names_of (GetLines local_ini "ActionReplay_Enabled") in
  let from_global := parse_ini false E (GetLines global_ini "ActionReplay") ([], []) in
  let from_local := parse_ini true E (GetLines local_ini "ActionReplay") ([], []) in
  load global_ini local_ini
  = (fst from_global ++ fst from_local, snd from_global ++ snd from_local).
Proof.
  cbv zeta. unfold LoadCodes. apply LoadCodes_ini_sofar.
Qed.

(** X7: the flags of every code [LoadCodes] returns, whatever the
    listing (plain, encrypted or malformed lines) and the decryptor: the
    code is active exactly when its name is among the names of
    [ActionReplay_Enabled] of the local file, and it comes from the local
    file when it is user defined and from the global file when it is not;
    the only exception is the nameless code made of instructions met before
    any name line, which has the flags of a default-constructed code. *)
Theorem LoadCodes_flags (global_ini local_ini : IniFile) (code : ARCode) :
  code ∈ fst (load global_ini local_ini) ->
  let E := enabled_names_of (GetLines local_ini "ActionReplay_Enabled") in
  (active code = bool_decide (name code ∈ E) /\
   (user_defined code = true ->
    code ∈ fst (parse_ini true E (GetLines local_ini "ActionReplay") ([], []))) /\
   (user_defined code = false ->
    code ∈ fst (parse_ini false E (GetLines global_ini "ActionReplay") ([], [])))) \/
  (name code = EmptyString /\ active code = default_active /\
   user_defined code = default_user_defined).
Proof.
  intros Hin. cbv zeta. unfold LoadCodes in Hin.
  rewrite LoadCodes_ini_sofar in Hin. cbn [fst] in Hin.
  set (E := enabled_names_of (GetLines local_ini "ActionReplay_Enabled")) in *.
  apply elem_of_app in Hin as [Hin | Hin].
  - pose proof (proj1 (Forall_forall _ _)
                  (LoadCodes_ini_flags false E (GetLines global_ini "ActionReplay")) code Hin)
      as [[Ha Hu] | Hd]; [left|right; exact Hd].
    split; [exact Ha|]. split; [congruence|]. intros _. exact Hin.
  - pose proof (proj1 (Forall_forall _ _)
                  (LoadCodes_ini_flags true E (GetLines local_ini "ActionReplay")) code Hin)
      as [[Ha Hu] | Hd]; [left|right; exact Hd].
    split; [exact Ha|]. split; [|congruence]. intros _. exact Hin.
Qed.

(** X9: enabling is by name and survives [SaveCodes] for every code, user
    defined or not: a named code loaded after [SaveCodes] (from the global
    or the local file) is active exactly when a code of that name was
    active in the list saved, where the whitespace that ends a saved name
    does not count, the ini file not keeping it. *)
Theorem saved_codes_enabled_by_name (global_ini local_ini : IniFile)
    (saved : list ARCode) (code : ARCode) :
  code ∈ fst (load global_ini (SaveCodes local_ini saved)) ->
  (active code = true <->
   exists code', code' ∈ saved /\ active code' = true /\
                 strip_trailing (name code') = name code) \/
  (name code = EmptyString /\ active code = default_active /\
   user_defined code = default_user_defined).
Proof.
  intros Hin. unfold LoadCodes in Hin.
  rewrite LoadCodes_ini_sofar in Hin. cbn [fst] in Hin.
  rewrite SaveCodes_enabled_lines in Hin.
  set (E := enabled_names_of _) in *.
  assert (H : flags E true code \/ flags E false code).
  { apply elem_of_app in Hin as [Hin | Hin]; [right|left];
      eapply (proj1 (Forall_forall _ _) (LoadCodes_ini_flags _ E _)); exact Hin. }
  assert (Hact : active code = bool_decide (name code ∈ E) \/
                 (name code = EmptyString /\ active code = default_active /\
                  user_defined code = default_user_defined)).
  { destruct H as [[[Ha _] | Hd] | [[Ha _] | Hd]]; tauto. }
  destruct Hact as [Ha | Hd]; [left|right; exact Hd].
  rewrite Ha, bool_decide_eq_true. subst E. apply enabled_names_of_saved.
Qed.

(** X8: saving then loading.  For codes that have ops, all 32-bit words,
    whose names do not end with whitespace (which the ini file would not
    keep) and that agree on [active] when they share a name, loading what
    [SaveCodes] wrote (with nothing in the global file) gives back the
    user-defined codes of the list, in order, with their names, ops and
    flags; the codes that are not user defined are not written. *)
Theorem save_then_load (global_ini local_ini : IniFile) (saved : list ARCode) :
  GetLines global_ini "ActionReplay" = [] ->
  Forall (fun code => ops code <> [] /\ Forall entry_in_range (ops code)) saved ->
  Forall (fun code => strip_trailing (name code) = name code) saved ->
  (forall code code', code ∈ saved -> code' ∈ saved ->
     name code = name code' -> active code = active code') ->
  fst (load global_ini (SaveCodes local_ini saved))
  = filter (fun code => user_defined code = true) saved.
Proof.
  intros Hglobal Hops Hspace Hnames. unfold LoadCodes. rewrite Hglobal.
  rewrite SaveCodes_enabled_lines.
  set (E := enabled_names_of _).
  change (parse_ini false E [] ([], [])) with (@nil ARCode, @nil Text).
  rewrite SaveCodes_lines by exact Hspace.
  unfold LoadCodes_ini. cbn [fst snd].
  rewrite parse_lines_of_codes; [reflexivity|reflexivity|].
  apply Forall_forall. intros code Hin.
  apply list_elem_of_filter in Hin as [Hu Hin].
  pose proof (proj1 (Forall_forall _ _) Hops code Hin) as [Hne Hr].
  split; [exact Hu|]. split; [|split; assumption].
  subst E. destruct (active code) eqn:Ea; symmetry.
  - apply bool_decide_eq_true. apply enabled_names_of_saved.
    exists code. split; [exact Hin|]. split; [exact Ea|].
    apply (proj1 (Forall_forall _ _) Hspace code Hin).
  - apply bool_decide_eq_false. intros HE. apply enabled_names_of_saved in HE.
    destruct HE as (code' & Hin' & Ha' & Hn).
    rewrite (proj1 (Forall_forall _ _) Hspace code' Hin') in Hn.
    rewrite (Hnames code code' Hin Hin' (eq_sym Hn)) in Ea. congruence.
Qed.

(** X5: [LoadAndApplyCodes] with cheats enabled: the store holds the
    parsed codes that are active, in order; the alerts of the parser are
    appended; guest memory is untouched; and every code of the store has
    its name in [ActionReplay_Enabled] of the local file, but for a nameless
    default-constructed code when that is active by default. *)
Theorem LoadAndApplyCodes_store (global_ini local_ini : IniFile) (w : World) :
  bEnableCheats w = true ->
  let w' := snd (LoadAndApplyCodes DecryptARCode default_active default_user_defined
                   global_ini local_ini w) in
  let E := enabled_names_of (GetLines local_ini "ActionReplay_Enabled") in
  s_active_codes w'
  = filter (fun code => active code = true) (fst (load global_ini local_ini)) /\
  panic_alerts w' = panic_alerts w ++ snd (load global_ini local_ini) /\
  memory w' = memory w /\
  forall code, code ∈ s_active_codes w' ->
    name code ∈ E \/ (name code = EmptyString /\ default_active = true).
Proof.
  intros Hen. cbv zeta. unfold LoadAndApplyCodes. cbv zeta.
  set (r := load global_ini local_ini).
  assert (Hstore : s_active_codes
                     (snd (ApplyCodes (fst r) (with_panic_alerts (panic_alerts w ++ snd r) w)))
                   = filter (fun code => active code = true) (fst r)).
  { rewrite ApplyCodes_store. cbn [with_panic_alerts bEnableCheats]. rewrite Hen. reflexivity. }
  split; [exact Hstore|].
  split; [unfold ApplyCodes; cbn [with_panic_alerts bEnableCheats]; rewrite Hen; reflexivity|].
  split; [unfold ApplyCodes; cbn [with_panic_alerts bEnableCheats]; rewrite Hen; reflexivity|].
  intros code Hin. rewrite Hstore in Hin.
  apply list_elem_of_filter in Hin as [Ha Hin].
  subst r. unfold LoadCodes in Hin. rewrite LoadCodes_ini_sofar in Hin. cbn [fst] in Hin.
  set (E := enabled_names_of (GetLines local_ini "ActionReplay_Enabled")) in *.
  assert (H : flags E true code \/ flags E false code).
  { apply elem_of_app in Hin as [Hin | Hin]; [right|left];
      eapply (proj1 (Forall_forall _ _) (LoadCodes_ini_flags _ E _)); exact Hin. }
  destruct H as [[[Hact _] | (Hn & Hd & _)] | [[Hact _] | (Hn & Hd & _)]].
  - left. rewrite Hact in Ha. apply bool_decide_eq_true in Ha. exact Ha.
  - right. split; [exact Hn|congruence].
  - left. rewrite Hact in Ha. apply bool_decide_eq_true in Ha. exact Ha.
  - right. split; [exact Hn|congruence].
Qed.

End ParserMore.

(** ** Logging *)

Section Frames.

Variables MAX_LOGLEVEL LINFO : Z.

Local Abbreviation run_frame' := (run_frame MAX_LOGLEVEL LINFO).
Local Abbreviation frames' := (frames MAX_LOGLEVEL LINFO).

Lemma run_frame_refl (w : World) : run_frame' w w.
Proof.
  unfold run_frame. repeat split.
  - exists []. rewrite app_nil_r. reflexivity.
  - exists []. rewrite !app_nil_r. destruct (s_use_internal_log w); rewrite ?app_nil_r; tauto.
Qed.

Lemma run_frame_trans (w1 w2 w3 : World) :
  run_frame' w1 w2 -> run_frame' w2 w3 -> run_frame' w1 w3.
Proof.
  unfold run_frame.
  intros (Hc1 & Hs1 & Hu1 & Hd1 & (r1 & Hr1) & (l1 & Hi1 & Hl1 & Hq1 & Hb1))
         (Hc2 & Hs2 & Hu2 & Hd2 & (r2 & Hr2) & (l2 & Hi2 & Hl2 & Hq2 & Hb2)).
  rewrite Hu1, Hd1 in *.
  split; [congruence|]. split; [congruence|]. split; [congruence|]. split; [congruence|].
  split.
  - exists (r1 ++ r2). rewrite Hr2, Hr1, app_assoc. reflexivity.
  - exists (l1 ++ l2). split; [rewrite Hi2, Hi1, app_assoc; reflexivity|].
    split.
    + rewrite Hl2, Hl1. destruct (s_use_internal_log w1); rewrite <- app_assoc; reflexivity.
    + split.
      * intros H. rewrite (Hq1 H), (Hq2 H). reflexivity.
      * intros H H'. rewrite (Hb1 H H'), (Hb2 H H'). reflexivity.
Qed.

Lemma frames_ret {A : Type} (a : A) : frames' (ret a).
Proof. intros w. apply run_frame_refl. Qed.

Lemma frames_bind {A B : Type} (c : M A) (k : A -> M B) :
  frames' c -> (forall a, frames' (k a)) -> frames' (bind c k).
Proof.
  intros Hc Hk w. rewrite bind_unfold.
  eapply run_frame_trans; [apply Hc|apply Hk].
Qed.

Lemma frames_LogInfo (format : string) (args : list FmtArg) :
  frames' (LogInfo MAX_LOGLEVEL LINFO format args).
Proof.
  intros w. unfold LogInfo.
  destruct (s_disable_logging w) eqn:Ed; [apply run_frame_refl|].
  destruct (Z.ltb_spec MAX_LOGLEVEL LINFO) as [Hlt|Hge];
    destruct (s_use_internal_log w) eqn:Eu; cbn [andb negb snd];
    try apply run_frame_refl;
    (unfold run_frame; cbn; rewrite ?Ed, ?Eu;
     split; [reflexivity|]; split; [reflexivity|]; split; [reflexivity|];
     split; [reflexivity|];
     split; [exists []; rewrite app_nil_r; reflexivity|];
     eexists; split; [reflexivity|]; split; [rewrite ?app_nil_r; reflexivity|];
     split; [discriminate|]; intros; first [discriminate | lia]).
Qed.

Lemma frames_PanicAlertT (format : string) (args : list FmtArg) :
  frames' (PanicAlertT format args).
Proof.
  intros w. unfold run_frame. cbn.
  split; [reflexivity|]. split; [reflexivity|]. split; [reflexivity|]. split; [reflexivity|].
  split; [eexists; reflexivity|].
  exists []. rewrite !app_nil_r. destruct (s_use_internal_log w); rewrite ?app_nil_r; tauto.
Qed.

Lemma frames_memory {A : Type} (c : M A) :
  (forall w, exists m, snd (c w) = with_memory m w) -> frames' c.
Proof.
  intros H w. destruct (H w) as [m ->]. unfold run_frame. cbn.
  split; [reflexivity|]. split; [reflexivity|]. split; [reflexivity|]. split; [reflexivity|].
  split; [exists []; rewrite app_nil_r; reflexivity|].
  exists []. rewrite !app_nil_r. destruct (s_use_internal_log w); rewrite ?app_nil_r; tauto.
Qed.

Lemma frames_pure {A : Type} (c : M A) :
  (forall w, snd (c w) = w) -> frames' c.
Proof. intros H w. rewrite H. apply run_frame_refl. Qed.

Lemma frames_current_code (c : option ARCode) :
  frames' (fun w => (tt, with_current_code c w)).
Proof.
  intros w. unfold run_frame. cbn.
  split; [reflexivity|]. split; [reflexivity|]. split; [reflexivity|]. split; [reflexivity|].
  split; [exists []; rewrite app_nil_r; reflexivity|].
  exists []. rewrite !app_nil_r. destruct (s_use_internal_log w); rewrite ?app_nil_r; tauto.
Qed.

Lemma frames_for_loop (n : nat) (i : Z) (body : Z -> M unit) :
  (forall j, frames' (body j)) -> frames' (for_loop n i body).
Proof.
  intros Hbody. revert i. induction n as [|n IH]; intros i.
  - apply frames_ret.
  - cbn [for_loop]. apply frames_bind; [apply Hbody|intros _; apply IH].
Qed.

End Frames.

Ltac frames_step :=
  lazymatch goal with
  | |- frames _ _ (ret _) => apply frames_ret
  | |- frames _ _ (bind _ _) => apply frames_bind; [|intros ?]
  | |- frames _ _ (LogInfo _ _ _ _) => apply frames_LogInfo
  | |- frames _ _ (PanicAlertT _ _) => apply frames_PanicAlertT
  | |- frames _ _ current_code_name => apply frames_pure; intros ?; reflexivity
  | |- frames _ _ (HostRead_U8 _) => apply frames_pure; intros ?; reflexivity
  | |- frames _ _ (HostRead_U16 _) => apply frames_pure; intros ?; reflexivity
  | |- frames _ _ (HostRead_U32 _) => apply frames_pure; intros ?; reflexivity
  | |- frames _ _ (HostWrite_U8 _ _) => apply frames_memory; intros ?; eexists; reflexivity
  | |- frames _ _ (HostWrite_U16 _ _) => apply frames_memory; intros ?; eexists; reflexivity
  | |- frames _ _ (HostWrite_U32 _ _) => apply frames_memory; intros ?; eexists; reflexivity
  | |- frames _ _ (for_loop _ _ _) => apply frames_for_loop; intros ?
  | |- frames _ _ (match ?x with _ => _ end) => destruct x
  end.

Ltac frames_auto := repeat (frames_step; cbv beta).

Section RunFrames.

Variables MAX_LOGLEVEL LINFO : Z.
Variable float_add : Z -> Z -> Z.

Local Abbreviation frames' := (frames MAX_LOGLEVEL LINFO).

Lemma frames_RamWriteAndFill (addr data : Z) :
  frames' (Subtype_RamWriteAndFill MAX_LOGLEVEL LINFO addr data).
Proof. unfold Subtype_RamWriteAndFill. frames_auto. Qed.

Lemma frames_WriteToPointer (addr data : Z) :
  frames' (Subtype_WriteToPointer MAX_LOGLEVEL LINFO addr data).
Proof. unfold Subtype_WriteToPointer. frames_auto. Qed.

Lemma frames_AddCode (addr data : Z) :
  frames' (Subtype_AddCode MAX_LOGLEVEL LINFO float_add addr data).
Proof. unfold Subtype_AddCode. frames_auto. Qed.

Lemma frames_MasterCode (addr data : Z) :
  frames' (Subtype_MasterCodeAndWriteToCCXXXXXX addr data).
Proof. unfold Subtype_MasterCodeAndWriteToCCXXXXXX. frames_auto. Qed.

Lemma frames_FillAndSlide_loop8 (n : nat) (addr_incr val_incr val curr_addr : Z) :
  frames' (FillAndSlide_loop8 MAX_LOGLEVEL LINFO n addr_incr val_incr val curr_addr).
Proof.
  revert val curr_addr. induction n as [|n IH]; intros val curr_addr;
    cbn [FillAndSlide_loop8]; frames_auto. apply IH.
Qed.

Lemma frames_FillAndSlide_loop16 (n : nat) (addr_incr val_incr val curr_addr : Z) :
  frames' (FillAndSlide_loop16 MAX_LOGLEVEL LINFO n addr_incr val_incr val curr_addr).
Proof.
  revert val curr_addr. induction n as [|n IH]; intros val curr_addr;
    cbn [FillAndSlide_loop16]; frames_auto. apply IH.
Qed.

Lemma frames_FillAndSlide_loop32 (n : nat) (addr_incr val_incr val curr_addr : Z) :
  frames' (FillAndSlide_loop32 MAX_LOGLEVEL LINFO n addr_incr val_incr val curr_addr).
Proof.
  revert val curr_addr. induction n as [|n IH]; intros val curr_addr;
    cbn [FillAndSlide_loop32]; frames_auto. apply IH.
Qed.

Lemma frames_FillAndSlide (val_last addr data : Z) :
  frames' (ZeroCode_FillAndSlide MAX_LOGLEVEL LINFO val_last addr data).
Proof.
  unfold ZeroCode_FillAndSlide. cbv zeta.
  repeat (lazymatch goal with
          | |- frames _ _ (FillAndSlide_loop8 _ _ _ _ _ _ _) => apply frames_FillAndSlide_loop8
          | |- frames _ _ (FillAndSlide_loop16 _ _ _ _ _ _ _) => apply frames_FillAndSlide_loop16
          | |- frames _ _ (FillAndSlide_loop32 _ _ _ _ _ _ _) => apply frames_FillAndSlide_loop32
          | _ => frames_step
          end; cbv beta).
Qed.

Lemma frames_MemoryCopy (val_last addr data : Z) :
  frames' (ZeroCode_MemoryCopy MAX_LOGLEVEL LINFO val_last addr data).
Proof. unfold ZeroCode_MemoryCopy, MemoryCopy_loop. frames_auto. Qed.

Lemma frames_NormalCode (addr data : Z) :
  frames' (NormalCode MAX_LOGLEVEL LINFO float_add addr data).
Proof.
  unfold NormalCode.
  repeat (lazymatch goal with
          | |- frames _ _ (Subtype_RamWriteAndFill _ _ _ _) => apply frames_RamWriteAndFill
          | |- frames _ _ (Subtype_WriteToPointer _ _ _ _) => apply frames_WriteToPointer
          | |- frames _ _ (Subtype_AddCode _ _ _ _ _) => apply frames_AddCode
          | |- frames _ _ (Subtype_MasterCodeAndWriteToCCXXXXXX _ _) => apply frames_MasterCode
          | _ => frames_step
          end; cbv beta).
Qed.

Lemma frames_CompareValues (val1 val2 type : Z) :
  frames' (CompareValues MAX_LOGLEVEL LINFO val1 val2 type).
Proof. unfold CompareValues. frames_auto. Qed.

Lemma frames_ConditionalCode (addr data pSkipCount : Z) :
  frames' (ConditionalCode MAX_LOGLEVEL LINFO addr data pSkipCount).
Proof.
  unfold ConditionalCode, ConditionalCode_compare. cbv zeta.
  frames_step; [frames_step|]. cbv beta. frames_step; [frames_step|]. cbv beta.
  destruct (size_cases addr) as [-> | [-> | [-> | ->]]];
    repeat (lazymatch goal with
            | |- frames _ _ (CompareValues _ _ _ _ _) => apply frames_CompareValues
            | _ => frames_step
            end; cbv beta).
Qed.

Lemma frames_entry (l : Locals) (entry : AREntry) :
  frames' (RunCodeLocked_entry MAX_LOGLEVEL LINFO float_add l entry).
Proof.
  unfold RunCodeLocked_entry. cbv zeta.
  repeat (lazymatch goal with
          | |- frames _ _ (ZeroCode_FillAndSlide _ _ _ _ _) => apply frames_FillAndSlide
          | |- frames _ _ (ZeroCode_MemoryCopy _ _ _ _ _) => apply frames_MemoryCopy
          | |- frames _ _ (NormalCode _ _ _ _ _) => apply frames_NormalCode
          | |- frames _ _ (ConditionalCode _ _ _ _ _) => apply frames_ConditionalCode
          | _ => frames_step
          end; cbv beta).
Qed.

Lemma frames_loop (l : Locals) (entries : list AREntry) :
  frames' (RunCodeLocked_loop MAX_LOGLEVEL LINFO float_add l entries).
Proof.
  revert l. induction entries as [|entry rest IH]; intros l; cbn [RunCodeLocked_loop].
  - apply frames_ret.
  - apply frames_bind; [apply frames_entry|]. intros [l'|b]; [apply IH|apply frames_ret].
Qed.

Lemma frames_RunCodeLocked (arcode : ARCode) :
  frames' (RunCodeLocked MAX_LOGLEVEL LINFO float_add arcode).
Proof.
  unfold RunCodeLocked. cbv zeta.
  apply frames_bind; [apply frames_current_code|]. intros _.
  frames_step; [frames_step|]. frames_step; [frames_step|]. apply frames_loop.
Qed.

Lemma frames_remove_if (l : list ARCode) :
  frames' (RunAllActive_remove_if MAX_LOGLEVEL LINFO float_add l).
Proof.
  induction l as [|code rest IH]; cbn [RunAllActive_remove_if].
  - apply frames_ret.
  - apply frames_bind; [apply frames_RunCodeLocked|]. intros success.
    frames_step; [frames_step|]. apply frames_bind; [apply IH|]. intros kept. apply frames_ret.
Qed.

End RunFrames.

Section LoggingTheorems.

Variables MAX_LOGLEVEL LINFO : Z.
Variable float_add : Z -> Z -> Z.

Local Abbreviation run := (RunCodeLocked MAX_LOGLEVEL LINFO float_add).
Local Abbreviation tick := (RunAllActive MAX_LOGLEVEL LINFO float_add).

(** The tick changes the store and sets the logging latch; the rest of
    the world it treats as a run does. *)
Lemma RunAllActive_frame (w : World) :
  bEnableCheats (snd (tick w)) = bEnableCheats w /\
  s_use_internal_log (snd (tick w)) = s_use_internal_log w /\
  (bEnableCheats w = true -> s_disable_logging (snd (tick w)) = true) /\
  (exists raised, panic_alerts (snd (tick w)) = panic_alerts w ++ raised) /\
  (exists lines,
     info_log (snd (tick w)) = info_log w ++ lines /\
     s_internal_log (snd (tick w))
     = s_internal_log w ++ (if s_use_internal_log w then lines else []) /\
     (s_disable_logging w = true -> lines = []) /\
     (MAX_LOGLEVEL < LINFO -> s_use_internal_log w = false -> lines = [])).
Proof.
  unfold RunAllActive.
  destruct (bEnableCheats w) eqn:Een; cbn [negb snd].
  - pose proof (frames_remove_if MAX_LOGLEVEL LINFO float_add (s_active_codes w) w)
      as (Hc & _ & Hu & _ & Hr & Hl).
    cbn [with_disable_logging with_active_codes bEnableCheats s_use_internal_log
         s_disable_logging panic_alerts info_log s_internal_log].
    rewrite Hc, Hu. repeat split; try assumption.
  - split; [exact Een|]. split; [reflexivity|]. split; [discriminate|].
    split; [exists []; rewrite app_nil_r; reflexivity|].
    exists []. rewrite !app_nil_r. destruct (s_use_internal_log w); rewrite ?app_nil_r; tauto.
Qed.

(** X10: a run of a code ([RunCodeLocked]), whatever the code, leaves the
    store, the cheats flag and the two logging flags as they were; alerts
    and log lines are only appended; the self log gets exactly the lines
    sent to [INFO_LOG] when self logging is on and nothing otherwise; and
    not a line is logged while logging is latched off. *)
Theorem run_keeps_store_and_flags (arcode : ARCode) (w : World) :
  run_frame MAX_LOGLEVEL LINFO w (snd (run arcode w)).
Proof.
  rewrite RunCodeLocked_unfold.
  eapply run_frame_trans; [|apply frames_loop].
  unfold loop_start.
  eapply run_frame_trans; [|apply frames_LogInfo].
  eapply run_frame_trans; [|apply frames_LogInfo].
  apply (frames_current_code MAX_LOGLEVEL LINFO (Some arcode) w).
Qed.

(** X11: the logging latch.  With cheats enabled, [RunAllActive] ends with
    [s_disable_logging] set, and [ApplyCodes], like [AddCode] of an active
    code, clears it.  While it is set, the pass of [RunAllActive] over any
    codes adds no line to [INFO_LOG] nor to the self log, and leaves it
    set. *)
Theorem logging_latch (codes : list ARCode) (code : ARCode) (w : World) :
  bEnableCheats w = true ->
  s_disable_logging (snd (tick w)) = true /\
  s_disable_logging (snd (ApplyCodes codes w)) = false /\
  (active code = true -> s_disable_logging (snd (AddCode code w)) = false) /\
  (s_disable_logging w = true ->
   let w' := snd (RunAllActive_remove_if MAX_LOGLEVEL LINFO float_add codes w) in
   s_disable_logging w' = true /\
   info_log w' = info_log w /\ s_internal_log w' = s_internal_log w).
Proof.
  intros Hen.
  split; [unfold RunAllActive; rewrite Hen; reflexivity|].
  split; [unfold ApplyCodes; rewrite Hen; reflexivity|].
  split; [intros Ha; unfold AddCode; rewrite Hen, Ha; reflexivity|].
  intros Hd. cbv zeta.
  destruct (frames_remove_if MAX_LOGLEVEL LINFO float_add codes w)
    as (_ & _ & _ & Hd' & _ & (lines & Hi & Hs & Hq & _)).
  rewrite (Hq Hd) in Hi, Hs. rewrite Hd', Hi, Hs, app_nil_r.
  destruct (s_use_internal_log w); rewrite ?app_nil_r; repeat split; assumption.
Qed.

(** X12: the self log.  After [ClearSelfLog] and [EnableSelfLogging(true)],
    [GetSelfLog] after a tick returns exactly the lines the tick sent to
    [INFO_LOG], and [IsSelfLogging] still answers true; after
    [EnableSelfLogging(false)] a tick leaves what [GetSelfLog] returns as
    it was. *)
Theorem self_log_collects_tick (w : World) :
  (let w0 := snd (EnableSelfLogging true (snd (ClearSelfLog w))) in
   let w1 := snd (tick w0) in
   fst (IsSelfLogging w1) = true /\
   info_log w1 = info_log w ++ fst (GetSelfLog w1)) /\
  (let w0 := snd (EnableSelfLogging false w) in
   let w1 := snd (tick w0) in
   fst (IsSelfLogging w1) = false /\
   fst (GetSelfLog w1) = fst (GetSelfLog w)).
Proof.
  split; cbv zeta.
  - set (w0 := snd (EnableSelfLogging true (snd (ClearSelfLog w)))).
    destruct (RunAllActive_frame w0) as (_ & Hu & _ & _ & (lines & Hi & Hs & _)).
    cbn [IsSelfLogging GetSelfLog fst]. rewrite Hu, Hi, Hs. split; reflexivity.
  - set (w0 := snd (EnableSelfLogging false w)).
    destruct (RunAllActive_frame w0) as (_ & Hu & _ & _ & (lines & Hi & Hs & _)).
    cbn [IsSelfLogging GetSelfLog fst]. rewrite Hu, Hs. split; [reflexivity|].
    cbn. apply app_nil_r.
Qed.

End LoggingTheorems.

(** ** Guest memory: wider accesses *)

Lemma u32_offset_ne (a j k : Z) :
  0 <= j < 2 ^ 32 -> 0 <= k < 2 ^ 32 -> j <> k -> u32 (a + j) <> u32 (a + k).
Proof.
  intros Hj Hk Hne. unfold u32. change (2 ^ 32) with 4294967296 in *.
  pose proof (Z.div_mod (a + j) 4294967296 ltac:(lia)).
  pose proof (Z.div_mod (a + k) 4294967296 ltac:(lia)).
  pose proof (Z.mod_pos_bound (a + j) 4294967296 ltac:(lia)).
  pose proof (Z.mod_pos_bound (a + k) 4294967296 ltac:(lia)).
  lia.
Qed.

Lemma u32_offset_eqb (a j k : Z) :
  0 <= j < 2 ^ 32 -> 0 <= k < 2 ^ 32 -> (u32 (a + j) =? u32 (a + k)) = (j =? k).
Proof.
  intros Hj Hk. destruct (Z.eqb_spec j k) as [->|Hne].
  - apply Z.eqb_refl.
  - apply Z.eqb_neq, u32_offset_ne; assumption.
Qed.

(** The bytes a 16-bit write leaves. *)
Lemma mem_read_u8_write_u16 (m : Memory) (var address b : Z) :
  mem_read_u8 (mem_write_u16 m var address) b
  = if u32 b =? u32 (address + 1) then u8 var
    else if u32 b =? u32 address then u8 (Z.shiftr (u16 var) 8)
    else mem_read_u8 m b.
Proof. unfold mem_write_u16. rewrite !mem_read_write_u8. reflexivity. Qed.

(** The bytes a 32-bit write leaves. *)
Lemma mem_read_u8_write_u32 (m : Memory) (var address b : Z) :
  mem_read_u8 (mem_write_u32 m var address) b
  = if u32 b =? u32 (address + 2 + 1) then u8 var
    else if u32 b =? u32 (address + 2) then u8 (Z.shiftr (u16 var) 8)
    else if u32 b =? u32 (address + 1) then u8 (Z.shiftr (u32 var) 16)
    else if u32 b =? u32 address then u8 (Z.shiftr (u16 (Z.shiftr (u32 var) 16)) 8)
    else mem_read_u8 m b.
Proof. unfold mem_write_u32. rewrite !mem_read_u8_write_u16. reflexivity. Qed.

Lemma u16_bytes (var : Z) :
  Z.lor (Z.shiftl (u8 (Z.shiftr (u16 var) 8)) 8) (u8 var) = u16 var.
Proof.
  unfold u8, u16. apply Z.bits_inj'. intros n Hn.
  rewrite Z.lor_spec, Z.shiftl_spec by lia.
  destruct (Z.lt_ge_cases n 8) as [H8|H8].
  - rewrite (Z.testbit_neg_r _ (n - 8)) by lia.
    rewrite !Z.testbit_mod_pow2 by lia.
    replace (n <? 8) with true by (symmetry; apply Z.ltb_lt; lia).
    replace (n <? 16) with true by (symmetry; apply Z.ltb_lt; lia).
    reflexivity.
  - rewrite !Z.testbit_mod_pow2, Z.shiftr_spec, Z.testbit_mod_pow2 by lia.
    replace (n <? 8) with false by (symmetry; apply Z.ltb_ge; lia).
    replace (n - 8 + 8) with n by lia.
    cbn [andb]. rewrite orb_false_r.
    destruct (Z.ltb_spec n 16).
    + replace (n - 8 <? 8) with true by (symmetry; apply Z.ltb_lt; lia). reflexivity.
    + replace (n - 8 <? 8) with false by (symmetry; apply Z.ltb_ge; lia). reflexivity.
Qed.

Lemma u32_halves (var : Z) :
  Z.lor (Z.shiftl (u16 (Z.shiftr (u32 var) 16)) 16) (u16 var) = u32 var.
Proof.
  unfold u16, u32. apply Z.bits_inj'. intros n Hn.
  rewrite Z.lor_spec, Z.shiftl_spec by lia.
  destruct (Z.lt_ge_cases n 16) as [H8|H8].
  - rewrite (Z.testbit_neg_r _ (n - 16)) by lia.
    rewrite !Z.testbit_mod_pow2 by lia.
    replace (n <? 16) with true by (symmetry; apply Z.ltb_lt; lia).
    replace (n <? 32) with true by (symmetry; apply Z.ltb_lt; lia).
    reflexivity.
  - rewrite !Z.testbit_mod_pow2, Z.shiftr_spec, Z.testbit_mod_pow2 by lia.
    replace (n <? 16) with false by (symmetry; apply Z.ltb_ge; lia).
    replace (n - 16 + 16) with n by lia.
    cbn [andb]. rewrite orb_false_r.
    destruct (Z.ltb_spec n 32).
    + replace (n - 16 <? 16) with true by (symmetry; apply Z.ltb_lt; lia). reflexivity.
    + replace (n - 16 <? 16) with false by (symmetry; apply Z.ltb_ge; lia). reflexivity.
Qed.

(** A 16-bit read gives back what a 16-bit write at the address left. *)
Lemma mem_read_write_u16 (m : Memory) (var address : Z) :
  mem_read_u16 (mem_write_u16 m var address) address = u16 var.
Proof.
  unfold mem_read_u16. rewrite !mem_read_u8_write_u16.
  rewrite Z.eqb_refl.
  replace (u32 address) with (u32 (address + 0)) by (f_equal; lia).
  rewrite u32_offset_eqb by lia. cbn [Z.eqb]. rewrite Z.eqb_refl.
  apply u16_bytes.
Qed.

(** A 16-bit write at a distance of two or more leaves a 16-bit read alone. *)
Lemma mem_read_u16_write_u16_other (m : Memory) (var address k : Z) :
  2 <= k <= 2 ^ 32 - 2 ->
  mem_read_u16 (mem_write_u16 m var (address + k)) address = mem_read_u16 m address.
Proof.
  intros Hk. unfold mem_read_u16. rewrite !mem_read_u8_write_u16.
  replace (u32 address) with (u32 (address + 0)) by (f_equal; lia).
  replace (address + k + 1) with (address + (k + 1)) by lia.
  rewrite !u32_offset_eqb by lia.
  replace (0 =? k + 1) with false by (symmetry; apply Z.eqb_neq; lia).
  replace (0 =? k) with false by (symmetry; apply Z.eqb_neq; lia).
  replace (1 =? k) with false by (symmetry; apply Z.eqb_neq; lia).
  destruct (Z.eqb_spec 1 (k + 1)); [lia|]. rewrite ?Z.add_0_r. reflexivity.
Qed.

(** A 32-bit read gives back what a 32-bit write at the address left. *)
Lemma mem_read_write_u32 (m : Memory) (var address : Z) :
  mem_read_u32 (mem_write_u32 m var address) address = u32 var.
Proof.
  unfold mem_read_u32, mem_write_u32.
  rewrite mem_read_write_u16.
  rewrite (mem_read_u16_write_u16_other _ var address 2) by lia.
  rewrite mem_read_write_u16.
  apply u32_halves.
Qed.

Lemma u8_u32 (z : Z) : u8 (u32 z) = u8 z.
Proof.
  unfold u8, u32. apply Z.bits_inj'. intros n Hn.
  rewrite !Z.testbit_mod_pow2 by lia.
  destruct (Z.ltb_spec n 8); [|reflexivity].
  replace (n <? 32) with true by (symmetry; apply Z.ltb_lt; lia). reflexivity.
Qed.

Lemma u16_u32 (z : Z) : u16 (u32 z) = u16 z.
Proof.
  unfold u16, u32. apply Z.bits_inj'. intros n Hn.
  rewrite !Z.testbit_mod_pow2 by lia.
  destruct (Z.ltb_spec n 16); [|reflexivity].
  replace (n <? 32) with true by (symmetry; apply Z.ltb_lt; lia). reflexivity.
Qed.

Section AddProperties.

Variables MAX_LOGLEVEL LINFO : Z.
Variable float_add : Z -> Z -> Z.

Local Abbreviation add := (Subtype_AddCode MAX_LOGLEVEL LINFO float_add).

(** The one write of Add. *)
Lemma AddCode_memory (addr data : Z) (w : World) :
  let a := ARAddr.GCAddress addr in
  wp (add addr data)
     (fun _ w' =>
        (ARAddr.size addr = 0 ->
         memory w' = mem_write_u8 (memory w) (u32 (mem_read_u8 (memory w) a + data)) a) /\
        (ARAddr.size addr = 1 ->
         memory w' = mem_write_u16 (memory w) (u32 (mem_read_u16 (memory w) a + data)) a) /\
        (ARAddr.size addr = 2 ->
         memory w' = mem_write_u32 (memory w) (u32 (mem_read_u32 (memory w) a + data)) a) /\
        (ARAddr.size addr = 3 ->
         memory w' = mem_write_u32 (memory w) (float_add (mem_read_u32 (memory w) a) data) a)) w.
Proof.
  cbv zeta. unfold Subtype_AddCode.
  destruct (size_cases addr) as [E | [E | [E | E]]]; rewrite E; wp_steps;
    repeat split; intros; try discriminate; assumption.
Qed.

(** X14: Add ([Subtype_AddCode]) wraps at the width of the access: the
    cell at the effective address reads back as the old value plus [data]
    modulo 2^8, 2^16 or 2^32 for the sizes 0, 1 and 2 (for size 3, as the
    single-precision sum), and every byte outside the cell is as it was. *)
Theorem add_code_wraps (addr data : Z) (w : World) :
  let a := ARAddr.GCAddress addr in
  let m := memory w in
  let m' := memory (snd (add addr data w)) in
  (ARAddr.size addr = 0 ->
   mem_read_u8 m' a = u8 (mem_read_u8 m a + data) /\
   forall b, u32 b <> a -> mem_read_u8 m' b = mem_read_u8 m b) /\
  (ARAddr.size addr = 1 ->
   mem_read_u16 m' a = u16 (mem_read_u16 m a + data) /\
   forall b, u32 b < a \/ a + 2 <= u32 b -> mem_read_u8 m' b = mem_read_u8 m b) /\
  (ARAddr.size addr = 2 ->
   mem_read_u32 m' a = u32 (mem_read_u32 m a + data) /\
   forall b, u32 b < a \/ a + 4 <= u32 b -> mem_read_u8 m' b = mem_read_u8 m b) /\
  (ARAddr.size addr = 3 ->
   mem_read_u32 m' a = u32 (float_add (mem_read_u32 m a) data) /\
   forall b, u32 b < a \/ a + 4 <= u32 b -> mem_read_u8 m' b = mem_read_u8 m b).
Proof.
  cbv zeta.
  pose proof (AddCode_memory addr data w) as H. cbv zeta in H. unfold wp in H.
  destruct H as (H0 & H1 & H2 & H3).
  pose proof (GCAddress_bounds addr) as Hb.
  set (a := ARAddr.GCAddress addr) in *.
  assert (Ha : forall k, 0 <= k < 4 -> u32 (a + k) = a + k)
    by (intros k Hk; apply u32_small; lia).
  assert (Ha0 : u32 a = a) by (apply u32_small; lia).
  split; [|split; [|split]]; intros E.
  - rewrite (H0 E). split.
    + rewrite mem_read_write_u8, Z.eqb_refl. apply u8_u32.
    + intros b Hne. rewrite mem_read_write_u8, Ha0.
      destruct (Z.eqb_spec (u32 b) a); [contradiction|reflexivity].
  - rewrite (H1 E). split.
    + rewrite mem_read_write_u16. apply u16_u32.
    + intros b Hne. rewrite mem_read_u8_write_u16, Ha0, (Ha 1) by lia.
      destruct (Z.eqb_spec (u32 b) (a + 1)); [lia|].
      destruct (Z.eqb_spec (u32 b) a); [lia|reflexivity].
  - rewrite (H2 E). split.
    + rewrite mem_read_write_u32. apply u32_idem.
    + intros b Hne. rewrite mem_read_u8_write_u32, Ha0, (Ha 1), (Ha 2) by lia.
      replace (a + 2 + 1) with (a + 3) by lia. rewrite (Ha 3) by lia.
      destruct (Z.eqb_spec (u32 b) (a + 3)); [lia|].
      destruct (Z.eqb_spec (u32 b) (a + 2)); [lia|].
      destruct (Z.eqb_spec (u32 b) (a + 1)); [lia|].
      destruct (Z.eqb_spec (u32 b) a); [lia|reflexivity].
  - rewrite (H3 E). split.
    + apply mem_read_write_u32.
    + intros b Hne. rewrite mem_read_u8_write_u32, Ha0, (Ha 1), (Ha 2) by lia.
      replace (a + 2 + 1) with (a + 3) by lia. rewrite (Ha 3) by lia.
      destruct (Z.eqb_spec (u32 b) (a + 3)); [lia|].
      destruct (Z.eqb_spec (u32 b) (a + 2)); [lia|].
      destruct (Z.eqb_spec (u32 b) (a + 1)); [lia|].
      destruct (Z.eqb_spec (u32 b) a); [lia|reflexivity].
Qed.

End AddProperties.

Lemma mem_read_u8_u32 (m : Memory) (a : Z) : mem_read_u8 m (u32 a) = mem_read_u8 m a.
Proof. unfold mem_read_u8. rewrite u32_idem. reflexivity. Qed.

Lemma u8_mem_read_u8 (m : Memory) (a : Z) : u8 (mem_read_u8 m a) = mem_read_u8 m a.
Proof. unfold mem_read_u8. apply u8_idem. Qed.

Section CopyMore.

Variables MAX_LOGLEVEL LINFO : Z.
Variable float_add : Z -> Z -> Z.

Local Abbreviation LogInfo' := (LogInfo MAX_LOGLEVEL LINFO).
Local Abbreviation entry_step := (RunCodeLocked_entry MAX_LOGLEVEL LINFO float_add).
Local Abbreviation copy := (ZeroCode_MemoryCopy MAX_LOGLEVEL LINFO).

(** The copy loop, on ranges that do not overlap. *)
Lemma MemoryCopy_loop_spec (n src dest : Z) (w : World) :
  0 <= n -> 0 <= src -> 0 <= dest ->
  src + n <= 2 ^ 32 -> dest + n <= 2 ^ 32 ->
  dest + n <= src \/ src + n <= dest ->
  wp (MemoryCopy_loop MAX_LOGLEVEL LINFO n src dest)
     (fun _ w' => forall a : Z,
        mem_read_u8 (memory w') a
        = if (dest <=? u32 a) && (u32 a <? dest + n)
          then mem_read_u8 (memory w) (src + (u32 a - dest))
          else mem_read_u8 (memory w) a) w.
Proof.
  intros Hn Hsrc Hdest Hs Hd Hdis. unfold MemoryCopy_loop.
  eapply wp_mono.
  - apply (wp_for_loop (Z.to_nat n) 0 _ (fun j w' => forall a : Z,
             mem_read_u8 (memory w') a
             = if (dest <=? u32 a) && (u32 a <? dest + Z.of_nat j)
               then mem_read_u8 (memory w) (src + (u32 a - dest))
               else mem_read_u8 (memory w) a)).
    + intros a.
      destruct (Z.leb_spec dest (u32 a)); [|reflexivity].
      replace (u32 a <? dest + Z.of_nat 0) with false
        by (symmetry; apply Z.ltb_ge; lia).
      reflexivity.
    + intros j w' Hj HI. wp_steps. intros a.
      match goal with H : memory _ = _ |- _ => rewrite H end.
      rewrite mem_read_write_u8, u32_idem, u8_mem_read_u8, mem_read_u8_u32, !HI.
      rewrite (u32_small (dest + (0 + Z.of_nat j))) by lia.
      rewrite (u32_small (src + (0 + Z.of_nat j))) by lia.
      replace ((dest <=? src + (0 + Z.of_nat j)) && (src + (0 + Z.of_nat j) <? dest + Z.of_nat j))
        with false
        by (symmetry; apply andb_false_iff;
            destruct Hdis; [right; apply Z.ltb_ge|left; apply Z.leb_gt]; lia).
      destruct (Z.eqb_spec (u32 a) (dest + (0 + Z.of_nat j))) as [E|E].
      * replace (dest <=? u32 a) with true by (symmetry; apply Z.leb_le; lia).
        replace (u32 a <? dest + Z.of_nat (S j)) with true
          by (symmetry; apply Z.ltb_lt; lia).
        cbn [andb]. f_equal. lia.
      * destruct (Z.leb_spec dest (u32 a)); [|reflexivity]. cbn [andb].
        destruct (Z.ltb_spec (u32 a) (dest + Z.of_nat j));
          destruct (Z.ltb_spec (u32 a) (dest + Z.of_nat (S j))); try lia; reflexivity.
  - cbv beta. intros _ w' H a. rewrite H, Z2Nat.id by lia. reflexivity.
Qed.

(** X16: Memory Copy without pointers ([data >> 24 = 0], value check
    passed) copies [data mod 256] bytes, the count the source keeps in a
    [u8], from the effective address of the entry to [val_last & ~0x06000000]:
    when the two ranges do not overlap, each destination byte reads as the
    source byte did, every other byte is as it was, and the call
    succeeds. *)
Theorem memory_copy_copies (val_last addr data : Z) (w : World) :
  let n := data mod 2 ^ 8 in
  let src := ARAddr.GCAddress addr in
  let dest := Z.land val_last (Z.lnot 0x06000000) in
  Z.land data 0xFF0000 = 0 -> Z.shiftr data 24 = 0 ->
  0 <= val_last -> dest + n <= 2 ^ 32 ->
  dest + n <= src \/ src + n <= dest ->
  let r := copy val_last addr data w in
  fst r = true /\
  forall a : Z,
    mem_read_u8 (memory (snd r)) a
    = if (dest <=? u32 a) && (u32 a <? dest + n)
      then mem_read_u8 (memory w) (src + (u32 a - dest))
      else mem_read_u8 (memory w) a.
Proof.
  cbv zeta. intros H1 H2 Hv Hd Hdis.
  assert (En : u8 (Z.land data 0x7FFF) = data mod 2 ^ 8).
  { unfold u8. apply Z.bits_inj'. intros i Hi.
    rewrite !Z.testbit_mod_pow2 by lia.
    destruct (Z.ltb_spec i 8); [|reflexivity]. cbn [andb].
    change 0x7FFF with (Z.ones 15). rewrite Z.land_ones, Z.testbit_mod_pow2 by lia.
    replace (i <? 15) with true by (symmetry; apply Z.ltb_lt; lia). reflexivity. }
  pose proof (GCAddress_bounds addr) as Hb.
  pose proof (Z.mod_pos_bound data (2 ^ 8) ltac:(lia)) as Hn.
  assert (Hdest : 0 <= Z.land val_last (Z.lnot 0x06000000))
    by (apply Z.land_nonneg; left; exact Hv).
  change (wp (copy val_last addr data)
            (fun ok w' => ok = true /\ forall a : Z,
               mem_read_u8 (memory w') a
               = if (Z.land val_last (Z.lnot 0x06000000) <=? u32 a)
                    && (u32 a <? Z.land val_last (Z.lnot 0x06000000) + data mod 2 ^ 8)
                 then mem_read_u8 (memory w)
                        (ARAddr.GCAddress addr + (u32 a - Z.land val_last (Z.lnot 0x06000000)))
                 else mem_read_u8 (memory w) a) w).
  rewrite MemoryCopy_no_pointers by assumption. rewrite En.
  wp_steps.
  eapply wp_mono.
  - apply MemoryCopy_loop_spec; lia.
  - cbv beta. intros _ w' Hcopy. wp_steps. split; [reflexivity|]. intros a.
    match goal with H : memory _ = memory w' |- _ => rewrite H end.
    rewrite Hcopy.
    match goal with H : memory _ = memory w |- _ => rewrite H end.
    reflexivity.
Qed.

End CopyMore.

Lemma u8_add_u32 (x y : Z) : u8 (u32 x + y) = u8 (x + y).
Proof.
  unfold u8, u32. rewrite (Z.mod_eq x (2 ^ 32)) by lia.
  replace (x - 2 ^ 32 * (x / 2 ^ 32) + y) with (x + y + (- (2 ^ 24 * (x / 2 ^ 32))) * 2 ^ 8).
  - apply Z.mod_add. lia.
  - change (2 ^ 32) with (2 ^ 24 * 2 ^ 8). ring.
Qed.

Lemma u8_land_FF (x : Z) : u8 (Z.land x 0xFF) = u8 x.
Proof.
  unfold u8. change 0xFF with (Z.ones 8). rewrite Z.land_ones by lia.
  apply Z.mod_mod. lia.
Qed.

Lemma s16_range (x : Z) : - 2 ^ 15 <= s16 x < 2 ^ 15.
Proof.
  unfold s16, u16. pose proof (Z.mod_pos_bound x (2 ^ 16) ltac:(lia)).
  destruct (Z.ltb_spec (x mod 2 ^ 16) (2 ^ 15)); lia.
Qed.

Section SlideProperties.

Variables MAX_LOGLEVEL LINFO : Z.

Local Abbreviation slide := (ZeroCode_FillAndSlide MAX_LOGLEVEL LINFO).

(** The 8-bit loop of Fill and Slide, the addresses it writes being
    apart and inside the 32-bit address space. *)
Lemma FillAndSlide_loop8_spec (n : nat) (addr_incr val_incr val curr_addr : Z) (w : World) :
  addr_incr <> 0 ->
  (forall i, 0 <= i < Z.of_nat n -> 0 <= curr_addr + i * addr_incr < 2 ^ 32) ->
  wp (FillAndSlide_loop8 MAX_LOGLEVEL LINFO n addr_incr val_incr val curr_addr)
     (fun _ w' =>
        (forall i, 0 <= i < Z.of_nat n ->
           mem_read_u8 (memory w') (curr_addr + i * addr_incr) = u8 (val + i * val_incr)) /\
        (forall b, (forall i, 0 <= i < Z.of_nat n -> u32 b <> curr_addr + i * addr_incr) ->
           mem_read_u8 (memory w') b = mem_read_u8 (memory w) b)) w.
Proof.
  intros Hincr. revert val curr_addr w.
  induction n as [|n IH]; intros val curr_addr w Hrange.
  - apply wp_ret. split; [intros i Hi; lia|reflexivity].
  - cbn [FillAndSlide_loop8]. wp_steps.
    set (cur' := u32 (curr_addr + addr_incr)).
    assert (Hcur : n = O \/ cur' = curr_addr + addr_incr).
    { destruct n as [|n]; [left; reflexivity|right].
      apply u32_small. specialize (Hrange 1 ltac:(lia)). lia. }
    assert (Hrange' : forall i, 0 <= i < Z.of_nat n -> 0 <= cur' + i * addr_incr < 2 ^ 32).
    { intros i Hi. destruct Hcur as [-> | ->]; [lia|].
      specialize (Hrange (i + 1) ltac:(lia)). lia. }
    eapply wp_mono; [apply (IH (u32 (val + val_incr)) cur' _ Hrange')|].
    cbv beta. intros _ w' [Hw Hframe].
    pose proof (Hrange 0 ltac:(lia)) as H0. rewrite Z.mul_0_l, Z.add_0_r in H0.
    split.
    + intros i Hi. destruct (Z.eq_dec i 0) as [-> | Hne].
      * rewrite Z.mul_0_l, !Z.add_0_r. rewrite Hframe.
        -- match goal with H : memory _ = _ |- _ => rewrite H end.
           rewrite mem_read_write_u8, Z.eqb_refl. apply u8_land_FF.
        -- intros i Hi'. rewrite (u32_small curr_addr) by exact H0.
           destruct Hcur as [-> | ->]; [lia|]. nia.
      * destruct Hcur as [-> | Hcur]; [lia|].
        specialize (Hw (i - 1) ltac:(lia)). rewrite Hcur in Hw.
        replace (curr_addr + addr_incr + (i - 1) * addr_incr)
          with (curr_addr + i * addr_incr) in Hw by ring.
        rewrite Hw, u8_add_u32. f_equal. ring.
    + intros b Hb. rewrite Hframe.
      * match goal with H : memory _ = _ |- _ => rewrite H end.
        rewrite mem_read_write_u8, (u32_small curr_addr) by exact H0.
        destruct (Z.eqb_spec (u32 b) curr_addr) as [E|E]; [|reflexivity].
        exfalso. apply (Hb 0 ltac:(lia)). lia.
      * intros i Hi. destruct Hcur as [-> | ->]; [lia|].
        specialize (Hb (i + 1) ltac:(lia)). lia.
Qed.

(** The 8-bit Fill and Slide with a non-zero address increment: what the
    writes leave in memory. *)
Lemma FillAndSlide_8bit (val_last addr data : Z) (w : World) :
  let new_addr := ARAddr.GCAddress val_last in
  let addr_incr := s16 (Z.land data 0xFFFF) in
  let val_incr := s8 (Z.shiftr data 24) in
  let write_num := u8 (Z.shiftr (Z.land data 0xFF0000) 16) in
  ARAddr.size val_last = 0 -> addr_incr <> 0 ->
  let r := slide val_last addr data w in
  fst r = true /\
  (forall i, 0 <= i < write_num ->
     mem_read_u8 (memory (snd r)) (new_addr + i * addr_incr) = u8 (addr + i * val_incr)) /\
  (forall b, (forall i, 0 <= i < write_num -> u32 b <> new_addr + i * addr_incr) ->
     mem_read_u8 (memory (snd r)) b = mem_read_u8 (memory w) b).
Proof.
  cbv zeta. intros Hsize Hincr.
  set (new_addr := ARAddr.GCAddress val_last).
  set (addr_incr := s16 (Z.land data 0xFFFF)) in *.
  set (val_incr := s8 (Z.shiftr data 24)).
  set (write_num := u8 (Z.shiftr (Z.land data 0xFF0000) 16)).
  change (wp (slide val_last addr data)
            (fun ok w' => ok = true /\
               (forall i, 0 <= i < write_num ->
                  mem_read_u8 (memory w') (new_addr + i * addr_incr) = u8 (addr + i * val_incr)) /\
               (forall b, (forall i, 0 <= i < write_num -> u32 b <> new_addr + i * addr_incr) ->
                  mem_read_u8 (memory w') b = mem_read_u8 (memory w) b)) w).
  unfold ZeroCode_FillAndSlide. rewrite Hsize. change (u8 0) with 0.
  fold new_addr addr_incr val_incr write_num.
  pose proof (GCAddress_bounds val_last) as Hb. fold new_addr in Hb.
  pose proof (s16_range (Z.land data 0xFFFF)) as Hi16. fold addr_incr in Hi16.
  assert (Hn : 0 <= write_num < 2 ^ 8) by (apply Z.mod_pos_bound; lia).
  wp_steps.
  eapply wp_mono.
  - apply FillAndSlide_loop8_spec; [exact Hincr|].
    intros i Hi. rewrite Z2Nat.id in Hi by lia. nia.
  - cbv beta. intros _ w' [Hw Hframe]. rewrite Z2Nat.id in Hw, Hframe by lia.
    wp_steps. split; [reflexivity|]. split.
    + intros i Hi.
      match goal with H : memory _ = memory w' |- _ => rewrite H end.
      apply Hw, Hi.
    + intros b Hb'.
      match goal with H : memory _ = memory w' |- _ => rewrite H end.
      rewrite Hframe by exact Hb'.
      match goal with H : memory _ = memory w |- _ => rewrite H end.
      reflexivity.
Qed.

End SlideProperties.

(** ** The operands of a comparison *)

Lemma mem_read_u8_range (m : Memory) (a : Z) : 0 <= mem_read_u8 m a < 2 ^ 8.
Proof. unfold mem_read_u8, u8. apply Z.mod_pos_bound. lia. Qed.

Lemma mem_read_u16_range (m : Memory) (a : Z) : 0 <= mem_read_u16 m a < 2 ^ 16.
Proof.
  assert (E : u16 (mem_read_u16 m a) = mem_read_u16 m a).
  { unfold u16, mem_read_u16, mem_read_u8, u8. apply Z.bits_inj'. intros n Hn.
    rewrite Z.testbit_mod_pow2 by lia.
    destruct (Z.ltb_spec n 16); [reflexivity|]. cbn [andb].
    rewrite Z.lor_spec, Z.shiftl_spec, !Z.testbit_mod_pow2 by lia.
    replace (n - 8 <? 8) with false by (symmetry; apply Z.ltb_ge; lia).
    replace (n <? 8) with false by (symmetry; apply Z.ltb_ge; lia).
    reflexivity. }
  rewrite <- E. unfold u16. apply Z.mod_pos_bound. lia.
Qed.

Lemma land_FF_range (x : Z) : 0 <= Z.land x 0xFF < 2 ^ 8.
Proof.
  change 0xFF with (Z.ones 8). rewrite Z.land_ones by lia. apply Z.mod_pos_bound. lia.
Qed.

Lemma land_FFFF_range (x : Z) : 0 <= Z.land x 0xFFFF < 2 ^ 16.
Proof.
  change 0xFFFF with (Z.ones 16). rewrite Z.land_ones by lia. apply Z.mod_pos_bound. lia.
Qed.

Lemma s32_small (x : Z) : 0 <= x < 2 ^ 31 -> s32 x = x.
Proof.
  intros H. unfold s32. rewrite u32_small by lia.
  destruct (Z.ltb_spec x (2 ^ 31)); [reflexivity|lia].
Qed.

Section CompareMore.

Variables MAX_LOGLEVEL LINFO : Z.

Local Abbreviation compare := (ConditionalCode_compare MAX_LOGLEVEL LINFO).

(** X18: the test a conditional code makes.  The operand is read at the
    effective address at the width of the size field and zero-extended,
    the data is masked to that width; types 1, 2, 5, 6 and 7 compare them
    as equal, not equal, unsigned less, unsigned greater and bitwise-and
    non-zero.  The signed types 3 and 4 compare as 32-bit two's complement
    numbers, which for the 8- and 16-bit sizes is the unsigned comparison:
    a byte 0xFF is 255, not -1. *)
Theorem conditional_test (addr data : Z) (w : World) :
  let a := ARAddr.GCAddress addr in
  let narrow := ARAddr.size addr <? 2 in
  let v := if ARAddr.size addr =? 0 then mem_read_u8 (memory w) a
           else if ARAddr.size addr =? 1 then mem_read_u16 (memory w) a
           else mem_read_u32 (memory w) a in
  let d := if ARAddr.size addr =? 0 then Z.land data 0xFF
           else if ARAddr.size addr =? 1 then Z.land data 0xFFFF
           else data in
  exists cmp : M bool,
    compare addr data = Some cmp /\
    (ARAddr.type addr = 1 -> fst (cmp w) = (v =? d)) /\
    (ARAddr.type addr = 2 -> fst (cmp w) = negb (v =? d)) /\
    (ARAddr.type addr = 3 ->
     fst (cmp w) = if narrow then v <? d else s32 v <? s32 d) /\
    (ARAddr.type addr = 4 ->
     fst (cmp w) = if narrow then v >? d else s32 v >? s32 d) /\
    (ARAddr.type addr = 5 -> fst (cmp w) = (v <? d)) /\
    (ARAddr.type addr = 6 -> fst (cmp w) = (v >? d)) /\
    (ARAddr.type addr = 7 -> fst (cmp w) = negb (Z.land v d =? 0)).
Proof.
  cbv zeta. unfold ConditionalCode_compare.
  pose proof (mem_read_u8_range (memory w) (ARAddr.GCAddress addr)) as H8.
  pose proof (mem_read_u16_range (memory w) (ARAddr.GCAddress addr)) as H16.
  pose proof (land_FF_range data) as Hd8.
  pose proof (land_FFFF_range data) as Hd16.
  destruct (size_cases addr) as [E | [E | [E | E]]]; rewrite E; cbn [Z.eqb Z.ltb Z.compare];
    (eexists; split; [reflexivity|]);
    repeat split; intros Ht; rewrite bind_unfold, Ht; cbn [HostRead_U8 HostRead_U16 HostRead_U32 fst snd];
    unfold CompareValues; rewrite bind_unfold; cbn [ret fst];
    rewrite ?s32_small by lia; reflexivity.
Qed.

End CompareMore.

Section PointerProperties.

Variables MAX_LOGLEVEL LINFO : Z.

Local Abbreviation write_to_pointer := (Subtype_WriteToPointer MAX_LOGLEVEL LINFO).

(** X13: Write to Pointer always succeeds and makes one write, at the
    pointer read (32 bits) from the effective address before anything is
    written: the byte [data & 0xFF] at pointer + [data >> 8], the halfword
    [data & 0xFFFF] at pointer + [(data >> 16) << 1], or, for the sizes 2
    and 3, the whole of [data] at the pointer itself, with no offset. *)
Theorem write_to_pointer_effect (addr data : Z) (w : World) :
  let m := memory w in
  let ptr := mem_read_u32 m (ARAddr.GCAddress addr) in
  let r := write_to_pointer addr data w in
  fst r = true /\
  (ARAddr.size addr = 0 ->
   memory (snd r) = mem_write_u8 m (Z.land data 0xFF) (u32 (ptr + Z.shiftr data 8))) /\
  (ARAddr.size addr = 1 ->
   memory (snd r)
   = mem_write_u16 m (Z.land data 0xFFFF) (u32 (ptr + u32 (Z.shiftl (Z.shiftr data 16) 1)))) /\
  (ARAddr.size addr = 2 \/ ARAddr.size addr = 3 ->
   memory (snd r) = mem_write_u32 m data ptr).
Proof.
  cbv zeta.
  change (wp (write_to_pointer addr data)
            (fun ok w' => ok = true /\
               (ARAddr.size addr = 0 ->
                memory w' = mem_write_u8 (memory w) (Z.land data 0xFF)
                              (u32 (mem_read_u32 (memory w) (ARAddr.GCAddress addr)
                                    + Z.shiftr data 8))) /\
               (ARAddr.size addr = 1 ->
                memory w' = mem_write_u16 (memory w) (Z.land data 0xFFFF)
                              (u32 (mem_read_u32 (memory w) (ARAddr.GCAddress addr)
                                    + u32 (Z.shiftl (Z.shiftr data 16) 1)))) /\
               (ARAddr.size addr = 2 \/ ARAddr.size addr = 3 ->
                memory w' = mem_write_u32 (memory w) data
                              (mem_read_u32 (memory w) (ARAddr.GCAddress addr)))) w).
  unfold Subtype_WriteToPointer.
  assert (E8 : forall m a, mem_write_u8 m (u8 (Z.land data 0xFF)) a
                           = mem_write_u8 m (Z.land data 0xFF) a).
  { intros m a. unfold mem_write_u8. rewrite u8_idem. reflexivity. }
  assert (E16 : forall m a, mem_write_u16 m (u16 (Z.land data 0xFFFF)) a
                            = mem_write_u16 m (Z.land data 0xFFFF) a).
  { intros m a. unfold mem_write_u16, mem_write_u8, u16, u8.
    rewrite (Z.mod_mod (Z.land data 0xFFFF) (2 ^ 16)) by lia.
    replace ((Z.land data 0xFFFF mod 2 ^ 16) mod 2 ^ 8) with (Z.land data 0xFFFF mod 2 ^ 8);
      [reflexivity|].
    apply Z.bits_inj'. intros n Hn. rewrite !Z.testbit_mod_pow2 by lia.
    destruct (Z.ltb_spec n 8); [|reflexivity].
    replace (n <? 16) with true by (symmetry; apply Z.ltb_lt; lia). reflexivity. }
  destruct (size_cases addr) as [E | [E | [E | E]]]; rewrite E; wp_steps;
    (split; [reflexivity|]); repeat split; intros H;
    try discriminate H; try (destruct H as [H | H]; discriminate H);
    rewrite ?E8, ?E16 in *; assumption.
Qed.

End PointerProperties.

(** ** The loop of [RunCodeLocked] *)

Section Outcomes.

Variables MAX_LOGLEVEL LINFO : Z.

Lemma ConditionalCode_succeeds (addr data pSkipCount : Z) (w : World) :
  fst (fst (ConditionalCode MAX_LOGLEVEL LINFO addr data pSkipCount w)) = true /\
  (let n := snd (fst (ConditionalCode MAX_LOGLEVEL LINFO addr data pSkipCount w)) in
   n = pSkipCount \/ n = 1 \/ n = 2 \/ n = -2 \/ n = -3).
Proof.
  destruct (compare_some MAX_LOGLEVEL LINFO addr data) as (cmp & Hcmp & _).
  unfold ConditionalCode. rewrite Hcmp. cbv zeta. rewrite !bind_unfold.
  match goal with |- context [negb ?b] => destruct b end; cbn [negb].
  - split; [reflexivity|]. left. reflexivity.
  - destruct (subtype_cases addr) as [-> | [-> | [-> | ->]]];
      (split; [reflexivity|]); cbn; tauto.
Qed.

Lemma FillAndSlide_succeeds (val_last addr data : Z) (w : World) :
  ARAddr.size val_last <> 3 ->
  fst (ZeroCode_FillAndSlide MAX_LOGLEVEL LINFO val_last addr data w) = true.
Proof.
  intros Hsize. unfold ZeroCode_FillAndSlide.
  destruct (size_cases val_last) as [E | [E | [E | E]]]; [| | |contradiction];
    rewrite E; reflexivity.
Qed.

End Outcomes.

Section ControlFlow.

Variables MAX_LOGLEVEL LINFO : Z.
Variable float_add : Z -> Z -> Z.

Local Abbreviation LogInfo' := (LogInfo MAX_LOGLEVEL LINFO).
Local Abbreviation entry_step := (RunCodeLocked_entry MAX_LOGLEVEL LINFO float_add).
Local Abbreviation loop := (RunCodeLocked_loop MAX_LOGLEVEL LINFO float_add).
Local Abbreviation run := (RunCodeLocked MAX_LOGLEVEL LINFO float_add).
Local Abbreviation tick := (RunAllActive MAX_LOGLEVEL LINFO float_add).

(** The functions of the normal codes other than the master code return
    success. *)
Lemma NormalCode_succeeds (addr data : Z) (w : World) :
  ARAddr.subtype addr <> 3 ->
  fst (NormalCode MAX_LOGLEVEL LINFO float_add addr data w) = true.
Proof.
  intros Hsub. unfold NormalCode.
  destruct (subtype_cases addr) as [E | [E | [E | E]]]; [| | |contradiction]; rewrite E;
    rewrite bind_unfold;
    [unfold Subtype_RamWriteAndFill|unfold Subtype_WriteToPointer|unfold Subtype_AddCode];
    destruct (size_cases addr) as [-> | [-> | [-> | ->]]]; reflexivity.
Qed.

Ltac locals_inv_done :=
  unfold locals_inv; cbn [do_fill_and_slide do_memory_copy skip_count val_last with_skip_count];
  repeat split; intros;
  repeat match goal with H : _ \/ _ |- _ => destruct H end;
  try discriminate; try congruence; try tauto; try lia.

(** One iteration keeps [locals_inv]. *)
Lemma entry_step_inv (l l' : Locals) (entry : AREntry) (w : World) :
  locals_inv l -> fst (entry_step l entry w) = Continue l' -> locals_inv l'.
Proof.
  intros (Hex & Hpend & Hrange & Hfill & Hcopy).
  change (fst (entry_step l entry w) = Continue l' -> locals_inv l')
    with (wp (entry_step l entry) (fun flow _ => flow = Continue l' -> locals_inv l') w).
  unfold RunCodeLocked_entry. cbv zeta.
  destruct (Z.eqb_spec (skip_count l) 0) as [Hs|Hs]; cbn [negb].
  - wp_steps.
    destruct (do_fill_and_slide l) eqn:Ef.
    { wp_steps. apply wp_any. intros [|] w2; cbn [negb]; wp_steps; intros H;
        [|discriminate H].
      injection H as <-. specialize (Hex eq_refl). specialize (Hfill eq_refl).
      rewrite Hex. locals_inv_done. }
    destruct (do_memory_copy l) eqn:Em.
    { wp_steps. apply wp_any. intros [|] w2; cbn [negb]; wp_steps; intros H;
        [|discriminate H].
      injection H as <-. locals_inv_done. }
    destruct ((0x00002000 <=? cmd_addr entry) && (cmd_addr entry <? 0x00003000)).
    { wp_steps. unfold wp. cbn [PanicAlertT fst snd]. wp_steps. discriminate. }
    destruct (0x0 =? cmd_addr entry).
    { wp_steps.
      destruct (u8 (Z.shiftr (value entry) 29)) as [|p|p].
      - wp_steps. discriminate.
      - destruct p as [p|p|].
        + destruct p as [p|p|]; wp_steps; try (unfold wp; cbn [PanicAlertT fst snd]; wp_steps);
            discriminate.
        + destruct p as [p|p|].
          * wp_steps; unfold wp; cbn [PanicAlertT fst snd]; wp_steps; discriminate.
          * destruct p as [p|p|]; try (wp_steps; unfold wp; cbn [PanicAlertT fst snd]; wp_steps;
              discriminate).
            destruct (Z.eqb_spec 0x3 (Z.land (Z.shiftr (value entry) 25) 0x03)) as [E|E];
              wp_steps; intros H; injection H as <-; rewrite ?Ef, ?Em;
              locals_inv_done; unfold ARAddr.size; congruence.
          * wp_steps. intros H. injection H as <-.
            unfold locals_inv. rewrite Ef, Em. locals_inv_done.
        + wp_steps; unfold wp; cbn [PanicAlertT fst snd]; wp_steps; discriminate.
      - wp_steps; unfold wp; cbn [PanicAlertT fst snd]; wp_steps; discriminate. }
    wp_steps.
    assert (Hl : locals_inv l).
    { unfold locals_inv. rewrite Ef, Em. locals_inv_done. }
    destruct (ARAddr.type (cmd_addr entry)) as [|p|p].
    + wp_steps. apply wp_any. intros [|] w2; cbn [negb]; wp_steps; intros H;
        [|discriminate H].
      injection H as <-. exact Hl.
    + wp_steps. unfold wp.
      match goal with |- context [ConditionalCode ?a ?b ?d ?e ?c ?w] =>
        destruct (ConditionalCode_succeeds a b d e c w) as [Hok Hn]; cbv zeta in Hn;
        destruct (ConditionalCode a b d e c w) as [[ok n] w'] end.
      cbn [fst snd] in *. subst ok.
      cbn [negb]. intros H. injection H as <-.
      rewrite Hs in Hn.
      unfold locals_inv. cbn [do_fill_and_slide do_memory_copy skip_count val_last with_skip_count].
      rewrite Ef, Em. locals_inv_done.
    + wp_steps. unfold wp.
      match goal with |- context [ConditionalCode ?a ?b ?d ?e ?c ?w] =>
        destruct (ConditionalCode_succeeds a b d e c w) as [Hok Hn]; cbv zeta in Hn;
        destruct (ConditionalCode a b d e c w) as [[ok n] w'] end.
      cbn [fst snd] in *. subst ok.
      cbn [negb]. intros H. injection H as <-.
      rewrite Hs in Hn.
      unfold locals_inv. cbn [do_fill_and_slide do_memory_copy skip_count val_last with_skip_count].
      rewrite Ef, Em. locals_inv_done.
  - assert (Ef : do_fill_and_slide l = false).
    { destruct (do_fill_and_slide l); [|reflexivity]. exfalso. apply Hs, Hpend. left. reflexivity. }
    assert (Em : do_memory_copy l = false).
    { destruct (do_memory_copy l); [|reflexivity]. exfalso. apply Hs, Hpend. right. reflexivity. }
    destruct (Z.gtb_spec (skip_count l) 0) as [Hpos|Hneg].
    + wp_steps. intros H. injection H as <-.
      unfold locals_inv. cbn [do_fill_and_slide do_memory_copy skip_count val_last with_skip_count].
      rewrite Ef, Em. locals_inv_done.
    + destruct (Z.eqb_spec (Z.opp 0x03) (skip_count l)) as [E3|E3].
      * wp_steps. discriminate.
      * destruct (Z.eqb_spec (Z.opp 0x02) (skip_count l)) as [E2|E2].
        -- wp_steps.
           destruct ((cmd_addr entry =? 0) && (0x40000000 =? value entry));
             wp_steps; intros H; injection H as <-; unfold locals_inv;
             cbn [do_fill_and_slide do_memory_copy skip_count val_last with_skip_count];
             rewrite ?Ef, ?Em; locals_inv_done.
        -- wp_steps. intros H. injection H as <-. unfold locals_inv. rewrite Ef, Em.
           locals_inv_done.
Qed.

Lemma reachable_inv (l : Locals) :
  reachable MAX_LOGLEVEL LINFO float_add l -> locals_inv l.
Proof.
  induction 1 as [|l l' entry w _ IH Hstep].
  - locals_inv_done.
  - eapply entry_step_inv; eassumption.
Qed.

(** X19: the invariants of the locals of [RunCodeLocked]: at the head of
    every iteration the two composite flags are not both set, the skip
    count is 0 while one of them is set, the skip count is one of 0, 1, 2,
    -2 and -3, and the word kept for a pending Fill and Slide has a size
    field other than 3 (3 for a pending Memory Copy). *)
Theorem reachable_locals (l : Locals) :
  reachable MAX_LOGLEVEL LINFO float_add l -> locals_inv l.
Proof.
  intros Hr. induction Hr as [|l l' entry w _ IH Hstep].
  - locals_inv_done.
  - exact (entry_step_inv l l' entry w IH Hstep).
Qed.

(** X20: inside a run Fill and Slide cannot fail: whenever the loop
    reaches an entry with Fill and Slide pending, the zero code that
    selected it had a size field other than 3 (3 selects Memory Copy), so
    the invalid-size branch of [ZeroCode_FillAndSlide] is not taken, and
    the iteration ends with the flag cleared and the loop going on. *)
Theorem fill_and_slide_never_fails (l : Locals) (entry : AREntry) (w : World) :
  reachable MAX_LOGLEVEL LINFO float_add l ->
  do_fill_and_slide l = true ->
  fst (entry_step l entry w) = Continue (mkLocals false false 0 (val_last l)).
Proof.
  intros Hr Hf. destruct (reachable_inv l Hr) as (Hex & Hpend & _ & Hfill & _).
  unfold RunCodeLocked_entry. cbv zeta.
  rewrite (Hpend (or_introl Hf)), Hf, (Hex Hf). cbn [Z.eqb negb].
  rewrite !bind_unfold.
  cbn [val_last do_fill_and_slide do_memory_copy skip_count].
  rewrite FillAndSlide_succeeds by (apply Hfill, Hf).
  reflexivity.
Qed.

End ControlFlow.

(** ** Runs that only log and raise alerts *)

Lemma wp_PanicAlertT (format : string) (args : list FmtArg)
    (Q : unit -> World -> Prop) (w : World) :
  Q tt (with_panic_alerts (panic_alerts w ++ [mkText format args]) w) ->
  wp (PanicAlertT format args) Q w.
Proof. intros H. exact H. Qed.

Lemma wp_current_code_name (Q : string -> World -> Prop) (w : World) :
  (forall n, Q n w) -> wp current_code_name Q w.
Proof. intros H. apply H. Qed.

Section LoggedRuns.

Variables MAX_LOGLEVEL LINFO : Z.

Lemma wp_LogInfo_logged (format : string) (args : list FmtArg)
    (Q : unit -> World -> Prop) (w0 w : World) :
  only_logged w0 w ->
  (forall w', only_logged w0 w' -> Q tt w') ->
  wp (LogInfo MAX_LOGLEVEL LINFO format args) Q w.
Proof.
  intros H0 H. unfold wp.
  destruct (fst (LogInfo MAX_LOGLEVEL LINFO format args w)).
  apply H. etransitivity; [exact H0|apply LogInfo_only_logged].
Qed.

End LoggedRuns.

(** One step of a run that has only logged since the world [w0]. *)
Ltac logged_step :=
  lazymatch goal with
  | |- wp (bind _ _) _ _ => apply wp_bind
  | |- wp (ret _) _ _ => apply wp_ret
  | |- wp (LogInfo _ _ _ _) _ ?w =>
      lazymatch goal with
      | H : only_logged _ w |- _ =>
          apply (wp_LogInfo_logged _ _ _ _ _ _ _ H); clear H; try clear w;
          let w' := fresh "w" in let H' := fresh "Hl" in intros w' H'
      end
  end.

Ltac logged_steps := repeat (logged_step; cbv beta).

Section Unsupported.

Variables MAX_LOGLEVEL LINFO : Z.
Variable float_add : Z -> Z -> Z.

Local Abbreviation entry_step := (RunCodeLocked_entry MAX_LOGLEVEL LINFO float_add).
Local Abbreviation loop := (RunCodeLocked_loop MAX_LOGLEVEL LINFO float_add).

Lemma raise_and_ret {A : Type} (format : string) (args : list FmtArg) (x : A)
    (w0 w : World) :
  only_logged w0 w ->
  wp (PanicAlertT format args ;; ret x)
     (fun y w' =>
        y = x /\ memory w' = memory w0 /\
        exists alert, panic_alerts w' = panic_alerts w0 ++ [alert]) w.
Proof.
  intros (Hm & _ & _ & _ & _ & _ & Hp).
  apply wp_bind, wp_PanicAlertT, wp_ret.
  split; [reflexivity|]. split; [exact Hm|].
  eexists. cbn. rewrite Hp. reflexivity.
Qed.

Lemma unsupported_fails (l : Locals) (entry : AREntry) (w : World) :
  skip_count l = 0 -> do_fill_and_slide l = false -> do_memory_copy l = false ->
  unsupported entry = true ->
  wp (entry_step l entry)
     (fun flow w' =>
        flow = Return false /\ memory w' = memory w /\
        exists alert, panic_alerts w' = panic_alerts w ++ [alert]) w.
Proof.
  intros Hs Hf Hm Hu.
  assert (H0 : only_logged w w) by reflexivity.
  unfold RunCodeLocked_entry. cbv zeta. rewrite Hs, Hf, Hm.
  change (negb (0 =? 0)) with false. cbv iota.
  unfold unsupported in Hu. cbv zeta in Hu.
  logged_steps.
  destruct ((0x00002000 <=? cmd_addr entry) && (cmd_addr entry <? 0x00003000)).
  { logged_steps. apply raise_and_ret. assumption. }
  cbn [orb] in Hu.
  rewrite Z.eqb_sym in Hu.
  destruct (0x0 =? cmd_addr entry); cbn [andb negb orb] in Hu.
  - rewrite orb_false_r in Hu. apply negb_true_iff in Hu.
    apply orb_false_iff in Hu as [Hu H4]. apply orb_false_iff in Hu as [H0' H2].
    logged_steps.
    destruct (u8 (Z.shiftr (value entry) 29)) as [|p|p]; [discriminate H0'| |].
    + destruct p as [p|p|].
      * destruct p as [p|p|]; logged_steps; apply raise_and_ret; assumption.
      * destruct p as [p|p|]; [| |discriminate H2].
        -- logged_steps; apply raise_and_ret; assumption.
        -- destruct p as [p|p|]; [| |discriminate H4];
             logged_steps; apply raise_and_ret; assumption.
      * logged_steps; apply raise_and_ret; assumption.
    + logged_steps; apply raise_and_ret; assumption.
  - apply andb_prop in Hu as [Ht Hsub].
    apply Z.eqb_eq in Ht, Hsub. rewrite Ht.
    logged_steps. unfold NormalCode. rewrite Hsub.
    unfold Subtype_MasterCodeAndWriteToCCXXXXXX.
    logged_steps. apply wp_current_code_name. intros n.
    eapply wp_mono; [apply raise_and_ret; eassumption|].
    cbv beta. intros ok w' (-> & Hmem & Hal).
    cbn [negb]. apply wp_ret. repeat split; assumption.
Qed.

(** X21: an instruction the interpreter does not support (a command word
    in 0x2000..0x2FFF, a zero code other than End, Normal and
    Fill-and-Slide/Memory-Copy, a master code), reached with no skip and no
    composite pending, ends the run with failure whatever follows it,
    raises exactly one alert and leaves guest memory as it was. *)
Theorem unsupported_entry_fails (l : Locals) (entry : AREntry)
    (rest : list AREntry) (w : World) :
  skip_count l = 0 -> do_fill_and_slide l = false -> do_memory_copy l = false ->
  unsupported entry = true ->
  let r := loop l (entry :: rest) w in
  fst r = false /\ memory (snd r) = memory w /\
  exists alert, panic_alerts (snd r) = panic_alerts w ++ [alert].
Proof.
  intros Hs Hf Hm Hu. cbv zeta.
  pose proof (unsupported_fails l entry w Hs Hf Hm Hu) as H. unfold wp in H.
  destruct H as (Hflow & Hmem & Hal).
  rewrite loop_cons, Hflow. cbn [fst snd]. repeat split; assumption.
Qed.

(** X22: the zero codes End and Normal, reached with no skip and no
    composite pending: End (value >> 29 = 0) ends the run with success
    whatever follows, the following entries having no effect; Normal
    (value >> 29 = 2) does nothing but log, the run going on with the next
    entry. *)
Theorem zero_code_end_and_norm (l : Locals) (entry : AREntry)
    (rest : list AREntry) (w : World) :
  skip_count l = 0 -> do_fill_and_slide l = false -> do_memory_copy l = false ->
  cmd_addr entry = 0 ->
  (u8 (Z.shiftr (value entry) 29) = ZCODE_END ->
   fst (loop l (entry :: rest) w) = true /\
   only_logged w (snd (loop l (entry :: rest) w))) /\
  (u8 (Z.shiftr (value entry) 29) = ZCODE_NORM ->
   exists w', only_logged w w' /\ loop l (entry :: rest) w = loop l rest w').
Proof.
  intros Hs Hf Hm Ha.
  assert (E : forall zc, u8 (Z.shiftr (value entry) 29) = zc -> zc = 0 \/ zc = 2 ->
            wp (entry_step l entry)
               (fun flow w' => only_logged w w' /\
                  flow = if zc =? 0 then Return true else Continue l) w).
  { intros zc Hz Hzc.
    assert (H0 : only_logged w w) by reflexivity.
    unfold RunCodeLocked_entry. cbv zeta. rewrite Hs, Hf, Hm, Ha, Hz. cbn [Z.eqb negb Z.leb Z.compare andb].
    destruct Hzc as [-> | ->]; logged_steps; (split; [assumption|reflexivity]). }
  split; intros Hz; rewrite loop_cons.
  - destruct (E 0 Hz (or_introl eq_refl)) as [Hl Hflow]. rewrite Hflow.
    split; [reflexivity|exact Hl].
  - destruct (E 2 Hz (or_intror eq_refl)) as [Hl Hflow]. rewrite Hflow.
    eexists. split; [exact Hl|reflexivity].
Qed.

(** X17: with Memory Copy pending, the next entry fails exactly when its
    value has a bit of 0x00FF0000 set: then the run returns failure, one
    alert is raised and guest memory is as it was; otherwise the iteration
    ends with the flag cleared and the loop going on. *)
Theorem memory_copy_value_check (l : Locals) (entry : AREntry) (w : World) :
  skip_count l = 0 -> do_fill_and_slide l = false -> do_memory_copy l = true ->
  let r := entry_step l entry w in
  (Z.land (value entry) 0xFF0000 = 0 ->
   fst r = Continue (mkLocals false false 0 (val_last l))) /\
  (Z.land (value entry) 0xFF0000 <> 0 ->
   fst r = Return false /\ memory (snd r) = memory w /\
   exists alert, panic_alerts (snd r) = panic_alerts w ++ [alert]).
Proof.
  intros Hs Hf Hm. cbv zeta.
  rewrite (entry_step_do_copy MAX_LOGLEVEL LINFO float_add l entry Hs Hf Hm).
  split; intros Hv.
  - rewrite !bind_unfold. unfold ZeroCode_MemoryCopy. rewrite Hv. cbn [Z.eqb].
    destruct (negb (Z.shiftr (value entry) 24 =? 0)); reflexivity.
  - change (wp (LogInfo MAX_LOGLEVEL LINFO "--- Running Code: %08x %08x ---"
                  [ArgZ (cmd_addr entry); ArgZ (value entry)] ;;
                LogInfo MAX_LOGLEVEL LINFO "Doing Memory Copy" [] ;;
                ok <- ZeroCode_MemoryCopy MAX_LOGLEVEL LINFO (val_last l) (cmd_addr entry)
                        (value entry) ;;
                if negb ok then ret (Return false)
                else ret (Continue (mkLocals false false 0 (val_last l))))
              (fun flow w' =>
                 flow = Return false /\ memory w' = memory w /\
                 exists alert, panic_alerts w' = panic_alerts w ++ [alert]) w).
    assert (H0 : only_logged w w) by reflexivity.
    unfold ZeroCode_MemoryCopy.
    replace (Z.land (value entry) 0xFF0000 =? 0) with false
      by (symmetry; apply Z.eqb_neq; exact Hv).
    logged_steps. apply wp_current_code_name. intros n.
    eapply wp_mono; [apply raise_and_ret; eassumption|].
    cbv beta. intros ok w' (-> & Hmem & Hal).
    cbn [negb]. apply wp_ret. repeat split; assumption.
Qed.

End Unsupported.

Section PlainCodes.

Variables MAX_LOGLEVEL LINFO : Z.
Variable float_add : Z -> Z -> Z.

Local Abbreviation entry_step := (RunCodeLocked_entry MAX_LOGLEVEL LINFO float_add).
Local Abbreviation loop := (RunCodeLocked_loop MAX_LOGLEVEL LINFO float_add).
Local Abbreviation run := (RunCodeLocked MAX_LOGLEVEL LINFO float_add).
Local Abbreviation tick := (RunAllActive MAX_LOGLEVEL LINFO float_add).

(** An iteration on a plain entry, with no composite pending, does not
    fail and leaves no composite pending. *)
Lemma entry_step_plain (l : Locals) (entry : AREntry) (w : World) :
  do_fill_and_slide l = false -> do_memory_copy l = false ->
  plain_entry entry = true ->
  fst (entry_step l entry w) = Return true \/
  exists l', fst (entry_step l entry w) = Continue l' /\
             do_fill_and_slide l' = false /\ do_memory_copy l' = false.
Proof.
  intros Hf Hm Hp.
  change (wp (entry_step l entry)
            (fun flow _ => flow = Return true \/
               exists l', flow = Continue l' /\
                          do_fill_and_slide l' = false /\ do_memory_copy l' = false) w).
  unfold plain_entry in Hp. cbv zeta in Hp.
  apply andb_prop in Hp as [Hp Hmaster]. apply andb_prop in Hp as [Hzero Hguard].
  apply negb_true_iff in Hzero, Hguard, Hmaster.
  unfold RunCodeLocked_entry. cbv zeta.
  destruct (skip_count l =? 0); cbn [negb].
  - rewrite Hf, Hm, Hguard. rewrite Z.eqb_sym in Hzero. rewrite Hzero.
    wp_steps.
    destruct (ARAddr.type (cmd_addr entry)) as [|p|p] eqn:Et.
    + cbn [Z.eqb andb] in Hmaster. apply Z.eqb_neq in Hmaster.
      wp_steps. unfold wp. rewrite NormalCode_succeeds by exact Hmaster.
      cbn [negb]. right. exists l. repeat split; assumption.
    + wp_steps. unfold wp.
      match goal with |- context [ConditionalCode ?a ?b ?d ?e ?c ?w] =>
        destruct (ConditionalCode_succeeds a b d e c w) as [Hok _];
        destruct (ConditionalCode a b d e c w) as [[ok n] w'] end.
      cbn [fst snd] in *. subst ok.
      cbn [negb]. right. eexists. split; [reflexivity|]. split; assumption.
    + wp_steps. unfold wp.
      match goal with |- context [ConditionalCode ?a ?b ?d ?e ?c ?w] =>
        destruct (ConditionalCode_succeeds a b d e c w) as [Hok _];
        destruct (ConditionalCode a b d e c w) as [[ok n] w'] end.
      cbn [fst snd] in *. subst ok.
      cbn [negb]. right. eexists. split; [reflexivity|]. split; assumption.
  - destruct (skip_count l >? 0).
    { wp_steps. right. eexists. split; [reflexivity|]. split; assumption. }
    destruct (Z.opp 0x03 =? skip_count l).
    { wp_steps. left. reflexivity. }
    destruct (Z.opp 0x02 =? skip_count l).
    { wp_steps. destruct ((cmd_addr entry =? 0) && (0x40000000 =? value entry)); wp_steps;
        right; eexists; (split; [reflexivity|]); split; assumption. }
    wp_steps. right. eexists. split; [reflexivity|]. split; assumption.
Qed.

Lemma loop_plain (entries : list AREntry) (l : Locals) (w : World) :
  do_fill_and_slide l = false -> do_memory_copy l = false ->
  forallb plain_entry entries = true ->
  fst (loop l entries w) = true.
Proof.
  revert l w. induction entries as [|entry rest IH]; intros l w Hf Hm Hp.
  - reflexivity.
  - cbn [forallb] in Hp. apply andb_prop in Hp as [He Hrest].
    rewrite loop_cons.
    destruct (entry_step_plain l entry w Hf Hm He) as [E | (l' & E & Hf' & Hm')]; rewrite E.
    + reflexivity.
    + apply IH; assumption.
Qed.

Lemma run_plain (code : ARCode) (w : World) :
  plain_code code = true -> fst (run code w) = true.
Proof.
  intros Hp. rewrite RunCodeLocked_unfold. apply loop_plain; [reflexivity|reflexivity|exact Hp].
Qed.

Lemma remove_if_plain (codes : list ARCode) (w : World) :
  forallb plain_code codes = true ->
  fst (RunAllActive_remove_if MAX_LOGLEVEL LINFO float_add codes w) = codes.
Proof.
  revert w. induction codes as [|code rest IH]; intros w Hp.
  - reflexivity.
  - cbn [forallb] in Hp. apply andb_prop in Hp as [Hc Hrest].
    cbn [RunAllActive_remove_if]. rewrite !bind_unfold.
    rewrite run_plain by exact Hc. rewrite IH by exact Hrest. reflexivity.
Qed.

(** The pass keeps a code that is plain, whatever the other codes are. *)
Lemma remove_if_keeps_plain (codes : list ARCode) (code : ARCode) (w : World) :
  plain_code code = true -> code ∈ codes ->
  code ∈ fst (RunAllActive_remove_if MAX_LOGLEVEL LINFO float_add codes w).
Proof.
  intros Hp. revert w. induction codes as [|first rest IH]; intros w Hin.
  - inversion Hin.
  - cbn [RunAllActive_remove_if]. rewrite !bind_unfold. cbn [ret fst].
    apply elem_of_cons in Hin as [<- | Hin].
    + rewrite run_plain by exact Hp. cbn [negb]. left.
    + match goal with |- _ ∈ (if ?b then _ else _) => destruct b end;
        [|right]; apply IH, Hin.
Qed.

(** X23: what can make a run fail.  A code none of whose command words
    is 0 (a zero code), in 0x2000..0x2FFF or a master code (type 0,
    subtype 3) always succeeds, whatever guest memory holds: writes, adds
    and conditionals have no failing case. *)
Theorem plain_code_succeeds (code : ARCode) (w : World) :
  plain_code code = true -> fst (run code w) = true.
Proof.
  intros Hp. rewrite RunCodeLocked_unfold.
  apply loop_plain; [reflexivity|reflexivity|exact Hp].
Qed.

(** X24: the pass of [RunAllActive] retires no such code.  Whatever the
    world and the other codes of the list, a code made of writes, adds and
    conditionals only is kept by the pass; and a list made of such codes
    only comes out of the pass as it went in. *)
Theorem plain_codes_stay (codes : list ARCode) (w : World) :
  let kept := fst (RunAllActive_remove_if MAX_LOGLEVEL LINFO float_add codes w) in
  (forall code, plain_code code = true -> code ∈ codes -> code ∈ kept) /\
  (forallb plain_code codes = true -> kept = codes).
Proof.
  cbv zeta. split.
  - intros code Hp Hin. apply remove_if_keeps_plain; assumption.
  - revert w. induction codes as [|code rest IH]; intros w Hp; [reflexivity|].
    cbn [forallb] in Hp. apply andb_prop in Hp as [Hc Hrest].
    cbn [RunAllActive_remove_if]. rewrite !bind_unfold.
    rewrite run_plain by exact Hc. rewrite IH by exact Hrest. reflexivity.
Qed.

Lemma builtin_codes_plain (game region : Z) :
  forallb plain_code (ActivateARCodesFor_codes game region) = true /\
  filter (fun code => active code = true) (ActivateARCodesFor_codes game region)
  = ActivateARCodesFor_codes game region.
Proof.
  unfold ActivateARCodesFor_codes.
  destruct (region =? 0); [|destruct (region =? 1)];
    destruct (game =? 1), (game =? 2), (game =? 3); split; vm_compute; reflexivity.
Qed.

(** X25: the codes built into the program stay.  For every title and
    region, [ActivateARCodesFor] with cheats enabled leaves in the store
    exactly the codes it builds (all are active), and the pass of
    [RunAllActive] over them, from any world, keeps them all: none of them
    can fail. *)
Theorem builtin_codes_stay (game region : Z) (w w' : World) :
  bEnableCheats w = true ->
  s_active_codes (snd (ActivateARCodesFor game region w))
  = ActivateARCodesFor_codes game region /\
  fst (RunAllActive_remove_if MAX_LOGLEVEL LINFO float_add
         (ActivateARCodesFor_codes game region) w')
  = ActivateARCodesFor_codes game region.
Proof.
  intros Hen.
  destruct (builtin_codes_plain game region) as [Hp Hact].
  split.
  - unfold ActivateARCodesFor. rewrite ApplyCodes_store, Hen. exact Hact.
  - apply remove_if_plain, Hp.
Qed.

End PlainCodes.

(** ** More on Memory Copy, the tick and the log *)

Lemma mem_read_u32_nonneg (m : Memory) (a : Z) : 0 <= mem_read_u32 m a.
Proof.
  unfold mem_read_u32.
  pose proof (mem_read_u16_range m a). pose proof (mem_read_u16_range m (a + 2)).
  apply Z.lor_nonneg. split; [apply Z.shiftl_nonneg|]; lia.
Qed.

Section CopyPointers.

Variables MAX_LOGLEVEL LINFO : Z.

Local Abbreviation copy := (ZeroCode_MemoryCopy MAX_LOGLEVEL LINFO).

(** X26: Memory Copy with pointers ([data >> 24] not 0, value check
    passed) reads two 32-bit pointers, the destination from
    [val_last & ~0x06000000] and the source from the effective address of
    the entry, and copies [data mod 256] bytes from the one to the other:
    when the two ranges neither wrap nor overlap, each destination byte
    reads as the source byte did, every other byte is as it was, and the
    call succeeds. *)
Theorem memory_copy_with_pointers (val_last addr data : Z) (w : World) :
  let n := data mod 2 ^ 8 in
  let src := mem_read_u32 (memory w) (ARAddr.GCAddress addr) in
  let dest := mem_read_u32 (memory w) (Z.land val_last (Z.lnot 0x06000000)) in
  Z.land data 0xFF0000 = 0 -> Z.shiftr data 24 <> 0 ->
  src + n <= 2 ^ 32 -> dest + n <= 2 ^ 32 ->
  dest + n <= src \/ src + n <= dest ->
  let r := copy val_last addr data w in
  fst r = true /\
  forall a : Z,
    mem_read_u8 (memory (snd r)) a
    = if (dest <=? u32 a) && (u32 a <? dest + n)
      then mem_read_u8 (memory w) (src + (u32 a - dest))
      else mem_read_u8 (memory w) a.
Proof.
  cbv zeta. intros H1 H2 Hs Hd Hdis.
  assert (En : u8 (Z.land data 0x7FFF) = data mod 2 ^ 8).
  { unfold u8. apply Z.bits_inj'. intros i Hi.
    rewrite !Z.testbit_mod_pow2 by lia.
    destruct (Z.ltb_spec i 8); [|reflexivity]. cbn [andb].
    change 0x7FFF with (Z.ones 15). rewrite Z.land_ones, Z.testbit_mod_pow2 by lia.
    replace (i <? 15) with true by (symmetry; apply Z.ltb_lt; lia). reflexivity. }
  pose proof (Z.mod_pos_bound data (2 ^ 8) ltac:(lia)) as Hn.
  pose proof (mem_read_u32_nonneg (memory w) (ARAddr.GCAddress addr)) as Hsrc.
  pose proof (mem_read_u32_nonneg (memory w) (Z.land val_last (Z.lnot 0x06000000))) as Hdest.
  set (src := mem_read_u32 (memory w) (ARAddr.GCAddress addr)) in *.
  set (dest := mem_read_u32 (memory w) (Z.land val_last (Z.lnot 0x06000000))) in *.
  change (wp (copy val_last addr data)
            (fun ok w' => ok = true /\ forall a : Z,
               mem_read_u8 (memory w') a
               = if (dest <=? u32 a) && (u32 a <? dest + data mod 2 ^ 8)
                 then mem_read_u8 (memory w) (src + (u32 a - dest))
                 else mem_read_u8 (memory w) a) w).
  unfold ZeroCode_MemoryCopy. rewrite H1, En.
  replace (Z.shiftr data 24 =? 0) with false by (symmetry; apply Z.eqb_neq; exact H2).
  cbn [negb]. change (0 =? 0) with true. cbv iota.
  repeat (lazymatch goal with
          | |- wp (bind (HostRead_U32 _) _) _ _ => fail
          | _ => wp_step; cbv beta
          end).
  apply wp_bind, wp_HostRead_U32.
  match goal with H : memory ?w1 = memory w |- context [memory ?w1] => rewrite H end.
  fold dest.
  repeat (lazymatch goal with
          | |- wp (bind (HostRead_U32 _) _) _ _ => fail
          | _ => wp_step; cbv beta
          end).
  apply wp_bind, wp_HostRead_U32.
  match goal with H : memory ?w1 = memory w |- context [memory ?w1] => rewrite H end.
  fold src.
  wp_steps.
  eapply wp_mono.
  - apply MemoryCopy_loop_spec; lia.
  - cbv beta. intros _ w' Hcopy. wp_steps. split; [reflexivity|]. intros a.
    match goal with H : memory _ = memory w' |- _ => rewrite H end.
    rewrite Hcopy.
    repeat match goal with H : memory _ = memory _ |- _ => rewrite H end.
    reflexivity.
Qed.

End CopyPointers.

Section Retire.

Variables MAX_LOGLEVEL LINFO : Z.
Variable float_add : Z -> Z -> Z.

Local Abbreviation run := (RunCodeLocked MAX_LOGLEVEL LINFO float_add).
Local Abbreviation tick := (RunAllActive MAX_LOGLEVEL LINFO float_add).

(** Every code the pass keeps has just run with success. *)
Lemma remove_if_kept (codes : list ARCode) (w : World) :
  wp (RunAllActive_remove_if MAX_LOGLEVEL LINFO float_add codes)
     (fun kept _ => forall code, code ∈ kept -> exists w', fst (run code w') = true) w.
Proof.
  revert w. induction codes as [|code rest IH]; intros w.
  - apply wp_ret. intros code Hin. inversion Hin.
  - cbn [RunAllActive_remove_if]. apply wp_bind.
    unfold wp at 1. destruct (run code w) as [success w1] eqn:Erun. cbn [fst snd].
    apply wp_bind. apply wp_any. intros _ w2. apply wp_bind.
    eapply wp_mono; [apply IH|].
    cbv beta. intros kept w3 Hkept. apply wp_ret.
    intros code' Hin. destruct success; cbn [negb] in Hin.
    + apply elem_of_cons in Hin as [-> | Hin]; [|apply Hkept, Hin].
      exists w. rewrite Erun. reflexivity.
    + apply Hkept, Hin.
Qed.

(** X27: a code that cannot succeed is retired: with cheats enabled, a
    code whose run fails from every world (one that begins with an
    unsupported instruction, say) is not in the store after a tick, however
    many times the store held it. *)
Theorem failing_code_is_retired (code : ARCode) (w : World) :
  bEnableCheats w = true ->
  (forall w', fst (run code w') = false) ->
  code ∉ s_active_codes (snd (tick w)).
Proof.
  intros Hen Hfail Hin. unfold RunAllActive in Hin. rewrite Hen in Hin.
  cbn [negb snd with_disable_logging with_active_codes s_active_codes] in Hin.
  destruct (remove_if_kept (s_active_codes w) w code Hin) as [w' Hok].
  rewrite Hfail in Hok. discriminate Hok.
Qed.

(** A code that begins with an unsupported instruction fails from every
    world. *)
Lemma unsupported_first_fails (code : ARCode) (entry : AREntry) (rest : list AREntry)
    (w : World) :
  ops code = entry :: rest -> unsupported entry = true -> fst (run code w) = false.
Proof.
  intros Hops Hu. rewrite RunCodeLocked_unfold, Hops, loop_cons.
  pose proof (unsupported_fails MAX_LOGLEVEL LINFO float_add (mkLocals false false 0 0) entry
                (loop_start MAX_LOGLEVEL LINFO code w) eq_refl eq_refl eq_refl Hu) as H.
  unfold wp in H. destruct H as [Hflow _]. rewrite Hflow. reflexivity.
Qed.

End Retire.

Section Header.

Variables MAX_LOGLEVEL LINFO : Z.
Variable float_add : Z -> Z -> Z.

Local Abbreviation run := (RunCodeLocked MAX_LOGLEVEL LINFO float_add).

(** A line logged with logging on and self logging on goes to both logs. *)
Lemma LogInfo_self_logging (format : string) (args : list FmtArg) (w : World) :
  s_disable_logging w = false -> s_use_internal_log w = true ->
  snd (LogInfo MAX_LOGLEVEL LINFO format args w)
  = with_internal_log (s_internal_log w ++ [mkText format args])
      (with_info_log (info_log w ++ [mkText format args]) w).
Proof.
  intros Hd Hu. unfold LogInfo. rewrite Hd, Hu. cbn [negb]. rewrite andb_false_r.
  reflexivity.
Qed.

(** X28: with logging not latched off and self logging on, a run appends
    to [INFO_LOG] and to the self log the line that names the code, the
    line with its number of ops, and then the same further lines to
    both. *)
Theorem run_logs_its_header (arcode : ARCode) (w : World) :
  s_disable_logging w = false -> s_use_internal_log w = true ->
  exists more,
    let header :=
      [mkText "Code Name: %s" [ArgS (name arcode)];
       mkText "Number of codes: %zu" [ArgZ (Z.of_nat (length (ops arcode)))]] in
    s_internal_log (snd (run arcode w)) = s_internal_log w ++ header ++ more /\
    info_log (snd (run arcode w)) = info_log w ++ header ++ more.
Proof.
  intros Hd Hu. unfold RunCodeLocked. cbv zeta. rewrite !bind_unfold. cbn [fst snd].
  set (w1 := with_current_code (Some arcode) w).
  rewrite (LogInfo_self_logging _ _ w1) by assumption.
  set (w2 := with_internal_log _ _).
  rewrite (LogInfo_self_logging _ _ w2) by assumption.
  set (w3 := with_internal_log _ _).
  destruct (frames_loop MAX_LOGLEVEL LINFO float_add (mkLocals false false 0 0) (ops arcode) w3)
    as (_ & _ & _ & _ & _ & (lines & Hi & Hs & _)).
  exists lines. cbv zeta. rewrite Hi, Hs.
  replace (s_use_internal_log w3) with true by (symmetry; exact Hu).
  subst w3 w2 w1. cbn [with_internal_log with_info_log with_current_code s_internal_log info_log].
  rewrite <- !app_assoc. split; reflexivity.
Qed.

End Header.

(** ** Fill and Slide at every width *)

(** A 32-bit read depends on the four bytes of its cell only. *)
Lemma mem_read_u32_ext (m1 m2 : Memory) (a : Z) :
  (forall k, 0 <= k < 4 -> mem_read_u8 m1 (a + k) = mem_read_u8 m2 (a + k)) ->
  mem_read_u32 m1 a = mem_read_u32 m2 a.
Proof.
  intros H. unfold mem_read_u32, mem_read_u16.
  pose proof (H 0 ltac:(lia)) as H0. rewrite Z.add_0_r in H0.
  pose proof (H 1 ltac:(lia)) as H1.
  pose proof (H 2 ltac:(lia)) as H2.
  pose proof (H 3 ltac:(lia)) as H3.
  replace (a + 3) with (a + 2 + 1) in H3 by lia.
  rewrite H0, H1, H2, H3. reflexivity.
Qed.

(** The bytes outside its cell that a 32-bit write leaves alone. *)
Lemma mem_read_u8_write_u32_other (m : Memory) (var address b : Z) :
  0 <= address -> address + 4 <= 2 ^ 32 ->
  u32 b < address \/ address + 4 <= u32 b ->
  mem_read_u8 (mem_write_u32 m var address) b = mem_read_u8 m b.
Proof.
  intros Hlo Hhi Hb. rewrite mem_read_u8_write_u32.
  rewrite (u32_small (address + 2 + 1)), (u32_small (address + 2)),
    (u32_small (address + 1)), (u32_small address) by lia.
  destruct (Z.eqb_spec (u32 b) (address + 2 + 1)); [lia|].
  destruct (Z.eqb_spec (u32 b) (address + 2)); [lia|].
  destruct (Z.eqb_spec (u32 b) (address + 1)); [lia|].
  destruct (Z.eqb_spec (u32 b) address); [lia|reflexivity].
Qed.

Lemma u32_add_u32 (x y : Z) : u32 (u32 x + y) = u32 (x + y).
Proof. unfold u32. apply Z.add_mod_idemp_l. lia. Qed.

Section Slide32.

Variables MAX_LOGLEVEL LINFO : Z.

Local Abbreviation slide := (ZeroCode_FillAndSlide MAX_LOGLEVEL LINFO).

(** The 32-bit loop of Fill and Slide, the cells it writes being apart and
    inside the 32-bit address space. *)
Lemma FillAndSlide_loop32_spec (n : nat) (addr_incr val_incr val curr_addr : Z) (w : World) :
  addr_incr <> 0 ->
  (forall i, 0 <= i < Z.of_nat n ->
     0 <= curr_addr + i * (addr_incr * 4) /\ curr_addr + i * (addr_incr * 4) + 4 <= 2 ^ 32) ->
  wp (FillAndSlide_loop32 MAX_LOGLEVEL LINFO n addr_incr val_incr val curr_addr)
     (fun _ w' =>
        (forall i, 0 <= i < Z.of_nat n ->
           mem_read_u32 (memory w') (curr_addr + i * (addr_incr * 4))
           = u32 (val + i * val_incr)) /\
        (forall b,
           (forall i, 0 <= i < Z.of_nat n ->
              u32 b < curr_addr + i * (addr_incr * 4) \/
              curr_addr + i * (addr_incr * 4) + 4 <= u32 b) ->
           mem_read_u8 (memory w') b = mem_read_u8 (memory w) b)) w.
Proof.
  intros Hincr. revert val curr_addr w.
  induction n as [|n IH]; intros val curr_addr w Hrange.
  - apply wp_ret. split; [intros i Hi; lia|reflexivity].
  - cbn [FillAndSlide_loop32]. wp_steps.
    set (cur' := u32 (curr_addr + addr_incr * 4)).
    assert (Hcur : n = O \/ cur' = curr_addr + addr_incr * 4).
    { destruct n as [|n]; [left; reflexivity|right].
      apply u32_small. specialize (Hrange 1 ltac:(lia)). lia. }
    assert (Hrange' : forall i, 0 <= i < Z.of_nat n ->
              0 <= cur' + i * (addr_incr * 4) /\ cur' + i * (addr_incr * 4) + 4 <= 2 ^ 32).
    { intros i Hi. destruct Hcur as [-> | ->]; [lia|].
      specialize (Hrange (i + 1) ltac:(lia)). lia. }
    eapply wp_mono; [apply (IH (u32 (val + val_incr)) cur' _ Hrange')|].
    cbv beta. intros _ w' [Hw Hframe].
    pose proof (Hrange 0 ltac:(lia)) as H0. rewrite Z.mul_0_l, Z.add_0_r in H0.
    assert (Hmem : forall b, mem_read_u8 (memory w') b
                             = mem_read_u8 (mem_write_u32 (memory w) val curr_addr) b
                   \/ exists i, 0 <= i < Z.of_nat n /\
                        cur' + i * (addr_incr * 4) <= u32 b < cur' + i * (addr_incr * 4) + 4).
    { intros b.
      assert (Hdec : forall m : nat,
                (forall i, 0 <= i < Z.of_nat m ->
                   u32 b < cur' + i * (addr_incr * 4) \/
                   cur' + i * (addr_incr * 4) + 4 <= u32 b) \/
                (exists i, 0 <= i < Z.of_nat m /\
                   cur' + i * (addr_incr * 4) <= u32 b < cur' + i * (addr_incr * 4) + 4)).
      { induction m as [|m IHm]; [left; intros i Hi; lia|].
        destruct IHm as [Hall | (i & Hi & Hin)].
        - destruct (Z_lt_dec (u32 b) (cur' + Z.of_nat m * (addr_incr * 4))) as [Hlt|Hge].
          + left. intros i Hi. destruct (Z.eq_dec i (Z.of_nat m)) as [-> | Hne];
              [left; exact Hlt|apply Hall; lia].
          + destruct (Z_le_dec (cur' + Z.of_nat m * (addr_incr * 4) + 4) (u32 b)) as [Hle|Hgt].
            * left. intros i Hi. destruct (Z.eq_dec i (Z.of_nat m)) as [-> | Hne];
                [right; exact Hle|apply Hall; lia].
            * right. exists (Z.of_nat m). split; lia.
        - right. exists i. split; [lia|exact Hin]. }
      destruct (Hdec n) as [Hall | Hex]; [left|right; exact Hex].
      rewrite (Hframe b Hall).
      match goal with H : memory _ = _ |- _ => rewrite H end. reflexivity. }
    split.
    + intros i Hi. destruct (Z.eq_dec i 0) as [-> | Hne].
      * rewrite Z.mul_0_l, !Z.add_0_r.
        rewrite <- (mem_read_write_u32 (memory w) val curr_addr).
        apply mem_read_u32_ext. intros k Hk.
        destruct (Hmem (curr_addr + k)) as [E | (j & Hj & Hin)]; [exact E|exfalso].
        rewrite (u32_small (curr_addr + k)) in Hin by lia.
        destruct Hcur as [-> | Hcur]; [lia|]. rewrite Hcur in Hin. nia.
      * destruct Hcur as [-> | Hcur]; [lia|].
        specialize (Hw (i - 1) ltac:(lia)). rewrite Hcur in Hw.
        replace (curr_addr + addr_incr * 4 + (i - 1) * (addr_incr * 4))
          with (curr_addr + i * (addr_incr * 4)) in Hw by ring.
        rewrite Hw, u32_add_u32. f_equal. ring.
    + intros b Hb.
      destruct (Hmem b) as [E | (j & Hj & Hin)].
      * rewrite E. apply mem_read_u8_write_u32_other; [lia|lia|].
        specialize (Hb 0 ltac:(lia)). lia.
      * exfalso. destruct Hcur as [-> | Hcur]; [lia|]. rewrite Hcur in Hin.
        specialize (Hb (j + 1) ltac:(lia)). lia.
Qed.

(** The 32-bit Fill and Slide with a non-zero address increment. *)
Lemma FillAndSlide_32bit (val_last addr data : Z) (w : World) :
  let new_addr := ARAddr.GCAddress val_last in
  let addr_incr := s16 (Z.land data 0xFFFF) in
  let val_incr := s8 (Z.shiftr data 24) in
  let write_num := u8 (Z.shiftr (Z.land data 0xFF0000) 16) in
  ARAddr.size val_last = 2 -> addr_incr <> 0 ->
  let r := slide val_last addr data w in
  fst r = true /\
  (forall i, 0 <= i < write_num ->
     mem_read_u32 (memory (snd r)) (new_addr + i * (addr_incr * 4))
     = u32 (addr + i * val_incr)) /\
  (forall b,
     (forall i, 0 <= i < write_num ->
        u32 b < new_addr + i * (addr_incr * 4) \/
        new_addr + i * (addr_incr * 4) + 4 <= u32 b) ->
     mem_read_u8 (memory (snd r)) b = mem_read_u8 (memory w) b).
Proof.
  cbv zeta. intros Hsize Hincr.
  set (new_addr := ARAddr.GCAddress val_last).
  set (addr_incr := s16 (Z.land data 0xFFFF)) in *.
  set (val_incr := s8 (Z.shiftr data 24)).
  set (write_num := u8 (Z.shiftr (Z.land data 0xFF0000) 16)).
  change (wp (slide val_last addr data)
            (fun ok w' => ok = true /\
               (forall i, 0 <= i < write_num ->
                  mem_read_u32 (memory w') (new_addr + i * (addr_incr * 4))
                  = u32 (addr + i * val_incr)) /\
               (forall b,
                  (forall i, 0 <= i < write_num ->
                     u32 b < new_addr + i * (addr_incr * 4) \/
                     new_addr + i * (addr_incr * 4) + 4 <= u32 b) ->
                  mem_read_u8 (memory w') b = mem_read_u8 (memory w) b)) w).
  unfold ZeroCode_FillAndSlide. rewrite Hsize. change (u8 2) with 2.
  fold new_addr addr_incr val_incr write_num.
  pose proof (GCAddress_bounds val_last) as Hb. fold new_addr in Hb.
  pose proof (s16_range (Z.land data 0xFFFF)) as Hi16. fold addr_incr in Hi16.
  assert (Hn : 0 <= write_num < 2 ^ 8) by (apply Z.mod_pos_bound; lia).
  wp_steps.
  eapply wp_mono.
  - apply FillAndSlide_loop32_spec; [exact Hincr|].
    intros i Hi. rewrite Z2Nat.id in Hi by lia. nia.
  - cbv beta. intros _ w' [Hw Hframe]. rewrite Z2Nat.id in Hw, Hframe by lia.
    wp_steps. split; [reflexivity|]. split.
    + intros i Hi.
      match goal with H : memory _ = memory w' |- _ => rewrite H end.
      apply Hw, Hi.
    + intros b Hb'.
      match goal with H : memory _ = memory w' |- _ => rewrite H end.
      rewrite Hframe by exact Hb'.
      match goal with H : memory _ = memory w |- _ => rewrite H end.
      reflexivity.
Qed.

End Slide32.

(** A 16-bit read depends on the two bytes of its cell only. *)
Lemma mem_read_u16_ext (m1 m2 : Memory) (a : Z) :
  (forall k, 0 <= k < 2 -> mem_read_u8 m1 (a + k) = mem_read_u8 m2 (a + k)) ->
  mem_read_u16 m1 a = mem_read_u16 m2 a.
Proof.
  intros H. unfold mem_read_u16.
  pose proof (H 0 ltac:(lia)) as H0. rewrite Z.add_0_r in H0.
  pose proof (H 1 ltac:(lia)) as H1.
  rewrite H0, H1. reflexivity.
Qed.

(** The bytes outside its cell that a 16-bit write leaves alone. *)
Lemma mem_read_u8_write_u16_other (m : Memory) (var address b : Z) :
  0 <= address -> address + 2 <= 2 ^ 32 ->
  u32 b < address \/ address + 2 <= u32 b ->
  mem_read_u8 (mem_write_u16 m var address) b = mem_read_u8 m b.
Proof.
  intros Hlo Hhi Hb. rewrite mem_read_u8_write_u16.
  rewrite (u32_small (address + 1)), (u32_small address) by lia.
  destruct (Z.eqb_spec (u32 b) (address + 1)); [lia|].
  destruct (Z.eqb_spec (u32 b) address); [lia|reflexivity].
Qed.

Lemma u16_add_u32 (x y : Z) : u16 (u32 x + y) = u16 (x + y).
Proof.
  unfold u16, u32. rewrite (Z.mod_eq x (2 ^ 32)) by lia.
  replace (x - 2 ^ 32 * (x / 2 ^ 32) + y) with (x + y + (- (2 ^ 16 * (x / 2 ^ 32))) * 2 ^ 16).
  - apply Z.mod_add. lia.
  - change (2 ^ 32) with (2 ^ 16 * 2 ^ 16). ring.
Qed.

Lemma u16_land_FFFF (x : Z) : u16 (Z.land x 0xFFFF) = u16 x.
Proof.
  unfold u16. change 0xFFFF with (Z.ones 16). rewrite Z.land_ones by lia.
  apply Z.mod_mod. lia.
Qed.

Section Slide16.

Variables MAX_LOGLEVEL LINFO : Z.

Local Abbreviation slide := (ZeroCode_FillAndSlide MAX_LOGLEVEL LINFO).

(** The 16-bit loop of Fill and Slide, the cells it writes being apart and
    inside the 32-bit address space. *)
Lemma FillAndSlide_loop16_spec (n : nat) (addr_incr val_incr val curr_addr : Z) (w : World) :
  addr_incr <> 0 ->
  (forall i, 0 <= i < Z.of_nat n ->
     0 <= curr_addr + i * (addr_incr * 2) /\ curr_addr + i * (addr_incr * 2) + 2 <= 2 ^ 32) ->
  wp (FillAndSlide_loop16 MAX_LOGLEVEL LINFO n addr_incr val_incr val curr_addr)
     (fun _ w' =>
        (forall i, 0 <= i < Z.of_nat n ->
           mem_read_u16 (memory w') (curr_addr + i * (addr_incr * 2))
           = u16 (val + i * val_incr)) /\
        (forall b,
           (forall i, 0 <= i < Z.of_nat n ->
              u32 b < curr_addr + i * (addr_incr * 2) \/
              curr_addr + i * (addr_incr * 2) + 2 <= u32 b) ->
           mem_read_u8 (memory w') b = mem_read_u8 (memory w) b)) w.
Proof.
  intros Hincr. revert val curr_addr w.
  induction n as [|n IH]; intros val curr_addr w Hrange.
  - apply wp_ret. split; [intros i Hi; lia|reflexivity].
  - cbn [FillAndSlide_loop16]. wp_steps.
    set (cur' := u32 (curr_addr + addr_incr * 2)).
    assert (Hcur : n = O \/ cur' = curr_addr + addr_incr * 2).
    { destruct n as [|n]; [left; reflexivity|right].
      apply u32_small. specialize (Hrange 1 ltac:(lia)). lia. }
    assert (Hrange' : forall i, 0 <= i < Z.of_nat n ->
              0 <= cur' + i * (addr_incr * 2) /\ cur' + i * (addr_incr * 2) + 2 <= 2 ^ 32).
    { intros i Hi. destruct Hcur as [-> | ->]; [lia|].
      specialize (Hrange (i + 1) ltac:(lia)). lia. }
    eapply wp_mono; [apply (IH (u32 (val + val_incr)) cur' _ Hrange')|].
    cbv beta. intros _ w' [Hw Hframe].
    pose proof (Hrange 0 ltac:(lia)) as H0. rewrite Z.mul_0_l, Z.add_0_r in H0.
    assert (Hmem : forall b, mem_read_u8 (memory w') b
                             = mem_read_u8 (mem_write_u16 (memory w) (Z.land val 0xFFFF)
                                              curr_addr) b
                   \/ exists i, 0 <= i < Z.of_nat n /\
                        cur' + i * (addr_incr * 2) <= u32 b < cur' + i * (addr_incr * 2) + 2).
    { intros b.
      assert (Hdec : forall m : nat,
                (forall i, 0 <= i < Z.of_nat m ->
                   u32 b < cur' + i * (addr_incr * 2) \/
                   cur' + i * (addr_incr * 2) + 2 <= u32 b) \/
                (exists i, 0 <= i < Z.of_nat m /\
                   cur' + i * (addr_incr * 2) <= u32 b < cur' + i * (addr_incr * 2) + 2)).
      { induction m as [|m IHm]; [left; intros i Hi; lia|].
        destruct IHm as [Hall | (i & Hi & Hin)].
        - destruct (Z_lt_dec (u32 b) (cur' + Z.of_nat m * (addr_incr * 2))) as [Hlt|Hge].
          + left. intros i Hi. destruct (Z.eq_dec i (Z.of_nat m)) as [-> | Hne];
              [left; exact Hlt|apply Hall; lia].
          + destruct (Z_le_dec (cur' + Z.of_nat m * (addr_incr * 2) + 2) (u32 b)) as [Hle|Hgt].
            * left. intros i Hi. destruct (Z.eq_dec i (Z.of_nat m)) as [-> | Hne];
                [right; exact Hle|apply Hall; lia].
            * right. exists (Z.of_nat m). split; lia.
        - right. exists i. split; [lia|exact Hin]. }
      destruct (Hdec n) as [Hall | Hex]; [left|right; exact Hex].
      rewrite (Hframe b Hall).
      match goal with H : memory _ = _ |- _ => rewrite H end. reflexivity. }
    split.
    + intros i Hi. destruct (Z.eq_dec i 0) as [-> | Hne].
      * rewrite Z.mul_0_l, !Z.add_0_r.
        rewrite <- u16_land_FFFF.
        rewrite <- (mem_read_write_u16 (memory w) (Z.land val 0xFFFF) curr_addr).
        apply mem_read_u16_ext. intros k Hk.
        destruct (Hmem (curr_addr + k)) as [E | (j & Hj & Hin)]; [exact E|exfalso].
        rewrite (u32_small (curr_addr + k)) in Hin by lia.
        destruct Hcur as [-> | Hcur]; [lia|]. rewrite Hcur in Hin. nia.
      * destruct Hcur as [-> | Hcur]; [lia|].
        specialize (Hw (i - 1) ltac:(lia)). rewrite Hcur in Hw.
        replace (curr_addr + addr_incr * 2 + (i - 1) * (addr_incr * 2))
          with (curr_addr + i * (addr_incr * 2)) in Hw by ring.
        rewrite Hw, u16_add_u32. f_equal. ring.
    + intros b Hb.
      destruct (Hmem b) as [E | (j & Hj & Hin)].
      * rewrite E. apply mem_read_u8_write_u16_other; [lia|lia|].
        specialize (Hb 0 ltac:(lia)). lia.
      * exfalso. destruct Hcur as [-> | Hcur]; [lia|]. rewrite Hcur in Hin.
        specialize (Hb (j + 1) ltac:(lia)). lia.
Qed.

(** The 16-bit Fill and Slide with a non-zero address increment. *)
Lemma FillAndSlide_16bit (val_last addr data : Z) (w : World) :
  let new_addr := ARAddr.GCAddress val_last in
  let addr_incr := s16 (Z.land data 0xFFFF) in
  let val_incr := s8 (Z.shiftr data 24) in
  let write_num := u8 (Z.shiftr (Z.land data 0xFF0000) 16) in
  ARAddr.size val_last = 1 -> addr_incr <> 0 ->
  let r := slide val_last addr data w in
  fst r = true /\
  (forall i, 0 <= i < write_num ->
     mem_read_u16 (memory (snd r)) (new_addr + i * (addr_incr * 2))
     = u16 (addr + i * val_incr)) /\
  (forall b,
     (forall i, 0 <= i < write_num ->
        u32 b < new_addr + i * (addr_incr * 2) \/
        new_addr + i * (addr_incr * 2) + 2 <= u32 b) ->
     mem_read_u8 (memory (snd r)) b = mem_read_u8 (memory w) b).
Proof.
  cbv zeta. intros Hsize Hincr.
  set (new_addr := ARAddr.GCAddress val_last).
  set (addr_incr := s16 (Z.land data 0xFFFF)) in *.
  set (val_incr := s8 (Z.shiftr data 24)).
  set (write_num := u8 (Z.shiftr (Z.land data 0xFF0000) 16)).
  change (wp (slide val_last addr data)
            (fun ok w' => ok = true /\
               (forall i, 0 <= i < write_num ->
                  mem_read_u16 (memory w') (new_addr + i * (addr_incr * 2))
                  = u16 (addr + i * val_incr)) /\
               (forall b,
                  (forall i, 0 <= i < write_num ->
                     u32 b < new_addr + i * (addr_incr * 2) \/
                     new_addr + i * (addr_incr * 2) + 2 <= u32 b) ->
                  mem_read_u8 (memory w') b = mem_read_u8 (memory w) b)) w).
  unfold ZeroCode_FillAndSlide. rewrite Hsize. change (u8 1) with 1.
  fold new_addr addr_incr val_incr write_num.
  pose proof (GCAddress_bounds val_last) as Hb. fold new_addr in Hb.
  pose proof (s16_range (Z.land data 0xFFFF)) as Hi16. fold addr_incr in Hi16.
  assert (Hn : 0 <= write_num < 2 ^ 8) by (apply Z.mod_pos_bound; lia).
  wp_steps.
  eapply wp_mono.
  - apply FillAndSlide_loop16_spec; [exact Hincr|].
    intros i Hi. rewrite Z2Nat.id in Hi by lia. nia.
  - cbv beta. intros _ w' [Hw Hframe]. rewrite Z2Nat.id in Hw, Hframe by lia.
    wp_steps. split; [reflexivity|]. split.
    + intros i Hi.
      match goal with H : memory _ = memory w' |- _ => rewrite H end.
      apply Hw, Hi.
    + intros b Hb'.
      match goal with H : memory _ = memory w' |- _ => rewrite H end.
      rewrite Hframe by exact Hb'.
      match goal with H : memory _ = memory w |- _ => rewrite H end.
      reflexivity.
Qed.

End Slide16.

Section SlideCells.

Variables MAX_LOGLEVEL LINFO : Z.

Local Abbreviation slide := (ZeroCode_FillAndSlide MAX_LOGLEVEL LINFO).

(** X15: Fill and Slide with a non-zero address increment, at the width
    the size field of the stored word selects (0, 1, 2: one, two or four
    bytes).  Write number [i] (from 0, [write_num = (data >> 16) & 0xFF]
    of them) leaves the low bytes of [addr + i * val_incr], big-endian, in
    the cell at the effective address of the stored word plus
    [i * addr_incr * width], where the initial value is the command word
    of the second line, the address increment the signed low half of its
    value word and the value increment the signed top byte of it.  No
    address wraps and no two cells overlap; every byte outside the cells
    is as it was, and the call succeeds. *)
Theorem fill_and_slide_cells (val_last addr data : Z) (w : World) :
  let new_addr := ARAddr.GCAddress val_last in
  let size := ARAddr.size val_last in
  let addr_incr := s16 (Z.land data 0xFFFF) in
  let val_incr := s8 (Z.shiftr data 24) in
  let write_num := u8 (Z.shiftr (Z.land data 0xFF0000) 16) in
  let cell i := new_addr + i * (addr_incr * 2 ^ size) in
  size <> 3 -> addr_incr <> 0 ->
  let r := slide val_last addr data w in
  let m' := memory (snd r) in
  fst r = true /\
  (forall i, 0 <= i < write_num ->
     (size = 0 -> mem_read_u8 m' (cell i) = u8 (addr + i * val_incr)) /\
     (size = 1 -> mem_read_u16 m' (cell i) = u16 (addr + i * val_incr)) /\
     (size = 2 -> mem_read_u32 m' (cell i) = u32 (addr + i * val_incr))) /\
  (forall b,
     (forall i, 0 <= i < write_num -> u32 b < cell i \/ cell i + 2 ^ size <= u32 b) ->
     mem_read_u8 m' b = mem_read_u8 (memory w) b).
Proof.
  cbv zeta. intros Hsize Hincr.
  destruct (size_cases val_last) as [E | [E | [E | E]]]; [| | |contradiction].
  - destruct (FillAndSlide_8bit MAX_LOGLEVEL LINFO val_last addr data w E Hincr)
      as (Hok & Hcells & Hframe).
    rewrite E. change (2 ^ 0) with 1. split; [exact Hok|]. split.
    + intros i Hi. repeat split; intros E'; try discriminate E'.
      rewrite Z.mul_1_r. apply Hcells, Hi.
    + intros b Hb. apply Hframe. intros i Hi.
      specialize (Hb i Hi). rewrite Z.mul_1_r in Hb. lia.
  - destruct (FillAndSlide_16bit MAX_LOGLEVEL LINFO val_last addr data w E Hincr)
      as (Hok & Hcells & Hframe).
    rewrite E. change (2 ^ 1) with 2. split; [exact Hok|]. split.
    + intros i Hi. repeat split; intros E'; try discriminate E'.
      apply Hcells, Hi.
    + exact Hframe.
  - destruct (FillAndSlide_32bit MAX_LOGLEVEL LINFO val_last addr data w E Hincr)
      as (Hok & Hcells & Hframe).
    rewrite E. change (2 ^ 2) with 4. split; [exact Hok|]. split.
    + intros i Hi. repeat split; intros E'; try discriminate E'.
      apply Hcells, Hi.
    + exact Hframe.
Qed.

End SlideCells.

(** * Concrete runs *)

Lemma skip_until_endif_witness :
  fst (RunCodeLocked_entry 3 4 Binary32.float_add
         (mkLocals false false (-2) 0) (mkAREntry 0 0x40000000)
         (initial_world zero_memory []))
  = Continue (mkLocals false false 0 0).
Proof.
  apply (skip_until_endif 3 4 Binary32.float_add
           (mkLocals false false (-2) 0) (mkAREntry 0 0x40000000)
           (initial_world zero_memory []) eq_refl).
  split; reflexivity.
Defined.

Lemma conditional_skip_witness :
  fst (RunCodeLocked_entry 3 4 Binary32.float_add
         (mkLocals false false 0 0) (mkAREntry 0x08000100 5)
         (initial_world zero_memory []))
  = Continue (mkLocals false false 1 0).
Proof.
  destruct (conditional_skip 3 4 Binary32.float_add
              (mkLocals false false 0 0) (mkAREntry 0x08000100 5)
              (initial_world zero_memory [])
              eq_refl eq_refl eq_refl ltac:(vm_compute; split; discriminate))
    as (cmp & Hcmp & _ & _ & Hfalse & _).
  injection Hcmp as <-.
  apply (Hfalse eq_refl). reflexivity.
Defined.

Lemma S1_fill_counterexample : ~ S1_claim (initial_world zero_memory [S1_code]).
Proof.
  intros [H _]. specialize (H 0x80100000 ltac:(lia)).
  vm_compute in H. discriminate H.
Qed.

Lemma store_holds_active_codes_witness :
  all_active
    (s_active_codes
       (do_store_ops 3 4 Binary32.float_add
          [Op_ApplyCodes [S1_code; mkARCode "off" [mkAREntry 0x00100000 1] false true];
           Op_AddCode (mkARCode "row" [mkAREntry 0 0x60000000] true true);
           Op_RunAllActive]
          (initial_world zero_memory []))).
Proof.
  apply (store_holds_active_codes 3 4 Binary32.float_add (initial_world zero_memory [])).
  constructor.
Defined.

Lemma parse_save_parse_witness :
  let target_ini :=
    SetLines "ActionReplay" ["$old"; "00000000 00000000"]%string
      (SetLines "ActionReplay_Enabled" ["$A"%string] ∅) in
  fst (load_codes ∅ (SaveCodes target_ini (fst (load_codes ∅ S5_local_ini))))
  = fst (load_codes ∅ S5_local_ini).
Proof.
  apply (parse_save_parse (fun _ ops => ops) false false ∅ S5_local_ini);
    vm_compute; reflexivity.
Defined.

Lemma malformed_line_skipped_witness :
  load_codes ∅ (SetLines "ActionReplay"
                  ["$A"; "0010000G 00000001"; "00100000 00000001"]%string ∅)
  = ([mkARCode "A" [mkAREntry 0x00100000 1] false true],
     [mkText "Action Replay Error: invalid AR code line: %s" [ArgS "0010000G 00000001"];
      mkText "The address is invalid" []]) /\
  fst (LoadCodes_ini (fun _ ops => ops) false false true ∅
         (["$A"%string] ++ "hello"%string :: ["00100000 00000001"%string]) ([], []))
  = fst (LoadCodes_ini (fun _ ops => ops) false false true ∅
           (["$A"%string] ++ ["00100000 00000001"%string]) ([], [])).
Proof.
  split; [vm_compute; reflexivity|].
  apply (malformed_line_skipped (fun _ ops => ops) false false true ∅
           (mkLoadState [] [] (mkARCode EmptyString [] false false) []) "hello").
  vm_compute. reflexivity.
Defined.

Lemma malformed_line_counterexample :
  ~ malformed_line_claim "hello" (mkLoadState [] [] (mkARCode "A" [] false true) []).
Proof.
  intros H. destruct (H eq_refl) as [Hal _]. apply Hal. reflexivity.
Qed.

(** ** Further concrete runs *)

Lemma ARAddr_fields_witness :
  0x04002500
  = ARAddr.gcaddr 0x04002500 + 2 ^ 25 * ARAddr.size 0x04002500
    + 2 ^ 27 * ARAddr.type 0x04002500 + 2 ^ 30 * ARAddr.subtype 0x04002500.
Proof.
  apply (ARAddr_fields 0x04002500). vm_compute. split; [discriminate|reflexivity].
Defined.

Lemma cheats_disabled_nothing_happens_witness :
  let w := mkWorld zero_memory false [S1_code] [] false None false [] [] in
  do_store_ops 3 4 Binary32.float_add
    [Op_RunAllActive; Op_ApplyCodes []; Op_ActivateARCodesFor 1 0] w = w.
Proof.
  apply (cheats_disabled_nothing_happens 3 4 Binary32.float_add). reflexivity.
Defined.

Lemma LoadAndApplyCodes_store_witness :
  s_active_codes
    (snd (LoadAndApplyCodes (fun _ ops => ops) false false ∅ S5_local_ini
            (initial_world zero_memory [])))
  = filter (fun code => active code = true) (fst (load_codes ∅ S5_local_ini)).
Proof.
  apply (LoadAndApplyCodes_store (fun _ ops => ops) false false ∅ S5_local_ini
           (initial_world zero_memory [])).
  reflexivity.
Defined.

Lemma LoadCodes_flags_witness :
  let code := mkARCode "B" [mkAREntry 0x00100004 2] true true in
  let E := enabled_names_of (GetLines S5_local_ini "ActionReplay_Enabled") in
  (active code = bool_decide (name code ∈ E) /\
   (user_defined code = true ->
    code ∈ fst (LoadCodes_ini (fun _ ops => ops) false false true E
                  (GetLines S5_local_ini "ActionReplay") ([], []))) /\
   (user_defined code = false ->
    code ∈ fst (LoadCodes_ini (fun _ ops => ops) false false false E
                  (GetLines ∅ "ActionReplay") ([], [])))) \/
  (name code = EmptyString /\ active code = false /\ user_defined code = false).
Proof.
  apply (LoadCodes_flags (fun _ ops => ops) false false ∅ S5_local_ini).
  vm_compute. right. left.
Defined.

Lemma save_then_load_witness :
  let saved :=
    [mkARCode "A" [mkAREntry 0x00100000 1] false true;
     mkARCode "built in" [mkAREntry 0x04098ee4 0xec010072] true false;
     mkARCode "B" [mkAREntry 0x00100004 2] true true] in
  fst (load_codes ∅ (SaveCodes S5_local_ini saved))
  = [mkARCode "A" [mkAREntry 0x00100000 1] false true;
     mkARCode "B" [mkAREntry 0x00100004 2] true true].
Proof.
  apply (save_then_load (fun _ ops => ops) false false ∅ S5_local_ini).
  - reflexivity.
  - repeat constructor; vm_compute; congruence.
  - repeat constructor.
  - intros code code' Hin Hin' Hn.
    repeat match goal with
           | H : _ ∈ _ :: _ |- _ => apply elem_of_cons in H as [-> | H]
           | H : _ ∈ [] |- _ => inversion H
           end; first [reflexivity | discriminate Hn].
Defined.

Lemma saved_codes_enabled_by_name_witness :
  let saved := [mkARCode "B " [] true false] in
  let code := mkARCode "B" [mkAREntry 0x00100004 2] true false in
  (active code = true <->
   exists code', code' ∈ saved /\ active code' = true /\
                 strip_trailing (name code') = name code) \/
  (name code = EmptyString /\ active code = false /\ user_defined code = false).
Proof.
  apply (saved_codes_enabled_by_name (fun _ ops => ops) false false
           (SetLines "ActionReplay" ["$B"; "00100004 00000002"]%string ∅) ∅
           [mkARCode "B " [] true false]).
  vm_compute. left.
Defined.

Lemma reachable_fill_pending :
  reachable 3 4 Binary32.float_add (mkLocals true false 0 0x80100000).
Proof.
  apply (reachable_step 3 4 Binary32.float_add (mkLocals false false 0 0)
           (mkLocals true false 0 0x80100000) (mkAREntry 0 0x80100000)
           (initial_world zero_memory [])).
  - apply reachable_start.
  - reflexivity.
Defined.

Lemma reachable_locals_witness : locals_inv (mkLocals true false 0 0x80100000).
Proof.
  apply (reachable_locals 3 4 Binary32.float_add). exact reachable_fill_pending.
Defined.

Lemma fill_and_slide_never_fails_witness :
  fst (RunCodeLocked_entry 3 4 Binary32.float_add
         (mkLocals true false 0 0x80100000) (mkAREntry 0x000000AA 0x01030002)
         (initial_world zero_memory []))
  = Continue (mkLocals false false 0 0x80100000).
Proof.
  apply (fill_and_slide_never_fails 3 4 Binary32.float_add
           (mkLocals true false 0 0x80100000)).
  - exact reachable_fill_pending.
  - reflexivity.
Defined.

Lemma unsupported_entry_fails_witness :
  fst (RunCodeLocked_loop 3 4 Binary32.float_add (mkLocals false false 0 0)
         [mkAREntry 0xC4000000 0; mkAREntry 0x00100000 1]
         (initial_world zero_memory []))
  = false.
Proof.
  destruct (unsupported_entry_fails 3 4 Binary32.float_add (mkLocals false false 0 0)
              (mkAREntry 0xC4000000 0) [mkAREntry 0x00100000 1]
              (initial_world zero_memory []) eq_refl eq_refl eq_refl eq_refl)
    as [H _].
  exact H.
Defined.

Lemma memory_copy_value_check_witness :
  fst (RunCodeLocked_entry 3 4 Binary32.float_add
         (mkLocals false true 0 0x86500000) (mkAREntry 0x00400000 0x00010010)
         (initial_world zero_memory []))
  = Return false.
Proof.
  destruct (memory_copy_value_check 3 4 Binary32.float_add
              (mkLocals false true 0 0x86500000) (mkAREntry 0x00400000 0x00010010)
              (initial_world zero_memory []) eq_refl eq_refl eq_refl)
    as [_ H].
  apply H. discriminate.
Defined.

Lemma zero_code_end_and_norm_witness :
  fst (RunCodeLocked_loop 3 4 Binary32.float_add (mkLocals false false 0 0)
         [mkAREntry 0 0; mkAREntry 0 0x60000000]
         (initial_world zero_memory []))
  = true.
Proof.
  destruct (zero_code_end_and_norm 3 4 Binary32.float_add (mkLocals false false 0 0)
              (mkAREntry 0 0) [mkAREntry 0 0x60000000]
              (initial_world zero_memory []) eq_refl eq_refl eq_refl eq_refl)
    as [H _].
  apply H. reflexivity.
Defined.

Lemma plain_code_succeeds_witness :
  fst (run_code
         (mkARCode "lives" [mkAREntry 0x0A100000 0x00000003; mkAREntry 0x04100004 0x00000063]
            true true)
         (initial_world zero_memory []))
  = true.
Proof.
  apply (plain_code_succeeds 3 4 Binary32.float_add). reflexivity.
Defined.

Lemma plain_codes_stay_witness :
  let row := mkARCode "row" [mkAREntry 0 0x60000000] true true in
  S1_code ∈ fst (RunAllActive_remove_if 3 4 Binary32.float_add [row; S1_code]
                   (initial_world zero_memory [])).
Proof.
  destruct (plain_codes_stay 3 4 Binary32.float_add
              [mkARCode "row" [mkAREntry 0 0x60000000] true true; S1_code]
              (initial_world zero_memory []))
    as [H _].
  apply H; [reflexivity|right; left].
Defined.

Lemma builtin_codes_stay_witness :
  fst (RunAllActive_remove_if 3 4 Binary32.float_add (ActivateARCodesFor_codes 1 0)
         (initial_world zero_memory []))
  = ActivateARCodesFor_codes 1 0.
Proof.
  destruct (builtin_codes_stay 3 4 Binary32.float_add 1 0
              (initial_world zero_memory []) (initial_world zero_memory []) eq_refl)
    as [_ H].
  exact H.
Defined.

Lemma logging_latch_witness :
  let w := mkWorld zero_memory true [] [] true None true [] [] in
  let w' := snd (RunAllActive_remove_if 3 4 Binary32.float_add [S1_code] w) in
  info_log w' = info_log w /\ s_internal_log w' = s_internal_log w.
Proof.
  destruct (logging_latch 3 4 Binary32.float_add [S1_code] S1_code
              (mkWorld zero_memory true [] [] true None true [] []) eq_refl)
    as (_ & _ & _ & H).
  destruct (H eq_refl) as (_ & Hi & Hs). split; assumption.
Defined.

Lemma memory_copy_copies_witness :
  fst (ZeroCode_MemoryCopy 3 4 0x86500000 0x00400000 0x00000110
         (initial_world zero_memory []))
  = true.
Proof.
  destruct (memory_copy_copies 3 4 0x86500000 0x00400000 0x00000110
              (initial_world zero_memory []))
    as [H _];
    [reflexivity|reflexivity|discriminate|vm_compute; discriminate
    |right; vm_compute; discriminate|exact H].
Defined.

Lemma fill_and_slide_cells_witness :
  fst (ZeroCode_FillAndSlide 3 4 0x82100000 0x0000AABB 0x01030002
         (initial_world zero_memory []))
  = true.
Proof.
  destruct (fill_and_slide_cells 3 4 0x82100000 0x0000AABB 0x01030002
              (initial_world zero_memory []))
    as [H _]; [vm_compute; discriminate|vm_compute; discriminate|exact H].
Defined.

Lemma memory_copy_with_pointers_witness :
  let m :=
    mem_write_u32 (mem_write_u32 zero_memory 0x80600000 0x80500000) 0x80700000 0x80400000 in
  fst (ZeroCode_MemoryCopy 3 4 0x86500000 0x00400000 0x01000010 (initial_world m []))
  = true.
Proof.
  destruct (memory_copy_with_pointers 3 4 0x86500000 0x00400000 0x01000010
              (initial_world
                 (mem_write_u32 (mem_write_u32 zero_memory 0x80600000 0x80500000)
                    0x80700000 0x80400000) []))
    as [H _];
    [reflexivity|vm_compute; discriminate|vm_compute; discriminate
    |vm_compute; discriminate|left; vm_compute; discriminate|exact H].
Defined.

Lemma failing_code_is_retired_witness :
  let code := mkARCode "row" [mkAREntry 0 0x60000000] true true in
  code ∉ s_active_codes (snd (run_all_active (initial_world zero_memory [code; code]))).
Proof.
  apply (failing_code_is_retired 3 4 Binary32.float_add); [reflexivity|].
  intros w'.
  apply (unsupported_first_fails 3 4 Binary32.float_add _ (mkAREntry 0 0x60000000) []);
    reflexivity.
Defined.

Lemma run_logs_its_header_witness :
  exists more,
    let w := mkWorld zero_memory true [] [] true None false [] [] in
    let header :=
      [mkText "Code Name: %s" [ArgS (name S1_code)];
       mkText "Number of codes: %zu" [ArgZ (Z.of_nat (length (ops S1_code)))]] in
    s_internal_log (snd (run_code S1_code w)) = s_internal_log w ++ header ++ more /\
    info_log (snd (run_code S1_code w)) = info_log w ++ header ++ more.
Proof.
  apply (run_logs_its_header 3 4 Binary32.float_add S1_code
           (mkWorld zero_memory true [] [] true None false [] [])); reflexivity.
Defined.
